(** * RBXLX-to-Rojo converter: a shallow embedding and its verification

    The development follows the library modules of the converter:
    - [utils.py]                  : the name normaliser, the Lua escape and
                                    the base64 conversion;
    - [roblox_parser.py]          : the property decoder and the two-pass
                                    graph parser;
    - [rojo_project_generator.py] : the metadata sidecar and the project
                                    emitter;
    and the sequence of [rbxlx_to_rojo.py]: parse, emit ([convert]) and
    check ([verify_output]).

    Conventions of the embedding.
    - A Python [str] is a Rocq [string] holding its UTF-8 encoding.
    - A Python exception is a value of [exn]; a call that may raise returns
      a [result].
    - A Python [dict] is an association list in insertion order ([pydict]);
      assigning to an existing key keeps the key's position.
    - A Python [float] is kept as the call that produced it ([pyfloat]): the
      converter only parses floats and writes them back, it never computes
      with them.
    - A document is the tree of its elements ([Element]); comments and
      processing instructions are not part of it.
    - The generator's effects are the commands it issues to a file system
      ([command], [exec]); paths are resolved as POSIX does, without
      symbolic links. *)

From Stdlib Require Import ZArith Ascii String List Bool.
From stdpp Require Import base option list gmap strings.

Open Scope string_scope.
Open Scope list_scope.

(** ** Python values, exceptions and built-ins *)

Inductive exn : Set :=
  | AttributeError | TypeError | ValueError | RecursionError
  | FileNotFoundError | FileExistsError | NotADirectoryError | IsADirectoryError.

Inductive result (A : Type) : Type :=
  | Ok (a : A)
  | Raise (e : exn).
Arguments Ok {A} a.
Arguments Raise {A} e.

#[global] Instance result_ret : MRet result := fun A a => Ok a.
#[global] Instance result_bind : MBind result := fun A B k m =>
  match m with Ok a => k a | Raise e => Raise e end.

Definition raises {A} (m : result A) : Prop := exists e, m = Raise e.

(** [for x in l: st = f st x], where [f] may raise. *)
Fixpoint for_each {A S} (f : S -> A -> result S) (l : list A) (st : S) : result S :=
  match l with
  | [] => Ok st
  | x :: l' => st' ← f st x; for_each f l' st'
  end.

Module Py.

Definition bytes (s : string) : list ascii := list_ascii_of_string s.
Definition str (l : list ascii) : string := string_of_list_ascii l.

Definition code (c : ascii) : nat := nat_of_ascii c.
Definition in_range (lo hi : nat) (c : ascii) : bool :=
  (lo <=? code c)%nat && (code c <=? hi)%nat.

Definition is_upper : ascii -> bool := in_range 65 90.
Definition is_digit : ascii -> bool := in_range 48 57.

(** A [str] is held as its UTF-8 encoding.  [iter s] lists the characters
    of [s], as [for c in s] does: a byte that is not a continuation byte
    (0x80-0xbf) starts a character, the continuation bytes after it belong
    to it. *)
Definition is_continuation : ascii -> bool := in_range 128 191.

Definition iter_step (b : ascii) (acc : list ascii * list string) : list ascii * list string :=
  if is_continuation b then (b :: acc.1, acc.2)
  else ([], str (b :: acc.1) :: acc.2).
Definition iter (s : string) : list string :=
  let r := foldr iter_step ([], []) (bytes s) in
  match r.1 with [] => r.2 | cont => str cont :: r.2 end.

(** [needle in hay], on strings. *)
Fixpoint contains (hay needle : string) : bool :=
  String.prefix needle hay
  || match hay with String _ hay' => contains hay' needle | EmptyString => false end.

(** [''.join(l)]. *)
Definition join (l : list string) : string := foldr String.append "" l.

(** [str.isspace] on ASCII text: tab, line feed, vertical tab, form feed,
    carriage return, the separators 0x1c-0x1f and space.  The converter
    strips white space from ASCII text only. *)
Definition is_space (c : ascii) : bool := in_range 9 13 c || in_range 28 32 c.

(** [str.lower], on the letters A-Z.  No character outside A-Z has one of
    the letters of ["true"] as its lower case, which is all the converter
    uses [lower] for. *)
Definition lower_char (c : ascii) : ascii :=
  if is_upper c then ascii_of_nat (code c + 32) else c.
Definition lower (s : string) : string := str (map lower_char (bytes s)).

Fixpoint lstrip_bytes (p : ascii -> bool) (l : list ascii) : list ascii :=
  match l with
  | [] => []
  | c :: l' => if p c then lstrip_bytes p l' else l
  end.
Definition rstrip_bytes (p : ascii -> bool) (l : list ascii) : list ascii :=
  rev (lstrip_bytes p (rev l)).
Definition strip_bytes (p : ascii -> bool) (l : list ascii) : list ascii :=
  rstrip_bytes p (lstrip_bytes p l).

(** [s.strip(cs)] and [s.strip()]. *)
Definition strip_of (cs : string) (s : string) : string :=
  str (strip_bytes (fun c => bool_decide (c ∈ bytes cs)) (bytes s)).
Definition strip (s : string) : string := str (strip_bytes is_space (bytes s)).

Definition startswith (s p : string) : bool := String.prefix p s.
Definition endswith (s p : string) : bool :=
  String.prefix (str (rev (bytes p))) (str (rev (bytes s))).

(** [t or d] on an optional text: [None] and the empty string are falsy. *)
Definition or_default (t : option string) : option string :=
  match t with
  | Some s => if String.eqb s "" then None else Some s
  | None => None
  end.

Definition ascii_letters : string :=
  "abcdefghijklmnopqrstuvwxyzABCDEFGHIJKLMNOPQRSTUVWXYZ".
Definition digits : string := "0123456789".

(** [s.replace(old, new)] for an [old] of one ASCII character: in UTF-8 a
    byte below 0x80 is a character of its own. *)
Definition replace (old : ascii) (new : string) (s : string) : string :=
  join (map (fun c => if Ascii.eqb c old then new else String c "") (bytes s)).

End Py.

(** ** utils.py *)

(** [normalize_name], line by line:
<<
    valid_chars = "-_.() %s%s" % (string.ascii_letters, string.digits)
    normalized = ''.join(c if c in valid_chars else '_' for c in name)
    normalized = normalized.strip('_').strip()
    if not normalized: normalized = "unnamed"
>>
    [normalize_items] takes the items [for c in name] yields. *)
Definition valid_chars : string := "-_.() " +:+ Py.ascii_letters +:+ Py.digits.

Definition normalize_items (items : list string) : string :=
  let normalized :=
    Py.join (map (fun c => if Py.contains valid_chars c then c else "_") items) in
  let normalized := Py.strip (Py.strip_of "_" normalized) in
  if String.eqb normalized "" then "unnamed" else normalized.

Definition normalize_name (name : string) : string :=
  normalize_items (Py.iter name).

(** [escape_lua_string]: the empty string for a falsy argument, else five
    replacements in this order: a backslash by two backslashes, a double
    quote by a backslash and the quote, and a line feed, a carriage return
    and a tab by a backslash and the letter [n], [r] or [t]. *)
Definition backslash : ascii := ascii_of_nat 92.
Definition double_quote : ascii := ascii_of_nat 34.
Definition line_feed : ascii := ascii_of_nat 10.
Definition carriage_return : ascii := ascii_of_nat 13.
Definition tab : ascii := ascii_of_nat 9.

Definition escape_lua_string (s : string) : string :=
  if String.eqb s "" then ""
  else
    let s := Py.replace backslash (String backslash (String backslash "")) s in
    let s := Py.replace double_quote (String backslash (String double_quote "")) s in
    let s := Py.replace line_feed (String backslash "n") s in
    let s := Py.replace carriage_return (String backslash "r") s in
    let s := Py.replace tab (String backslash "t") s in
    s.


(** ** Python numbers *)

(** A [float] is kept as the call that produced it: [float(0)] or
    [float(text)] for a text the built-in accepts. *)
Inductive pyfloat : Set :=
  | float_of_int (z : Z)
  | float_of_text (s : string).

Module Num.

Definition digit_value (c : ascii) : Z := Z.of_nat (Py.code c) - 48.
Definition is_sign (c : ascii) : bool := Ascii.eqb c "+" || Ascii.eqb c "-".
Definition is_underscore (c : ascii) : bool := Ascii.eqb c "_".

(** digitpart ::= digit (["_"] digit)*, read to the end of the text;
    [after_digit] says that the character before was a digit. *)
Fixpoint digitpart (after_digit : bool) (l : list ascii) (acc : Z) : option Z :=
  match l with
  | [] => if after_digit then Some acc else None
  | c :: l' =>
      if Py.is_digit c then digitpart true l' (10 * acc + digit_value c)
      else if is_underscore c && after_digit then digitpart false l' acc
      else None
  end.

(** [int(s)] in base 10: white space stripped, an optional sign, a
    digitpart; [ValueError] otherwise. *)
Definition int (s : string) : result Z :=
  let l := Py.strip_bytes Py.is_space (Py.bytes s) in
  let signed :=
    match l with
    | c :: l' => if is_sign c then (Ascii.eqb c "-", l') else (false, l)
    | [] => (false, l)
    end in
  match digitpart false signed.2 0 with
  | Some z => Ok (if signed.1 then (- z)%Z else z)
  | None => Raise ValueError
  end.

(** The rest of the text after the longest digitpart, which started with
    a digit just before [l]. *)
Fixpoint skip_digits (l : list ascii) : list ascii :=
  match l with
  | [] => []
  | c :: l' =>
      if Py.is_digit c then skip_digits l'
      else if is_underscore c then
        match l' with
        | c' :: l'' => if Py.is_digit c' then skip_digits l'' else l
        | [] => l
        end
      else l
  end.
Definition skip_digitpart (l : list ascii) : option (list ascii) :=
  match l with
  | c :: l' => if Py.is_digit c then Some (skip_digits l') else None
  | [] => None
  end.
Definition skip_sign (l : list ascii) : list ascii :=
  match l with
  | c :: l' => if is_sign c then l' else l
  | [] => l
  end.

(** number ::= [digitpart] "." digitpart | digitpart ["."] *)
Definition skip_number (l : list ascii) : option (list ascii) :=
  match skip_digitpart l with
  | Some (c :: r) =>
      if Ascii.eqb c "." then Some (default r (skip_digitpart r)) else Some (c :: r)
  | Some [] => Some []
  | None =>
      match l with
      | c :: r => if Ascii.eqb c "." then skip_digitpart r else None
      | [] => None
      end
  end.
(** exponent ::= ("e" | "E") [sign] digitpart *)
Definition skip_exponent (l : list ascii) : option (list ascii) :=
  match l with
  | c :: r =>
      if Ascii.eqb c "e" || Ascii.eqb c "E" then skip_digitpart (skip_sign r) else Some l
  | [] => Some []
  end.

(** The texts [float(s)] accepts: white space stripped, an optional sign,
    then [inf], [infinity] or [nan] in any case, or a number with an
    optional exponent. *)
Definition float_literal (s : string) : bool :=
  let l := skip_sign (Py.strip_bytes Py.is_space (Py.bytes s)) in
  let w := Py.lower (Py.str l) in
  if String.eqb w "inf" || String.eqb w "infinity" || String.eqb w "nan" then true
  else
    match skip_number l with
    | Some r => match skip_exponent r with Some [] => true | _ => false end
    | None => false
    end.

Definition float (s : string) : result pyfloat :=
  if float_literal s then Ok (float_of_text s) else Raise ValueError.

End Num.

(** ** base64.b64decode(text).decode('utf-8') *)

Module Base64.

Definition is_ascii (c : ascii) : bool := (Py.code c <? 128)%nat.

(** The 6-bit value of a character of the alphabet. *)
Definition table (c : ascii) : option nat :=
  let n := Py.code c in
  if Py.in_range 65 90 c then Some (n - 65)%nat
  else if Py.in_range 97 122 c then Some (n - 71)%nat
  else if Py.in_range 48 57 c then Some (n + 4)%nat
  else if Ascii.eqb c "+" then Some 62%nat
  else if Ascii.eqb c "/" then Some 63%nat
  else None.

(** [binascii.a2b_base64] without validation: characters outside the
    alphabet are skipped, a complete pad sequence ends the decoding, and
    an incomplete last quad is an error. *)
Fixpoint a2b_base64 (l : list ascii) (quad_pos leftchar pads : nat) (out : list ascii)
  : option (list ascii) :=
  match l with
  | [] => if (quad_pos =? 0)%nat then Some (rev out) else None
  | c :: l' =>
      if Ascii.eqb c "=" then
        if (2 <=? quad_pos)%nat then
          if (4 <=? quad_pos + S pads)%nat then Some (rev out)
          else a2b_base64 l' quad_pos leftchar (S pads) out
        else a2b_base64 l' quad_pos leftchar pads out
      else
        match table c with
        | None => a2b_base64 l' quad_pos leftchar pads out
        | Some this_ch =>
            match quad_pos with
            | 0 => a2b_base64 l' 1 this_ch 0 out
            | 1 => a2b_base64 l' 2 (this_ch mod 16) 0
                     (ascii_of_nat (leftchar * 4 + this_ch / 16) :: out)
            | 2 => a2b_base64 l' 3 (this_ch mod 4) 0
                     (ascii_of_nat (leftchar * 16 + this_ch / 4) :: out)
            | _ => a2b_base64 l' 0 0 0
                     (ascii_of_nat (leftchar * 64 + this_ch) :: out)
            end
        end
  end.

(** The ranges of the bytes that must follow a lead byte of UTF-8. *)
Definition utf8_lead (b : ascii) : option (list (nat * nat)) :=
  let n := Py.code b in
  let c := (128, 191)%nat in
  if (n <? 128)%nat then Some []
  else if Py.in_range 194 223 b then Some [c]
  else if (n =? 224)%nat then Some [(160, 191)%nat; c]
  else if (n =? 237)%nat then Some [(128, 159)%nat; c]
  else if Py.in_range 225 239 b then Some [c; c]
  else if (n =? 240)%nat then Some [(144, 191)%nat; c; c]
  else if Py.in_range 241 243 b then Some [c; c; c]
  else if (n =? 244)%nat then Some [(128, 143)%nat; c; c]
  else None.

Fixpoint utf8_valid (expect : list (nat * nat)) (l : list ascii) : bool :=
  match l with
  | [] => match expect with [] => true | _ => false end
  | b :: l' =>
      match expect with
      | r :: expect' => Py.in_range r.1 r.2 b && utf8_valid expect' l'
      | [] =>
          match utf8_lead b with
          | Some expect' => utf8_valid expect' l'
          | None => false
          end
      end
  end.

(** [None] stands for any exception of the two calls. *)
Definition b64decode_utf8 (text : string) : option string :=
  if forallb is_ascii (Py.bytes text) then
    match a2b_base64 (Py.bytes text) 0 0 0 [] with
    | Some data => if utf8_valid [] data then Some (Py.str data) else None
    | None => None
    end
  else None.

End Base64.

(** [convert_base64_to_string] of utils.py:
<<
    if not base64_string: return ""
    try:    return base64.b64decode(base64_string).decode('utf-8')
    except: return ""
>> *)
Definition convert_base64_to_string (base64_string : string) : string :=
  if String.eqb base64_string "" then ""
  else default "" (Base64.b64decode_utf8 base64_string).

(** ** Python dictionaries *)

(** A [dict] in insertion order.  [dict_set] is [d[k] = v]: an existing key
    keeps its position. *)
Definition pydict (K V : Type) : Type := list (K * V).

Section Dict.
Context {K V : Type} `{EqDecision K}.

Fixpoint dict_get (k : K) (d : pydict K V) : option V :=
  match d with
  | [] => None
  | (k', v) :: d' => if decide (k = k') then Some v else dict_get k d'
  end.

Fixpoint dict_set (k : K) (v : V) (d : pydict K V) : pydict K V :=
  match d with
  | [] => [(k, v)]
  | (k', v') :: d' =>
      if decide (k = k') then (k', v) :: d' else (k', v') :: dict_set k v d'
  end.

(** [f] applied to the value at [k]; the dict is unchanged when [k] is
    not a key. *)
Fixpoint dict_update (k : K) (f : V -> V) (d : pydict K V) : pydict K V :=
  match d with
  | [] => []
  | (k', v) :: d' =>
      if decide (k = k') then (k', f v) :: d' else (k', v) :: dict_update k f d'
  end.

Definition dict_has (k : K) (d : pydict K V) : bool := bool_decide (is_Some (dict_get k d)).
Definition keys (d : pydict K V) : list K := d.*1.
End Dict.

(** ** The XML document, as lxml presents it *)

(** An element: its tag, its attributes, the text before its first child,
    the text after its end tag, and its child elements. *)
#[warnings="-register-all"]
Inductive Element : Type := mkElement {
  tag : string;
  attrib : list (string * string);
  text : option string;
  tail : option string;
  subelements : list Element
}.

(** [e.get(name)] *)
Definition get (e : Element) (name : string) : option string := dict_get name (attrib e).

(** [e.find(t)]: the first child with tag [t]; [e.findall('./' + t)]: all
    of them, in document order. *)
Definition findall_children (e : Element) (t : string) : list Element :=
  filter (fun c => tag c = t) (subelements e).
Definition find (e : Element) (t : string) : option Element :=
  head (findall_children e t).

(** The descendants of [e] in document order, [e] itself excluded, and
    [e.findall('.//' + t)]. *)
Fixpoint descendants (e : Element) : list Element :=
  concat (map (fun c => c :: descendants c) (subelements e)).
Definition findall (e : Element) (t : string) : list Element :=
  filter (fun c => tag c = t) (descendants e).

(** The elements in the order of their end tags, as [iterparse] with
    [events=('end',)] yields them: children before their parent, the
    document's root last. *)
Fixpoint end_events (e : Element) : list Element :=
  concat (map end_events (subelements e)) ++ [e].

(** [etree.tostring(e, encoding='unicode')]: the element with its
    attributes, text, children and tail.  Name spaces, comments and
    processing instructions are not part of the element model. *)
Module Etree.

Definition escape_char (in_attribute : bool) (c : ascii) : string :=
  if Ascii.eqb c "&" then "&amp;"
  else if Ascii.eqb c "<" then "&lt;"
  else if Ascii.eqb c ">" then "&gt;"
  else if in_attribute && Ascii.eqb c (ascii_of_nat 34) then "&quot;"
  else String c "".
Definition escape (in_attribute : bool) (s : string) : string :=
  Py.join (map (escape_char in_attribute) (Py.bytes s)).

Definition quote : string := String (ascii_of_nat 34) EmptyString.
Definition attributes (a : list (string * string)) : string :=
  Py.join (map (fun kv => " " +:+ kv.1 +:+ "=" +:+ quote +:+ escape true kv.2 +:+ quote) a).

Fixpoint tostring (e : Element) : string :=
  match e with
  | mkElement t a x tl cs =>
      (match Py.or_default x, cs with
       | None, [] => "<" +:+ t +:+ attributes a +:+ "/>"
       | _, _ =>
           "<" +:+ t +:+ attributes a +:+ ">" +:+ escape false (default "" x)
           +:+ Py.join (map tostring cs) +:+ "</" +:+ t +:+ ">"
       end) +:+ escape false (default "" tl)
  end.

End Etree.

(** ** roblox_parser.py: the property decoder *)

(** The values a property decodes to: a string, an integer, a float, a
    boolean, or a dict from component names to such values. *)
Inductive scalar : Type :=
  | SStr (s : string)
  | SInt (z : Z)
  | SFloat (f : pyfloat)
  | SBool (b : bool).

Inductive pyval : Type :=
  | Scalar (x : scalar)
  | Dict (d : pydict string scalar).

Coercion Scalar : scalar >-> pyval.

(** [prop_elem.text or d] *)
Definition text_or (d : string) (t : option string) : string :=
  default d (Py.or_default t).

(** [int(prop_elem.text or 0)] and [float(prop_elem.text or 0)] *)
Definition int_or_0 (t : option string) : result Z :=
  match Py.or_default t with
  | Some s => Num.int s
  | None => Ok 0%Z
  end.
Definition float_or_0 (t : option string) : result pyfloat :=
  match Py.or_default t with
  | Some s => Num.float s
  | None => Ok (float_of_int 0)
  end.

(** [t.lower() == 'true']; the attribute [lower] of [None] does not exist. *)
Definition lower_is_true (t : option string) : result bool :=
  match t with
  | Some s => Ok (String.eqb (Py.lower s) "true")
  | None => Raise AttributeError
  end.

(** The body shared by the [BinaryString] and [ProtectedString] cases:
<<
    if prop_elem.text:
        try:    return base64.b64decode(prop_elem.text).decode('utf-8')
        except: return prop_elem.text
    return ""
>> *)
Definition decode_base64_text (t : option string) : string :=
  match Py.or_default t with
  | Some s => default s (Base64.b64decode_utf8 s)
  | None => ""
  end.

(** [{'X': float(x.text or 0) if x is not None else 0}], for one component. *)
Definition component_or_0 (c : option Element) : result scalar :=
  match c with
  | Some x => f ← float_or_0 (text x); Ok (SFloat f)
  | None => Ok (SInt 0)
  end.

Definition _extract_property_value (prop_elem : Element) : result pyval :=
  let t := tag prop_elem in
  if t =? "string" then Ok (Scalar (SStr (text_or "" (text prop_elem))))
  else if (t =? "int") || (t =? "int64") then
    z ← int_or_0 (text prop_elem); Ok (Scalar (SInt z))
  else if (t =? "float") || (t =? "double") then
    f ← float_or_0 (text prop_elem); Ok (Scalar (SFloat f))
  else if t =? "bool" then
    b ← lower_is_true (text prop_elem); Ok (Scalar (SBool b))
  else if t =? "Content" then Ok (Scalar (SStr (text_or "" (text prop_elem))))
  else if t =? "BinaryString" then
    Ok (Scalar (SStr (decode_base64_text (text prop_elem))))
  else if t =? "ProtectedString" then
    Ok (Scalar (SStr (decode_base64_text (text prop_elem))))
  else if t =? "UniqueId" then Ok (Scalar (SStr (text_or "" (text prop_elem))))
  else if t =? "SecurityCapabilities" then
    Ok (Scalar (SStr (text_or "0" (text prop_elem))))
  else if t =? "Ref" then Ok (Scalar (SStr (text_or "null" (text prop_elem))))
  else if t =? "token" then
    z ← int_or_0 (text prop_elem); Ok (Scalar (SInt z))
  else if (t =? "Color3") || (t =? "Color3uint8") then
    match find prop_elem "R", find prop_elem "G", find prop_elem "B" with
    | Some r, Some g, Some b =>
        fr ← float_or_0 (text r);
        fg ← float_or_0 (text g);
        fb ← float_or_0 (text b);
        Ok (Dict [("R", SFloat fr); ("G", SFloat fg); ("B", SFloat fb)])
    | _, _, _ => Ok (Dict [("R", SInt 0); ("G", SInt 0); ("B", SInt 0)])
    end
  else if (t =? "Vector2") || (t =? "Vector3") then
    let x := find prop_elem "X" in
    let y := find prop_elem "Y" in
    let z := if t =? "Vector3" then find prop_elem "Z" else None in
    vx ← component_or_0 x;
    vy ← component_or_0 y;
    let result := [("X", vx); ("Y", vy)] in
    match z with
    | Some z => fz ← float_or_0 (text z); Ok (Dict (dict_set "Z" (SFloat fz) result))
    | None => Ok (Dict result)
    end
  else if (t =? "CFrame") || (t =? "CoordinateFrame") then
    components ← for_each
      (fun components component =>
         f ← float_or_0 (text component);
         Ok (dict_set (tag component) (SFloat f) components))
      (subelements prop_elem) [];
    Ok (Dict components)
  else if t =? "PhysicalProperties" then
    match find prop_elem "CustomPhysics" with
    | Some c => b ← lower_is_true (text c); Ok (Dict [("CustomPhysics", SBool b)])
    | None => Raise AttributeError
    end
  else Ok (Scalar (SStr (Etree.tostring prop_elem))).

(** ** roblox_parser.py: the two-pass parser *)

(** One entry of [self.instances].  A property's key is the [name]
    attribute of its element, [None] when the element has none. *)
Record Instance : Type := mkInstance {
  class : string;
  referent : string;
  properties : pydict (option string) pyval;
  children : list string;
  parent : option string
}.

Definition set_property (k : option string) (v : pyval) (i : Instance) : Instance :=
  mkInstance (class i) (referent i) (dict_set k v (properties i)) (children i) (parent i).
Definition append_child (c : string) (i : Instance) : Instance :=
  mkInstance (class i) (referent i) (properties i) (children i ++ [c]) (parent i).
Definition set_parent (p : string) (i : Instance) : Instance :=
  mkInstance (class i) (referent i) (properties i) (children i) (Some p).

Record GameData : Type := mkGameData {
  name : pyval;
  instances : pydict string Instance;
  root_instances : list string
}.

(** The first pass over the [end] events:
<<
    if elem.tag == 'Item':
        ref_id = elem.get('referent'); class_name = elem.get('class')
        if ref_id and class_name:
            self.instances[ref_id] = {'class': class_name, 'referent': ref_id,
                                      'properties': {}, 'children': [], 'parent': None}
>>
    Clearing the element afterwards changes nothing that is read later. *)
Definition first_pass_step (instances : pydict string Instance) (elem : Element)
  : pydict string Instance :=
  if tag elem =? "Item" then
    match Py.or_default (get elem "referent"), Py.or_default (get elem "class") with
    | Some ref_id, Some class_name =>
        dict_set ref_id (mkInstance class_name ref_id [] [] None) instances
    | _, _ => instances
    end
  else instances.

Definition first_pass (root : Element) : pydict string Instance :=
  fold_left first_pass_step (end_events root) [].

(** The second pass, for one [Item] element whose referent is known. *)
Definition extract_properties (ref_id : string) (item_elem : Element)
    (instances : pydict string Instance) : result (pydict string Instance) :=
  match find item_elem "Properties" with
  | Some properties_elem =>
      for_each
        (fun instances prop_elem =>
           let prop_name := get prop_elem "name" in
           prop_value ← _extract_property_value prop_elem;
           Ok (dict_update ref_id (set_property prop_name prop_value) instances))
        (subelements properties_elem) instances
  | None => Ok instances
  end.

(** The parser's state in the second pass: [self.instances] and the set
    [child_instances]. *)
Definition link_child (ref_id : string) (st : pydict string Instance * gset string)
    (child_item : Element) : pydict string Instance * gset string :=
  match get child_item "referent" with
  | Some child_ref =>
      if dict_has child_ref st.1 then
        (dict_update child_ref (set_parent ref_id)
           (dict_update ref_id (append_child child_ref) st.1),
         {[child_ref]} ∪ st.2)
      else st
  | None => st
  end.

Definition second_pass_step (st : pydict string Instance * gset string)
    (item_elem : Element) : result (pydict string Instance * gset string) :=
  match get item_elem "referent" with
  | Some ref_id =>
      if dict_has ref_id st.1 then
        instances ← extract_properties ref_id item_elem st.1;
        Ok (fold_left (link_child ref_id) (findall_children item_elem "Item")
              (instances, st.2))
      else Ok st
  | None => Ok st
  end.

Definition second_pass (root : Element) (instances : pydict string Instance)
  : result (pydict string Instance * gset string) :=
  for_each second_pass_step (findall root "Item") (instances, ∅).

(** The roots: [ref_id not in child_instances and instance['parent'] is None],
    in the order of [self.instances]. *)
Definition is_root (child_instances : gset string) (entry : string * Instance) : bool :=
  bool_decide (entry.1 ∉ child_instances) && bool_decide (parent entry.2 = None).

Definition find_roots (instances : pydict string Instance) (child_instances : gset string)
  : list string :=
  (List.filter (is_root child_instances) instances).*1.

(** [_get_game_name]; [stem] is the file name of the input without its
    extension. *)
Definition named_of_class (c : string) (instance : Instance) : option pyval :=
  if class instance =? c then dict_get (Some "Name") (properties instance) else None.

Definition _get_game_name (instances : pydict string Instance)
    (root_instances : list string) (stem : string) : pyval :=
  let from_roots :=
    omap (fun ref_id => dict_get ref_id instances ≫= named_of_class "DataModel")
      root_instances in
  let from_workspace := omap (fun entry => named_of_class "Workspace" entry.2) instances in
  default (Scalar (SStr stem)) (head (from_roots ++ from_workspace)).

(** [parse], on a document that is well-formed XML. *)
Definition parse (stem : string) (root : Element) : result GameData :=
  let instances := first_pass root in
  st ← second_pass root instances;
  let root_instances := find_roots st.1 st.2 in
  Ok (mkGameData (_get_game_name st.1 root_instances stem) st.1 root_instances).

(** ** JSON documents and the file system *)

(** What [json.dump] is given: scalars, lists and objects in insertion
    order. *)
#[warnings="-register-all"]
Inductive json : Type :=
  | JScalar (x : scalar)
  | JList (l : list json)
  | JObj (o : pydict string json).

Definition JStr (s : string) : json := JScalar (SStr s).

Definition json_of_pyval (v : pyval) : json :=
  match v with
  | Scalar x => JScalar x
  | Dict d => JObj (map (fun kv => (kv.1, JScalar kv.2)) d)
  end.

(** A path is the list of its parts, as [pathlib] keeps them, relative to
    the root of the modelled file system.  [path / s] splits [s] at the
    slashes and drops empty parts and single dots; a part [..] is kept and
    resolved by the file system. *)
Definition path : Type := list string.

Fixpoint split_slash (s : string) : list string :=
  match s with
  | EmptyString => [""]
  | String c s' =>
      if Ascii.eqb c "/" then "" :: split_slash s'
      else match split_slash s' with
           | part :: parts => String c part :: parts
           | [] => [String c ""]
           end
  end.

Definition path_join (p : path) (s : string) : path :=
  p ++ List.filter (fun part => negb (part =? "") && negb (part =? ".")) (split_slash s).

Module FS.

(** The content of a file: a text, or the document [json.dump(j, f,
    indent=4)] wrote. *)
Inductive content : Type :=
  | Text (s : string)
  | Json (j : json).

Inductive node : Type :=
  | Dir
  | File (c : content).

(** The file system maps resolved paths (no dots) to nodes; the root [[]]
    is a directory. *)
Definition lookup_node (f : gmap (list string) node) (q : list string) : option node :=
  match q with
  | [] => Some Dir
  | _ => f !! q
  end.

Definition step (cur : list string) (part : string) : list string :=
  if part =? ".." then removelast cur
  else if part =? "." then cur
  else cur ++ [part].

(** Path resolution: every part is looked up in a directory that exists.
    The result is where the path leads; the last part need not exist. *)
Fixpoint walk (f : gmap (list string) node) (cur : list string) (parts : path)
  : result (list string) :=
  match parts with
  | [] => Ok cur
  | part :: rest =>
      match lookup_node f cur with
      | Some Dir => walk f (step cur part) rest
      | Some (File _) => Raise NotADirectoryError
      | None => Raise FileNotFoundError
      end
  end.

Definition stat (p : path) (f : gmap (list string) node) : result node :=
  q ← walk f [] p;
  match lookup_node f q with
  | Some n => Ok n
  | None => Raise FileNotFoundError
  end.

(** [p.exists()] and [p.is_dir()] *)
Definition exists_ (p : path) (f : gmap (list string) node) : bool :=
  match stat p f with Ok _ => true | Raise _ => false end.
Definition is_dir (p : path) (f : gmap (list string) node) : bool :=
  match stat p f with Ok Dir => true | _ => false end.

(** [os.mkdir(p)] *)
Definition os_mkdir (p : path) (f : gmap (list string) node)
  : result (gmap (list string) node) :=
  q ← walk f [] p;
  match lookup_node f q with
  | Some _ => Raise FileExistsError
  | None => Ok (<[q := Dir]> f)
  end.

(** [open(p, 'w')] followed by writing [c]. *)
Definition write (p : path) (c : content) (f : gmap (list string) node)
  : result (gmap (list string) node) :=
  q ← walk f [] p;
  match lookup_node f q with
  | Some Dir => Raise IsADirectoryError
  | _ => Ok (<[q := File c]> f)
  end.

(** [Path.mkdir(parents=True, exist_ok=...)] of pathlib:
<<
    try: os.mkdir(self, mode)
    except FileNotFoundError:
        if not parents or self.parent == self: raise
        self.parent.mkdir(parents=True, exist_ok=True)
        self.mkdir(mode, parents=False, exist_ok=exist_ok)
    except OSError:
        if not exist_ok or not self.is_dir(): raise
>>
    [mkdir_leaf] is the call with [parents=False]; [mkdir_rev] takes the
    parts in reverse, so that the parent is the tail. *)
Definition mkdir_leaf (p : path) (exist_ok : bool) (f : gmap (list string) node)
  : result (gmap (list string) node) :=
  match os_mkdir p f with
  | Ok f' => Ok f'
  | Raise FileNotFoundError => Raise FileNotFoundError
  | Raise e => if exist_ok && is_dir p f then Ok f else Raise e
  end.

Fixpoint mkdir_rev (rp : list string) (exist_ok : bool) (f : gmap (list string) node)
  : result (gmap (list string) node) :=
  match os_mkdir (rev rp) f with
  | Ok f' => Ok f'
  | Raise FileNotFoundError =>
      match rp with
      | [] => Raise FileNotFoundError
      | _ :: parent =>
          f1 ← mkdir_rev parent true f;
          mkdir_leaf (rev rp) exist_ok f1
      end
  | Raise e => if exist_ok && is_dir (rev rp) f then Ok f else Raise e
  end.

Definition mkdir (p : path) (exist_ok : bool) (f : gmap (list string) node)
  : result (gmap (list string) node) :=
  mkdir_rev (rev p) exist_ok f.

(** [p.iterdir()]: the entries of the directory [p]. *)
Definition iterdir (p : path) (f : gmap (list string) node) : result (list (list string)) :=
  q ← walk f [] p;
  match lookup_node f q with
  | Some Dir =>
      Ok (filter (fun entry => entry <> [] /\ removelast entry = q) (map_to_list f).*1)
  | Some (File _) => Raise NotADirectoryError
  | None => Raise FileNotFoundError
  end.

End FS.

(** ** rojo_project_generator.py *)

(** The generator's state: the file system and [self.created_paths]. *)
Record state : Type := mkState {
  files : gmap (list string) FS.node;
  created_paths : gset (list string)
}.

(** The generator reads the file system only to skip the creation of a
    directory that exists, so a run is the list of the commands it issues:
    - [Mkdir p exist_ok record]:
<<
        if not p.exists():
            p.mkdir(parents=True, exist_ok=exist_ok)
            self.created_paths.add(str(p))        # when [record]
>>
    - [WriteText p v]:
<<
        with open(p, 'w', encoding='utf-8') as f: f.write(v)
        self.created_paths.add(str(p))
>>
    - [WriteJson p j record]:
<<
        with open(p, 'w', encoding='utf-8') as f: json.dump(j, f, indent=4)
        self.created_paths.add(str(p))            # when [record]
>>
    - [Throw e]: an exception raised by the generator's own code. *)
Inductive command : Type :=
  | Mkdir (p : path) (exist_ok record : bool)
  | WriteText (p : path) (v : pyval)
  | WriteJson (p : path) (j : json) (record : bool)
  | Throw (e : exn).

Definition record_path (record : bool) (p : path) (created : gset (list string))
  : gset (list string) :=
  if record then {[p]} ∪ created else created.

Definition exec (st : state) (c : command) : result state :=
  match c with
  | Mkdir p exist_ok record =>
      if FS.exists_ p (files st) then Ok st
      else
        f ← FS.mkdir p exist_ok (files st);
        Ok (mkState f (record_path record p (created_paths st)))
  | WriteText p v =>
      match v with
      | Scalar (SStr s) =>
          f ← FS.write p (FS.Text s) (files st);
          Ok (mkState f (record_path true p (created_paths st)))
      | _ =>
          (* the file is opened, then [f.write] refuses what is not a str *)
          _ ← FS.write p (FS.Text "") (files st);
          Raise TypeError
      end
  | WriteJson p j record =>
      f ← FS.write p (FS.Json j) (files st);
      Ok (mkState f (record_path record p (created_paths st)))
  | Throw e => Raise e
  end.

Definition run (cmds : list command) (st : state) : result state :=
  for_each exec cmds st.

(** The truth value of a list or a dict. *)
Definition nonempty {A} (l : list A) : bool :=
  match l with [] => false | _ => true end.

(** [instance['properties'].get('Name', instance_class)] *)
Definition instance_name (instance : Instance) : pyval :=
  default (Scalar (SStr (class instance))) (dict_get (Some "Name") (properties instance)).

(** [normalize_name(instance_name)]: a str is read character by
    character, a dict key by key, and a number or a boolean cannot be
    iterated. *)
Definition normalize_name_of (v : pyval) : result string :=
  match v with
  | Scalar (SStr s) => Ok (normalize_name s)
  | Scalar _ => Raise TypeError
  | Dict d => Ok (normalize_items (keys d))
  end.

Definition important_properties : list string :=
  [ "Anchored"; "CanCollide"; "CastShadow"; "CollisionGroupId"; "Massless";
    "Material"; "Transparency"; "Reflectance"; "Locked";
    "Size"; "CFrame"; "Position"; "Rotation"; "RotVelocity"; "Velocity";
    "BackgroundColor3"; "BackgroundTransparency"; "BorderColor3"; "BorderSizePixel";
    "TextColor3"; "Font"; "TextSize"; "Text"; "TextWrapped"; "TextXAlignment";
    "TextYAlignment"; "Image"; "ImageColor3"; "ImageTransparency"; "ScaleType";
    "Enabled"; "Visible"; "Value"; "MaxValue"; "MinValue"; "Sound"; "Volume"; "Pitch";
    "CanBeDropped"; "RequiresHandle"; "Looped"; "Playing"; "TimePosition";
    "Ambient"; "Brightness"; "ColorShift_Bottom"; "ColorShift_Top"; "GlobalShadows";
    "OutdoorAmbient"; "TimeOfDay"; "FogColor"; "FogEnd"; "FogStart";
    "MeshId"; "TextureId"; "SoundId"; "CollisionGroup"; "AttachmentPoint"; "PrimaryPart" ].

(** The test of [_create_meta_file] on a property's name:
<<
    prop_name != 'Name' and not prop_name.startswith('_') and (
        prop_name in important_properties or prop_name.endswith('Color3') or
        prop_name.endswith('Size') or prop_name.endswith('Offset') or
        prop_name.endswith('Position'))
>>
    on a name that is a str. *)
Definition is_included (n : string) : bool :=
  negb (n =? "Name") && negb (Py.startswith n "_")
  && (bool_decide (n ∈ important_properties) || Py.endswith n "Color3"
      || Py.endswith n "Size" || Py.endswith n "Offset"
      || Py.endswith n "Position").

(** [all(k in prop_value for k in ks)] and [prop_value.get(k, d)] *)
Definition has_all (ks : list string) (d : pydict string scalar) : bool :=
  forallb (fun k => dict_has k d) ks.
Definition get_or (k : string) (dflt : Z) (d : pydict string scalar) : json :=
  JScalar (default (SInt dflt) (dict_get k d)).
Definition getitem (k : string) (d : pydict string scalar) : json := get_or k 0 d.

(** The value stored in [meta['properties']] for a property that is
    included; the five cases of a dict are tried in the order of the
    source. *)
Definition meta_value (prop_value : pyval) : json :=
  match prop_value with
  | Dict d =>
      if has_all ["R"; "G"; "B"] d then
        JList [getitem "R" d; getitem "G" d; getitem "B" d]
      else if has_all ["X"; "Y"; "Z"] d then
        JList [getitem "X" d; getitem "Y" d; getitem "Z" d]
      else if has_all ["X"; "Y"] d && (length d =? 2)%nat then
        JList [getitem "X" d; getitem "Y" d]
      else if dict_has "X" d && dict_has "Y" d && dict_has "Z" d && dict_has "R00" d then
        JList [ getitem "X" d; getitem "Y" d; getitem "Z" d;
                get_or "R00" 1 d; get_or "R01" 0 d; get_or "R02" 0 d;
                get_or "R10" 0 d; get_or "R11" 1 d; get_or "R12" 0 d;
                get_or "R20" 0 d; get_or "R21" 0 d; get_or "R22" 1 d ]
      else
        JObj (map (fun kv => (kv.1, JScalar kv.2))
                (List.filter (fun kv => negb (Py.startswith kv.1 "_")) d))
  | Scalar x => JScalar x
  end.

(** The loop of [_create_meta_file] over [instance['properties'].items()].
    A name that is [None] differs from ['Name'] and has no [startswith]. *)
Definition meta_properties (props : pydict (option string) pyval)
  : result (pydict string json) :=
  for_each
    (fun (meta : pydict string json) (kv : option string * pyval) =>
       match kv.1 with
       | None => Raise AttributeError
       | Some prop_name =>
           Ok (if is_included prop_name
               then dict_set prop_name (meta_value kv.2) meta
               else meta)
       end)
    props [].

Definition meta_json (instance_class : string) (props : pydict string json) : json :=
  JObj [("className", JStr instance_class); ("properties", JObj props)].

(** The commands of a computation that may raise before it issues them. *)
Definition commands_of (m : result (list command)) : list command :=
  match m with
  | Ok cmds => cmds
  | Raise e => [Throw e]
  end.

Definition _create_meta_file (instance : Instance) (p : path) : list command :=
  commands_of (
    props ← meta_properties (properties instance);
    let always_create_meta :=
      negb (class instance =? "Folder") || (0 <? length props)%nat in
    if always_create_meta then
      n ← normalize_name_of (instance_name instance);
      Ok [WriteJson (path_join p (n +:+ ".meta.json")) (meta_json (class instance) props) true]
    else Ok []).

Definition script_extensions : pydict string string :=
  [("Script", ".server.lua"); ("LocalScript", ".client.lua"); ("ModuleScript", ".lua")].

Definition is_script_class (c : string) : bool :=
  bool_decide (c ∈ ["Script"; "LocalScript"; "ModuleScript"]).

Section Emitter.
Variable game_data : GameData.

(** The children of [instance] that [game_data['instances'].get] finds. *)
Definition resolve (refs : list string) : list Instance :=
  omap (fun child_ref => dict_get child_ref (instances game_data)) refs.

(** [_create_script_file], with the recursive call [process] of
    [_process_instance] on a child:
<<
    source_code = ""
    if 'Source' in instance['properties']: source_code = instance['properties']['Source']
    extension = self.script_extensions.get(instance_class, '.lua')
    file_name = f"{normalize_name(instance_name)}{extension}"
    script_path = parent_path / file_name
    (write source_code to script_path)
    if instance['children']:
        self._create_meta_file(instance, script_path.parent)
        for child_ref in instance['children']:
            child = self.game_data['instances'].get(child_ref)
            if child:
                child_dir = parent_path / normalize_name(instance_name)
                if not child_dir.exists(): (create child_dir)
                self._process_instance(child, child_dir, False)
>> *)
Definition _create_script_file_with
    (process : Instance -> path -> bool -> list command)
    (instance : Instance) (parent_path : path) : list command :=
  let source_code :=
    default (Scalar (SStr "")) (dict_get (Some "Source") (properties instance)) in
  let extension := default ".lua" (dict_get (class instance) script_extensions) in
  match normalize_name_of (instance_name instance) with
  | Raise e => [Throw e]
  | Ok n =>
      let script_path := path_join parent_path (n +:+ extension) in
      WriteText script_path source_code ::
      match children instance with
      | [] => []
      | _ =>
          _create_meta_file instance parent_path ++
          concat (map (fun child =>
                         let child_dir := path_join parent_path n in
                         Mkdir child_dir true true :: process child child_dir false)
                    (resolve (children instance)))
      end
  end.

(** [_process_instance]; [fuel] bounds the depth of the recursion, as the
    interpreter's recursion limit does.  The path the source returns is
    used by no caller. *)
Fixpoint _process_instance (fuel : nat) (instance : Instance) (parent_path : path)
    (is_root : bool) : list command :=
  match fuel with
  | O => [Throw RecursionError]
  | S fuel' =>
      if is_script_class (class instance) then
        _create_script_file_with (_process_instance fuel') instance parent_path
      else
        match normalize_name_of (instance_name instance) with
        | Raise e => [Throw e]
        | Ok dir_name =>
            let instance_path := path_join parent_path dir_name in
            if nonempty (children instance) || is_root
               || nonempty (properties instance) then
              let reuse := is_root && bool_decide (class instance ∈ parent_path) in
              let instance_path := if reuse then parent_path else instance_path in
              (if reuse then [] else [Mkdir instance_path true true]) ++
              _create_meta_file instance instance_path ++
              concat (map (fun child => _process_instance fuel' child instance_path false)
                        (resolve (children instance)))
            else []
        end
  end.

Definition _create_script_file (fuel : nat) : Instance -> path -> list command :=
  _create_script_file_with (_process_instance fuel).
End Emitter.

(** The manifest [default.project.json]. *)
Definition service_entry (service : string) : json :=
  JObj [("$className", JStr service); ("$path", JStr ("src/" +:+ service))].

Definition standard_services : list string :=
  [ "ReplicatedFirst"; "Players"; "Chat"; "LocalizationService";
    "TestService"; "MarketplaceService"; "HttpService" ].

Definition project_tree : pydict string json :=
  fold_left (fun tree service => dict_set service (service_entry service) tree)
    standard_services
    [ ("$className", JStr "DataModel");
      ("ReplicatedStorage", service_entry "ReplicatedStorage");
      ("ServerScriptService", service_entry "ServerScriptService");
      ("ServerStorage", service_entry "ServerStorage");
      ("StarterGui", service_entry "StarterGui");
      ("StarterPack", service_entry "StarterPack");
      ("StarterPlayer",
       JObj [ ("$className", JStr "StarterPlayer");
              ("StarterPlayerScripts",
               JObj [ ("$className", JStr "StarterPlayerScripts");
                      ("$path", JStr "src/StarterPlayer/StarterPlayerScripts") ]);
              ("StarterCharacterScripts",
               JObj [ ("$className", JStr "StarterCharacterScripts");
                      ("$path", JStr "src/StarterPlayer/StarterCharacterScripts") ]) ]);
      ("Workspace", service_entry "Workspace");
      ("Lighting", service_entry "Lighting");
      ("SoundService", service_entry "SoundService") ].

Definition project_json (game_name : pyval) : json :=
  JObj [("name", json_of_pyval game_name); ("tree", JObj project_tree)].

(** [_create_standard_directories]:
<<
    for key, value in tree.items():
        if key.startswith('$'): continue
        if '$path' in value:
            dir_path = Path(base_path) / value['$path']
            if not dir_path.exists(): (create dir_path)
        if isinstance(value, dict):
            self._create_standard_directories(value, base_path)
>>
    In the manifest every value under a key without [$] is a dict and
    every [$path] a str; other values issue nothing here. *)
Fixpoint _create_standard_directories (base_path : path) (tree : json) : list command :=
  match tree with
  | JObj items =>
      concat (map (fun kv =>
                     match kv with
                     | (key, value) =>
                         if Py.startswith key "$" then []
                         else
                           match value with
                           | JObj o =>
                               match dict_get "$path" o with
                               | Some (JScalar (SStr p)) =>
                                   [Mkdir (path_join base_path p) true true]
                               | _ => []
                               end ++ _create_standard_directories base_path value
                           | _ => []
                           end
                     end) items)
  | _ => []
  end.

Definition _generate_project_json (game_data : GameData) (output_dir : path)
  : list command :=
  WriteJson (path_join output_dir "default.project.json")
    (project_json (name game_data)) false
  :: _create_standard_directories output_dir (JObj project_tree).

(** [generate_project].  The loop over the roots keeps the last root of
    class [Workspace] in [workspace_instance]; its children are processed
    after the loop. *)
Definition process_root (game_data : GameData) (fuel : nat) (src_dir : path)
    (instance : Instance) : list command :=
  if class instance =? "Workspace" then
    let workspace_path := path_join src_dir "Workspace" in
    Mkdir workspace_path false true :: _create_meta_file instance workspace_path
  else _process_instance game_data fuel instance src_dir true.

Definition workspace_instance (game_data : GameData) : option Instance :=
  last (List.filter (fun instance => class instance =? "Workspace")
          (resolve game_data (root_instances game_data))).

Definition generate_project (game_data : GameData) (fuel : nat) (output_dir : path)
  : list command :=
  let src_dir := path_join output_dir "src" in
  Mkdir src_dir false false
  :: _generate_project_json game_data output_dir
  ++ concat (map (process_root game_data fuel src_dir)
               (resolve game_data (root_instances game_data)))
  ++ match workspace_instance game_data with
     | Some instance =>
         concat (map (fun child =>
                        _process_instance game_data fuel child
                          (path_join src_dir "Workspace") false)
                   (resolve game_data (children instance)))
     | None => []
     end.

(** The converter: parse, then emit into [output_dir]. *)
Definition convert (stem : string) (root : Element) (fuel : nat) (output_dir : path)
    (st : state) : result state :=
  game_data ← parse stem root;
  run (generate_project game_data fuel output_dir) st.

(** ** rbxlx_to_rojo.py: the check after the generation *)

(** The search of [main] for the workspace among the roots:
<<
    for ref_id in game_data['root_instances']:
        instance = game_data['instances'].get(ref_id)
        if instance and instance['class'] == 'Workspace':
            workspace_found = True; workspace_ref = ref_id; break
>>
    with the entry [game_data['instances'][workspace_ref]] it is used for. *)
Definition found_workspace (game_data : GameData) : option (string * Instance) :=
  head (omap (fun ref_id =>
                match dict_get ref_id (instances game_data) with
                | Some instance =>
                    if class instance =? "Workspace" then Some (ref_id, instance) else None
                | None => None
                end) (root_instances game_data)).

(** The check of [main] after the generation:
<<
    workspace_path = output_path / 'src' / 'Workspace'
    if workspace_path.exists() and not any(workspace_path.iterdir()):
        if workspace_found and workspace_ref and \
           len(game_data['instances'][workspace_ref]['children']) > 0:
            for child_ref in workspace_children:
                child = game_data['instances'].get(child_ref)
                if child:
                    rojo_generator._process_instance(child, workspace_path, False)
>> *)
Definition verify_output (game_data : GameData) (fuel : nat) (output_dir : path)
    (st : state) : result state :=
  let workspace_path := path_join (path_join output_dir "src") "Workspace" in
  if FS.exists_ workspace_path (files st) then
    entries ← FS.iterdir workspace_path (files st);
    if negb (nonempty entries) then
      match found_workspace game_data with
      | Some (workspace_ref, instance) =>
          if negb (workspace_ref =? "") && (0 <? length (children instance))%nat then
            run (concat (map (fun child =>
                                _process_instance game_data fuel child workspace_path false)
                           (resolve game_data (children instance)))) st
          else Ok st
      | None => Ok st
      end
    else Ok st
  else Ok st.

(** The body of [main] after the arguments are validated: parse,
    generate, check. *)
Definition main_conversion (stem : string) (root : Element) (fuel : nat)
    (output_dir : path) (st : state) : result state :=
  game_data ← parse stem root;
  st' ← run (generate_project game_data fuel output_dir) st;
  verify_output game_data fuel output_dir st'.

(** * Vocabulary of the statements and sample data *)

(** ** The decoder *)

(** Elements of sample documents: a component, a property. *)
Definition leaf (t : string) (x : option string) : Element :=
  mkElement t [] x None [].
Definition property (t n : string) (x : option string) (cs : list Element) : Element :=
  mkElement t [("name", n)] x None cs.

(** The texts that are ["true"] up to the case of their letters. *)
Definition spells_true (s : string) : Prop :=
  exists c1 c2 c3 c4,
    s = String c1 (String c2 (String c3 (String c4 EmptyString)))
    /\ (c1 = "t" \/ c1 = "T")%char /\ (c2 = "r" \/ c2 = "R")%char
    /\ (c3 = "u" \/ c3 = "U")%char /\ (c4 = "e" \/ c4 = "E")%char.

(** Unfolds the decoder on an element whose tag is known. *)
Ltac decode_by_tag e Htag :=
  destruct e as [t a x tl cs]; simpl in Htag; subst t;
  unfold _extract_property_value; simpl.

(** The colour the decoder returns when a channel is missing. *)
Definition black : pyval := Dict [("R", SInt 0); ("G", SInt 0); ("B", SInt 0)].

(** A colour with an empty blue channel, and one without a blue channel. *)
Definition color_rgb : Element :=
  property "Color3" "Color" None
    [leaf "R" (Some "0.5"); leaf "G" (Some "1"); leaf "B" None].
Definition color_rg : Element :=
  property "Color3" "Color" None [leaf "R" (Some "0.5"); leaf "G" (Some "1")].

(** A transform record as a place file has it. *)
Definition cframe_elem : Element :=
  property "CoordinateFrame" "CFrame" None
    [ leaf "X" (Some "1"); leaf "Y" (Some "2"); leaf "Z" (Some "3");
      leaf "R00" (Some "1"); leaf "R01" (Some "0"); leaf "R02" (Some "0");
      leaf "R10" (Some "0"); leaf "R11" (Some "1"); leaf "R12" (Some "0");
      leaf "R20" (Some "0"); leaf "R21" (Some "0"); leaf "R22" (Some "1") ].

(** ** The parser *)

(** [e] declares the node [k]: an [Item] with the referent [k] and a class,
    neither of them empty. *)
Definition declares (e : Element) (k : string) : Prop :=
  tag e = "Item" /\ Py.or_default (get e "referent") = Some k
  /\ is_Some (Py.or_default (get e "class")).

(** An instance as the first pass creates it. *)
Definition fresh (i : Instance) : Prop := children i = [] /\ parent i = None.

(** The links the second pass makes, in order: [(ref_id, child_ref)] for
    every [Item] element whose referent [ref_id] is a known node and every
    direct [Item] child of it whose referent [child_ref] is one too. *)
Definition known (insts0 : pydict string Instance) (r : option string) : option string :=
  r ≫= fun k => if dict_has k insts0 then Some k else None.

Definition child_link (insts0 : pydict string Instance) (ref_id : string)
    (child_item : Element) : option (string * string) :=
  pair ref_id <$> known insts0 (get child_item "referent").

Definition item_links (insts0 : pydict string Instance) (item_elem : Element)
  : list (string * string) :=
  match known insts0 (get item_elem "referent") with
  | Some ref_id => omap (child_link insts0 ref_id) (findall_children item_elem "Item")
  | None => []
  end.

Definition all_links (insts0 : pydict string Instance) (root : Element)
  : list (string * string) :=
  concat (map (item_links insts0) (findall root "Item")).

Definition children_by (links : list (string * string)) (k : string) : list string :=
  (filter (fun l => l.1 = k) links).*2.
Definition parent_by (links : list (string * string)) (k : string) : option string :=
  last (filter (fun l => l.2 = k) links).*1.

(** The state of the second pass after the links [links] were made. *)
Record linked (insts0 : pydict string Instance) (links : list (string * string))
    (st : pydict string Instance * gset string) : Prop := {
  linked_keys : keys st.1 = keys insts0;
  linked_set : forall y, y ∈ st.2 <-> y ∈ links.*2;
  linked_instance : forall k i, dict_get k st.1 = Some i ->
    children i = children_by links k /\ parent i = parent_by links k
}.

(** The referent of a node-declaring element, when it has one that is not
    empty; the referents of a document are unique when no two of its
    [Item] elements, the root included, have the same. *)
Definition item_referent (e : Element) : option string :=
  if tag e =? "Item" then Py.or_default (get e "referent") else None.

Definition unique_referents (root : Element) : Prop :=
  NoDup (omap item_referent (root :: descendants root)).

(** The pairs of an element and one of its children, over the document. *)
Definition child_pairs (root : Element) : list (Element * Element) :=
  concat (map (fun p => pair p <$> subelements p) (root :: descendants root)).

(** Elements of sample documents: a node-declaring element, the root of
    a document; [parsed] is the result of a parse that succeeds. *)
Definition node (c r : string) (cs : list Element) : Element :=
  mkElement "Item" [("class", c); ("referent", r)] None None cs.
Definition roblox (cs : list Element) : Element :=
  mkElement "roblox" [("version", "4")] None None cs.
Definition parsed (root : Element) : GameData :=
  match parse "place" root with
  | Ok gd => gd
  | Raise _ => mkGameData (Scalar (SStr "")) [] []
  end.

(** Decides a closed proposition by evaluation. *)
Ltac by_evaluation := apply (bool_decide_unpack _); vm_compute; exact I.

(** A workspace with one part. *)
Definition place : Element :=
  roblox [ node "Workspace" "RBX1" [ node "Part" "RBX2" [] ] ].

(** Two elements declare the referent [P]. *)
Definition twins : Element :=
  roblox [ node "Model" "A" [ node "Part" "P" [] ];
           node "Model" "B" [ node "Part" "P" [] ] ].

(** A part inside an [Item] element that has no attributes. *)
Definition orphanage : Element :=
  roblox [ mkElement "Item" [] None None [ node "Part" "P" [] ] ].

(** A part inside an [Item] element that has no class, and the referent
    of a model declared after it. *)
Definition shadowed : Element :=
  roblox [ mkElement "Item" [("referent", "A")] None None [ node "Part" "P" [] ];
           node "Model" "A" [] ].

(** The property elements the second pass hands to the decoder: the
    children of the [Properties] child of an [Item] element whose referent
    is known from the first pass. *)
Definition decoded_in (root prop_elem : Element) : Prop :=
  exists item_elem ref_id properties_elem,
    item_elem ∈ findall root "Item"
    /\ get item_elem "referent" = Some ref_id
    /\ ref_id ∈ keys (first_pass root)
    /\ find item_elem "Properties" = Some properties_elem
    /\ prop_elem ∈ subelements properties_elem.

(** A part whose [Anchored] property has no text. *)
Definition properties_with_empty_bool : Element :=
  mkElement "Properties" [] None None
    [ property "string" "Name" (Some "Baseplate") [];
      property "bool" "Anchored" None [] ].
Definition place_with_empty_bool : Element :=
  roblox [ node "Part" "RBX1" [ properties_with_empty_bool ] ].

(** ** The generator *)

(** Two nodes are both directories or both files. *)
Definition same_kind (n n' : FS.node) : Prop :=
  match n, n' with
  | FS.Dir, FS.Dir => True
  | FS.File _, FS.File _ => True
  | _, _ => False
  end.

(** [f'] has every node of [f], of the same kind; [keeps] also has the
    same contents. *)
Definition extends (f f' : gmap (list string) FS.node) : Prop :=
  forall q n, f !! q = Some n -> exists n', f' !! q = Some n' /\ same_kind n n'.
Definition keeps (f f' : gmap (list string) FS.node) : Prop :=
  forall q n, f !! q = Some n -> f' !! q = Some n.

(** The second run, in step with the first.  [final] is the file system
    the first run ends with, [s] the one the first run has reached and [t]
    the one the second run has reached: [t] is [final], except for the
    files the second run has written again so far, which hold what the
    first run had written to them at that point. *)
Definition replayed (final s t : gmap (list string) FS.node) : Prop :=
  forall q, t !! q = final !! q
            \/ exists c, s !! q = Some (FS.File c) /\ t !! q = Some (FS.File c).

(** The [Properties] child of a node-declaring element. *)
Definition properties_of (l : list Element) : Element :=
  mkElement "Properties" [] None None l.

(** A place with a service, a script that has a child, and a workspace
    with a part. *)
Definition sample_place : Element :=
  roblox
    [ node "ServerScriptService" "RBX1"
        [ properties_of [ property "string" "Name" (Some "ServerScriptService") [] ];
          node "Script" "RBX2"
            [ properties_of
                [ property "string" "Name" (Some "Main") [];
                  property "ProtectedString" "Source" (Some "cHJpbnQoJ2hpJyk=") [] ];
              node "Folder" "RBX3"
                [ properties_of
                    [ property "string" "Name" (Some "Assets") [];
                      property "bool" "Enabled" (Some "true") [] ] ] ] ];
      node "Workspace" "RBX4"
        [ properties_of [ property "string" "Name" (Some "Workspace") [] ];
          node "Part" "RBX5"
            [ properties_of
                [ property "string" "Name" (Some "Baseplate") [];
                  property "bool" "Anchored" (Some "true") [] ] ] ] ].

(** The empty file system, and the state a run of [cmds] ends with (the
    state it started from, when the run raises). *)
Definition empty_disk : state := mkState ∅ ∅.

Definition after (cmds : list command) (st : state) : state :=
  match run cmds st with
  | Ok st' => st'
  | Raise _ => st
  end.

(** Whether a computation returns. *)
Definition succeeds {A} (m : result A) : bool :=
  match m with Ok _ => true | Raise _ => false end.

(** The script [Main] of the sample place, as the parser records it. *)
Definition main_script : Instance :=
  mkInstance "Script" "RBX2"
    [ (Some "Name", Scalar (SStr "Main")); (Some "Source", Scalar (SStr "print('hi')")) ]
    ["RBX3"] (Some "RBX1").

(** The files of the sample place, emitted into [out] on an empty disk. *)
Definition sample_disk : gmap (list string) FS.node :=
  files (after (generate_project (parsed sample_place) 8 ["out"]) empty_disk).

(** ** More vocabulary *)

(** *** Escaping and base64 *)

(** The letter that follows the backslash in the escape of a character,
    for the five characters [escape_lua_string] replaces. *)
Definition escape_letter (c : ascii) : option ascii :=
  if Ascii.eqb c backslash then Some backslash
  else if Ascii.eqb c double_quote then Some double_quote
  else if Ascii.eqb c line_feed then Some "n"%char
  else if Ascii.eqb c carriage_return then Some "r"%char
  else if Ascii.eqb c tab then Some "t"%char
  else None.

Definition escape_char (c : ascii) : string :=
  match escape_letter c with
  | Some x => String backslash (String x "")
  | None => String c ""
  end.

(** A text of two lines with a tab and a quoted word. *)
Definition two_lines : string :=
  String tab ("say " +:+ String double_quote ("hi" +:+ String double_quote
    (String line_feed "end"))).

(** [base64.b64encode], the standard encoding (RFC 4648): the character of
    a 6-bit value, and the encoding of a text three bytes at a time, padded
    with [=]. *)
Definition b64char (n : nat) : ascii :=
  if (n <? 26)%nat then ascii_of_nat (n + 65)
  else if (n <? 52)%nat then ascii_of_nat (n + 71)
  else if (n <? 62)%nat then ascii_of_nat (n - 4)
  else if (n =? 62)%nat then "+"%char
  else "/"%char.

Fixpoint b64encode_bytes (l : list ascii) : list ascii :=
  match l with
  | [] => []
  | [a] =>
      [ b64char (Py.code a / 4); b64char (Py.code a mod 4 * 16); "="%char; "="%char ]
  | [a; b] =>
      [ b64char (Py.code a / 4); b64char (Py.code a mod 4 * 16 + Py.code b / 16);
        b64char (Py.code b mod 16 * 4); "="%char ]
  | a :: b :: c :: rest =>
      b64char (Py.code a / 4) :: b64char (Py.code a mod 4 * 16 + Py.code b / 16)
      :: b64char (Py.code b mod 16 * 4 + Py.code c / 64) :: b64char (Py.code c mod 64)
      :: b64encode_bytes rest
  end.

Definition b64encode (s : string) : string := Py.str (b64encode_bytes (Py.bytes s)).

(** Equations and inequalities of natural numbers with divisions by
    constants. *)
Ltac divmod :=
  intros;
  repeat match goal with
         | |- @eq nat _ _ => apply Nat2Z.inj
         | |- (_ < _)%nat => apply Nat2Z.inj_lt
         | H : (_ < _)%nat |- _ => apply Nat2Z.inj_lt in H
         end;
  repeat (progress (rewrite ?Nat2Z.inj_add, ?Nat2Z.inj_mul, ?Nat2Z.inj_div, ?Nat2Z.inj_mod in * ));
  simpl Z.of_nat in *;
  Z.div_mod_to_equations; lia.

(** *** The decoder and the parser *)

(** The tags whose case of the decoder calls [int], [float], [lower] or
    reads a child's text. *)
Definition converting_tags : list string :=
  [ "int"; "int64"; "float"; "double"; "bool"; "token"; "Color3"; "Color3uint8";
    "Vector2"; "Vector3"; "CFrame"; "CoordinateFrame"; "PhysicalProperties" ].

(** The [Item] elements of the document that carry the referent [ref_id],
    the document's root excluded as in the second pass, and the referents
    of the direct [Item] children of one of them that are nodes of
    [instances]. *)
Definition items_of (root : Element) (ref_id : string) : list Element :=
  filter (fun e => get e "referent" = Some ref_id) (findall root "Item").

Definition child_referents (instances : pydict string Instance) (item_elem : Element)
  : list string :=
  omap (fun c => known instances (get c "referent")) (findall_children item_elem "Item").

(** The property elements of the [Item] elements that carry [ref_id]. *)
Definition property_elements (root : Element) (ref_id : string) : list Element :=
  concat (map (fun e => default [] (subelements <$> find e "Properties")) (items_of root ref_id)).

(** *** The generator *)

(** The path a command creates or writes. *)
Definition target (c : command) : option path :=
  match c with
  | Mkdir p _ _ | WriteText p _ | WriteJson p _ _ => Some p
  | Throw _ => None
  end.

(** The directories of the manifest's [$path] entries, relative to the
    output directory. *)
Definition standard_directories : list path :=
  [ ["src"; "ReplicatedStorage"]; ["src"; "ServerScriptService"]; ["src"; "ServerStorage"];
    ["src"; "StarterGui"]; ["src"; "StarterPack"];
    ["src"; "StarterPlayer"; "StarterPlayerScripts"];
    ["src"; "StarterPlayer"; "StarterCharacterScripts"];
    ["src"; "Workspace"]; ["src"; "Lighting"]; ["src"; "SoundService"];
    ["src"; "ReplicatedFirst"]; ["src"; "Players"]; ["src"; "Chat"];
    ["src"; "LocalizationService"]; ["src"; "TestService"]; ["src"; "MarketplaceService"];
    ["src"; "HttpService"] ].

(** A part of a path that names an entry of a directory: neither the
    parent directory nor the directory itself. *)
Definition plain (part : string) : Prop := part <> ".." /\ part <> ".".

(** The paths below [base] that go down only. *)
Definition below (base p : path) : Prop :=
  exists parts, p = base ++ parts /\ Forall plain parts.

(** No node of the map has [..] as its normalised display name. *)
Definition no_parent_names (game_data : GameData) : Prop :=
  forall k i, dict_get k (instances game_data) = Some i ->
              normalize_name_of (instance_name i) <> Ok "..".

(** The suffixes of the files the generator writes for the nodes. *)
Definition node_file_suffixes : list string :=
  [".meta.json"; ".server.lua"; ".client.lua"; ".lua"].

(** A command that writes a file writes a file of a node: a normalised
    name and one of the suffixes, in some directory. *)
Definition writes_node_file (c : command) : Prop :=
  match c with
  | WriteText p _ | WriteJson p _ _ =>
      exists dir n ext, p = dir ++ [n +:+ ext] /\ ext ∈ node_file_suffixes
  | _ => True
  end.

(** A disk on which the output directory holds a file of the user. *)
Definition used_disk : state :=
  mkState {[ ["out"] := FS.Dir; ["out"; "notes.txt"] := FS.File (FS.Text "keep") ]} ∅.

(** * Properties of the converter *)

(** ** The result monad and the loops *)

Lemma bind_Ok {A B} (m : result A) (k : A -> result B) (b : B) :
  m ≫= k = Ok b -> exists a, m = Ok a /\ k a = Ok b.
Proof. destruct m as [a|e]; simpl; [eauto | discriminate]. Qed.

Lemma for_each_app {A S} (f : S -> A -> result S) (l1 l2 : list A) (st : S) :
  for_each f (l1 ++ l2) st = for_each f l1 st ≫= for_each f l2.
Proof.
  revert st. induction l1 as [|x l1 IH]; intros st; simpl; [reflexivity|].
  destruct (f st x) as [st'|e]; simpl; [apply IH | reflexivity].
Qed.

(** A loop whose body raises on one of the items raises. *)
Lemma for_each_raises {A S} (f : S -> A -> result S) (l : list A) (x : A) (st : S) :
  x ∈ l -> (forall st', raises (f st' x)) -> raises (for_each f l st).
Proof.
  intros Hin Hx. revert st. induction l as [|y l IH]; intros st.
  - inversion Hin.
  - simpl. apply elem_of_cons in Hin as [<-|Hin].
    + destruct (Hx st) as [e ->]. exists e. reflexivity.
    + destruct (f st y) as [st'|e]; simpl; [apply IH, Hin | exists e; reflexivity].
Qed.

(** ** The name normaliser *)

Example normalize_name_replaces : normalize_name "My Part!" = "My Part".
Proof. vm_compute. reflexivity. Qed.

Example normalize_name_fallback : normalize_name "??" = "unnamed".
Proof. vm_compute. reflexivity. Qed.

(** C4.  Normalising is not idempotent.  The name ["_ _a"] keeps its
    characters, [strip('_')] removes the first underscore only, and
    [strip()] the space after it: the result ["_a"] starts with an
    underscore, and normalising it again gives ["a"]. *)
Theorem normalize_name_twice_differs :
  normalize_name "_ _a" = "_a" /\ normalize_name (normalize_name "_ _a") = "a".
Proof. split; vm_compute; reflexivity. Qed.

(** The characters of a normalised name are valid ones; none is a slash. *)
Lemma bytes_str l : Py.bytes (Py.str l) = l.
Proof. apply list_ascii_of_string_of_list_ascii. Qed.

Lemma bytes_append s1 s2 : Py.bytes (s1 +:+ s2) = Py.bytes s1 ++ Py.bytes s2.
Proof. unfold Py.bytes. induction s1 as [|c s1 IH]; simpl; [reflexivity | by rewrite IH]. Qed.

Lemma prefix_bytes needle : forall hay c,
  String.prefix needle hay = true -> c ∈ Py.bytes needle -> c ∈ Py.bytes hay.
Proof.
  induction needle as [|a needle IH]; intros hay c Hp Hc; [inversion Hc|].
  destruct hay as [|b hay]; [discriminate|]. simpl in Hp.
  destruct (ascii_dec a b) as [->|]; [|discriminate].
  unfold Py.bytes in *. simpl in *. apply elem_of_cons in Hc as [->|Hc]; [left|right].
  by apply IH.
Qed.

Lemma contains_bytes hay : forall needle c,
  Py.contains hay needle = true -> c ∈ Py.bytes needle -> c ∈ Py.bytes hay.
Proof.
  induction hay as [|b hay IH]; intros needle c Hc Hin; simpl in Hc.
  - apply orb_prop in Hc as [Hc|Hc]; [by apply (prefix_bytes needle) | discriminate].
  - apply orb_prop in Hc as [Hc|Hc]; [by apply (prefix_bytes needle)|].
    unfold Py.bytes. simpl. right. by apply (IH needle).
Qed.

Lemma lstrip_bytes_subseteq p l c : c ∈ Py.lstrip_bytes p l -> c ∈ l.
Proof.
  induction l as [|a l IH]; simpl; [done|].
  destruct (p a); [intros H; right; by apply IH | done].
Qed.

Lemma strip_bytes_subseteq p l c : c ∈ Py.strip_bytes p l -> c ∈ l.
Proof.
  unfold Py.strip_bytes, Py.rstrip_bytes. intros H.
  apply list_elem_of_In, in_rev, list_elem_of_In, lstrip_bytes_subseteq in H.
  apply list_elem_of_In, in_rev, list_elem_of_In in H.
  by apply lstrip_bytes_subseteq in H.
Qed.

Lemma normalize_items_valid items c :
  c ∈ Py.bytes (normalize_items items) -> c ∈ Py.bytes valid_chars.
Proof.
  unfold normalize_items.
  set (joined := Py.join _).
  assert (forall c, c ∈ Py.bytes joined -> c ∈ Py.bytes valid_chars) as Hjoined.
  { subst joined. induction items as [|i items IH]; intros c'; [inversion 1|].
    cbn [map Py.join foldr].
    rewrite bytes_append, elem_of_app. intros [H|H]; [|by apply IH].
    destruct (Py.contains valid_chars i) eqn:Hi; [by apply (contains_bytes _ i)|].
    apply list_elem_of_singleton in H as ->. by_evaluation. }
  destruct (String.eqb_spec (Py.strip (Py.strip_of "_" joined)) "") as [_|_].
  - revert c. apply Forall_forall. by_evaluation.
  - unfold Py.strip, Py.strip_of. rewrite !bytes_str. intros H.
    apply strip_bytes_subseteq in H. apply strip_bytes_subseteq in H. by apply Hjoined.
Qed.

Lemma split_slash_part s : "/"%char ∉ Py.bytes s -> split_slash s = [s].
Proof.
  unfold Py.bytes. induction s as [|c s IH]; simpl; [reflexivity|].
  rewrite not_elem_of_cons. intros [Hc Hs].
  destruct (Ascii.eqb_spec c "/"); [congruence|]. by rewrite IH.
Qed.

Lemma path_join_part p s :
  "/"%char ∉ Py.bytes s -> s <> "" -> s <> "." -> path_join p s = p ++ [s].
Proof.
  intros Hs He Hd. unfold path_join. rewrite split_slash_part by assumption. simpl.
  apply String.eqb_neq in He, Hd. by rewrite He, Hd.
Qed.

Lemma normalize_name_of_valid v n c :
  normalize_name_of v = Ok n -> c ∈ Py.bytes n -> c ∈ Py.bytes valid_chars.
Proof.
  destruct v as [[s| | |]|d]; try discriminate; intros [= <-]; apply normalize_items_valid.
Qed.

Lemma normalize_items_nonempty items : normalize_items items <> "".
Proof.
  unfold normalize_items.
  destruct (String.eqb_spec (Py.strip (Py.strip_of "_" (Py.join
    (map (fun c => if Py.contains valid_chars c then c else "_") items)))) ""); [discriminate | assumption].
Qed.

Lemma length_append s1 s2 :
  String.length (s1 +:+ s2) = (String.length s1 + String.length s2)%nat.
Proof. induction s1 as [|c s1 IH]; simpl; [reflexivity | by rewrite IH]. Qed.

(** A normalised name followed by an extension is one part of a path: the
    file [path / (n + ext)] is in the directory [path]. *)
Lemma path_join_file p v n ext :
  normalize_name_of v = Ok n -> "/"%char ∉ Py.bytes ext -> (1 < String.length ext)%nat ->
  path_join p (n +:+ ext) = p ++ [n +:+ ext].
Proof.
  intros Hn Hext Hlen. apply path_join_part.
  - rewrite bytes_append, elem_of_app. intros [H|H]; [|contradiction].
    apply (normalize_name_of_valid _ _ _ Hn) in H. revert H. by_evaluation.
  - intros H. apply (f_equal String.length) in H. rewrite length_append in H. simpl in H. lia.
  - intros H. apply (f_equal String.length) in H. rewrite length_append in H. simpl in H. lia.
Qed.

Lemma path_join_directory p v n :
  normalize_name_of v = Ok n -> n <> "." -> path_join p n = p ++ [n].
Proof.
  intros Hn Hdot. apply path_join_part; [|by destruct v as [[| | |]|]; try discriminate;
    injection Hn as <-; apply normalize_items_nonempty | assumption].
  intros H. apply (normalize_name_of_valid _ _ _ Hn) in H. revert H. by_evaluation.
Qed.

(** ** The property decoder *)

(** The letters of ["true"] under [lower]. *)
Lemma lower_char_t c : Py.lower_char c = "t"%char <-> c = "t"%char \/ c = "T"%char.
Proof.
  destruct c as [[] [] [] [] [] [] [] []]; vm_compute;
    (split; [intros H; first [discriminate H | auto] | intros [H|H]; first [discriminate H | reflexivity]]).
Qed.
Lemma lower_char_r c : Py.lower_char c = "r"%char <-> c = "r"%char \/ c = "R"%char.
Proof.
  destruct c as [[] [] [] [] [] [] [] []]; vm_compute;
    (split; [intros H; first [discriminate H | auto] | intros [H|H]; first [discriminate H | reflexivity]]).
Qed.
Lemma lower_char_u c : Py.lower_char c = "u"%char <-> c = "u"%char \/ c = "U"%char.
Proof.
  destruct c as [[] [] [] [] [] [] [] []]; vm_compute;
    (split; [intros H; first [discriminate H | auto] | intros [H|H]; first [discriminate H | reflexivity]]).
Qed.
Lemma lower_char_e c : Py.lower_char c = "e"%char <-> c = "e"%char \/ c = "E"%char.
Proof.
  destruct c as [[] [] [] [] [] [] [] []]; vm_compute;
    (split; [intros H; first [discriminate H | auto] | intros [H|H]; first [discriminate H | reflexivity]]).
Qed.

Lemma lower_true_iff (s : string) : Py.lower s = "true" <-> spells_true s.
Proof.
  unfold Py.lower, Py.bytes, Py.str, spells_true. split.
  - destruct s as [|c1 [|c2 [|c3 [|c4 [|c5 s]]]]]; simpl; try discriminate.
    intros H. injection H as H4 H3 H2 H1.
    exists c1, c2, c3, c4. split; [reflexivity|].
    rewrite <- lower_char_t, <- lower_char_r, <- lower_char_u, <- lower_char_e. auto.
  - intros (c1 & c2 & c3 & c4 & -> & H1 & H2 & H3 & H4). simpl.
    apply lower_char_t in H1. apply lower_char_r in H2.
    apply lower_char_u in H3. apply lower_char_e in H4.
    rewrite H1, H2, H3, H4. reflexivity.
Qed.

(** C5, as the code has it.  A [bool] element with a text decodes to a
    boolean, which is true exactly when the text, as it stands, is
    ["true"] up to the case of its letters; the text is not trimmed. *)
Theorem bool_compares_untrimmed_text (e : Element) (s : string) :
  tag e = "bool" -> text e = Some s ->
  exists b, _extract_property_value e = Ok (Scalar (SBool b))
            /\ (b = true <-> spells_true s).
Proof.
  intros Htag Htext. decode_by_tag e Htag. simpl in Htext. subst x. simpl.
  exists (String.eqb (Py.lower s) "true"). split; [reflexivity|].
  rewrite <- lower_true_iff. apply String.eqb_eq.
Qed.

(** The text ["True"]. *)
Lemma bool_compares_untrimmed_text_witness :
  exists b, _extract_property_value (property "bool" "Anchored" (Some "True") [])
            = Ok (Scalar (SBool b))
            /\ (b = true <-> spells_true "True").
Proof.
  apply (bool_compares_untrimmed_text
           (property "bool" "Anchored" (Some "True") []) "True"); reflexivity.
Defined.

(** C5, as the claim has it, fails: surrounding white space makes the
    text differ from ["true"]. *)
Lemma bool_with_padding_is_false :
  _extract_property_value (property "bool" "Anchored" (Some " true ") [])
  = Ok (Scalar (SBool false)).
Proof. vm_compute. reflexivity. Qed.

Example bool_spellings :
  map (fun s => _extract_property_value (property "bool" "Anchored" (Some s) []))
    ["True"; "TRUE"; "true"; "yes"; ""]
  = [ Ok (Scalar (SBool true)); Ok (Scalar (SBool true)); Ok (Scalar (SBool true));
      Ok (Scalar (SBool false)); Ok (Scalar (SBool false)) ].
Proof. vm_compute. reflexivity. Qed.

(** C6, as the code has it.  With [R], [G] and [B] all present the three
    texts are read as floats (an absent or empty text as [float(0)]);
    with any of them missing the record is all zero. *)
Theorem color3_reads_all_or_nothing (e : Element) :
  tag e = "Color3" \/ tag e = "Color3uint8" ->
  (find e "R" = None \/ find e "G" = None \/ find e "B" = None ->
   _extract_property_value e = Ok black)
  /\ (forall r g b fr fg fb,
        find e "R" = Some r -> find e "G" = Some g -> find e "B" = Some b ->
        float_or_0 (text r) = Ok fr -> float_or_0 (text g) = Ok fg ->
        float_or_0 (text b) = Ok fb ->
        _extract_property_value e
        = Ok (Dict [("R", SFloat fr); ("G", SFloat fg); ("B", SFloat fb)])).
Proof.
  intros Htag. split.
  - intros Hmissing.
    destruct Htag as [Htag|Htag]; decode_by_tag e Htag;
      destruct (find _ "R"), (find _ "G"), (find _ "B"); try reflexivity;
      destruct Hmissing as [H|[H|H]]; discriminate H.
  - intros r g b fr fg fb Hr Hg Hb Hfr Hfg Hfb.
    destruct Htag as [Htag|Htag]; decode_by_tag e Htag;
      rewrite Hr, Hg, Hb, Hfr; simpl; rewrite Hfg; simpl; rewrite Hfb; reflexivity.
Qed.

(** A colour with its three channels, and one without the blue channel. *)
Lemma color3_reads_all_or_nothing_witness :
  _extract_property_value color_rgb
  = Ok (Dict [ ("R", SFloat (float_of_text "0.5")); ("G", SFloat (float_of_text "1"));
               ("B", SFloat (float_of_int 0)) ])
  /\ _extract_property_value color_rg = Ok black.
Proof.
  split.
  - eapply (proj2 (color3_reads_all_or_nothing color_rgb (or_introl eq_refl)));
      reflexivity.
  - apply (proj1 (color3_reads_all_or_nothing color_rg (or_introl eq_refl))).
    right. right. reflexivity.
Defined.

(** C6, as the claim has it, fails: with [B] missing, the [R] and [G] that
    are present do not keep their values 0.5 and 1. *)
Lemma color3_without_blue_is_black :
  _extract_property_value color_rg
  = Ok (Dict [("R", SInt 0); ("G", SInt 0); ("B", SInt 0)]).
Proof. vm_compute. reflexivity. Qed.

(** The sibling case of the vectors defaults each component on its own. *)
Example vector3_without_y :
  _extract_property_value
    (property "Vector3" "Size" None [leaf "X" (Some "4"); leaf "Z" (Some "2")])
  = Ok (Dict [ ("X", SFloat (float_of_text "4")); ("Y", SInt 0);
               ("Z", SFloat (float_of_text "2")) ]).
Proof. vm_compute. reflexivity. Qed.

(** [None] has no attribute [lower]. *)
Lemma bool_without_text_raises (e : Element) :
  tag e = "bool" -> text e = None ->
  _extract_property_value e = Raise AttributeError.
Proof.
  intros Htag Htext. decode_by_tag e Htag. simpl in Htext. subst x. reflexivity.
Qed.

(** C2.  The decoder raises on a [PhysicalProperties] element that has no
    [CustomPhysics] child, where the colour and vector cases test for the
    missing child.  (It also raises on a [bool] without text and on a
    number whose text is malformed.) *)
Theorem physical_properties_without_child_raises :
  _extract_property_value (property "PhysicalProperties" "CustomPhysicalProperties" None [])
  = Raise AttributeError
  /\ _extract_property_value (property "int" "Count" (Some "12abc") []) = Raise ValueError
  /\ _extract_property_value (property "float" "Mass" (Some "heavy") []) = Raise ValueError.
Proof. repeat split; vm_compute; reflexivity. Qed.

(** The base64 cases do recover: they return a string for every text. *)
Lemma base64_text_never_raises (e : Element) :
  tag e = "BinaryString" \/ tag e = "ProtectedString" ->
  _extract_property_value e = Ok (Scalar (SStr (decode_base64_text (text e)))).
Proof.
  intros [Htag|Htag]; decode_by_tag e Htag; reflexivity.
Qed.

Example base64_decodes :
  _extract_property_value (property "ProtectedString" "Source" (Some "cHJpbnQoJ2hpJyk=") [])
  = Ok (Scalar (SStr "print('hi')")).
Proof. vm_compute. reflexivity. Qed.

Example base64_falls_back :
  _extract_property_value (property "ProtectedString" "Source" (Some "print('hi')") [])
  = Ok (Scalar (SStr "print('hi')")).
Proof. vm_compute. reflexivity. Qed.

(** ** The metadata sidecar *)

(** A dict with the keys [X], [Y] and [Z] is flattened by the colour case
    or by the [Vector3] case, whatever else it holds: the case of the
    transform records, tried after them, is never reached. *)
Lemma transform_case_is_unreachable (d : pydict string scalar) :
  dict_has "X" d && dict_has "Y" d && dict_has "Z" d && dict_has "R00" d = true ->
  exists a b c, meta_value (Dict d) = JList [a; b; c].
Proof.
  intros H. apply andb_prop in H as [H _].
  apply andb_prop in H as [H HZ]. apply andb_prop in H as [HX HY].
  unfold meta_value. destruct (has_all ["R"; "G"; "B"] d); [eauto|].
  unfold has_all at 1. simpl. rewrite HX, HY, HZ. simpl. eauto.
Qed.

(** C1.  The sidecar of a node whose [CFrame] property decodes to a
    transform record with [X], [Y], [Z] and [R00] to [R22] holds the three
    position components only, not the twelve of the claim. *)
Theorem cframe_sidecar_holds_position_only :
  (v ← _extract_property_value cframe_elem; meta_properties [(Some "CFrame", v)])
  = Ok [ ("CFrame",
          JList [ JScalar (SFloat (float_of_text "1"));
                  JScalar (SFloat (float_of_text "2"));
                  JScalar (SFloat (float_of_text "3")) ]) ].
Proof. vm_compute. reflexivity. Qed.

(** ** Dictionaries *)

Section DictFacts.
Context {K V : Type} `{EqDecision K}.
Implicit Types (d : pydict K V) (k : K) (v : V).

Lemma dict_has_keys k d : dict_has k d = true <-> k ∈ keys d.
Proof.
  unfold dict_has, keys. rewrite bool_decide_eq_true.
  induction d as [|[k' v'] d IH]; simpl.
  - split; [intros [? ?]; discriminate | intros H; inversion H].
  - rewrite elem_of_cons. destruct (decide (k = k')) as [->|Hne].
    + split; eauto.
    + rewrite IH. split; [auto | intros [?|?]; [contradiction | assumption]].
Qed.

Lemma dict_get_keys k d : is_Some (dict_get k d) <-> k ∈ keys d.
Proof. rewrite <- dict_has_keys. unfold dict_has. by rewrite bool_decide_eq_true. Qed.

Lemma keys_dict_update k (f : V -> V) d : keys (dict_update k f d) = keys d.
Proof.
  unfold keys. induction d as [|[k' v'] d IH]; simpl; [reflexivity|].
  destruct (decide (k = k')); simpl; [reflexivity | f_equal; apply IH].
Qed.

Lemma dict_get_update k k' (f : V -> V) d :
  dict_get k' (dict_update k f d)
  = if decide (k' = k) then f <$> dict_get k' d else dict_get k' d.
Proof.
  induction d as [|[k0 v0] d IH]; simpl.
  - by destruct (decide (k' = k)).
  - destruct (decide (k = k0)) as [->|Hne]; simpl.
    + destruct (decide (k' = k0)); simpl; reflexivity.
    + destruct (decide (k' = k0)) as [->|Hne'].
      * destruct (decide (k0 = k)); [congruence | reflexivity].
      * apply IH.
Qed.

Lemma dict_has_update k k' (f : V -> V) d :
  dict_has k' (dict_update k f d) = dict_has k' d.
Proof.
  apply eq_true_iff_eq. rewrite !dict_has_keys, keys_dict_update. reflexivity.
Qed.

Lemma keys_dict_set k v d :
  keys (dict_set k v d) = if decide (k ∈ keys d) then keys d else keys d ++ [k].
Proof.
  unfold keys. induction d as [|[k' v'] d IH]; [reflexivity|].
  simpl dict_set. destruct (decide (k = k')) as [->|Hne]; rewrite !fmap_cons; simpl fst.
  - rewrite decide_True by left. reflexivity.
  - rewrite IH. destruct (decide (k ∈ d.*1)) as [Hin|Hnin].
    + rewrite decide_True by (by right). reflexivity.
    + rewrite decide_False; [reflexivity|].
      rewrite elem_of_cons. intros [?|?]; contradiction.
Qed.

Lemma dict_get_set k k' v d :
  dict_get k' (dict_set k v d) = if decide (k' = k) then Some v else dict_get k' d.
Proof.
  induction d as [|[k0 v0] d IH]; simpl.
  - destruct (decide (k' = k)); reflexivity.
  - destruct (decide (k = k0)) as [->|Hne]; simpl.
    + destruct (decide (k' = k0)); reflexivity.
    + destruct (decide (k' = k0)) as [->|Hne'].
      * destruct (decide (k0 = k)); [congruence | reflexivity].
      * apply IH.
Qed.
End DictFacts.

(** ** The document tree *)

(** Induction over a document: a property holds of an element when it
    holds of its children. *)
Lemma Element_forall_ind (P : Element -> Prop) :
  (forall t a x tl cs, Forall P cs -> P (mkElement t a x tl cs)) ->
  forall e, P e.
Proof.
  intros step. fix IH 1. intros [t a x tl cs]. apply step.
  revert cs. fix IHcs 1. intros [|c cs]; constructor; [apply IH | apply IHcs].
Qed.

Lemma descendants_unfold (e : Element) :
  descendants e = concat (map (fun c => c :: descendants c) (subelements e)).
Proof. destruct e; reflexivity. Qed.

Lemma end_events_unfold (e : Element) :
  end_events e = concat (map end_events (subelements e)) ++ [e].
Proof. destruct e; reflexivity. Qed.

Lemma elem_of_concat_map {A B} (f : A -> list B) (l : list A) (y : B) :
  y ∈ concat (map f l) <-> exists x, x ∈ l /\ y ∈ f x.
Proof.
  rewrite list_elem_of_In, in_concat. split.
  - intros (ys & Hys & Hy). apply in_map_iff in Hys as (x & <- & Hx).
    exists x. by rewrite !list_elem_of_In.
  - intros (x & Hx & Hy). exists (f x). rewrite in_map_iff.
    split; [exists x; by rewrite <- list_elem_of_In | by rewrite <- list_elem_of_In].
Qed.

(** The [end] events are the root and its descendants. *)
Lemma elem_of_end_events (e x : Element) :
  x ∈ end_events e <-> x = e \/ x ∈ descendants e.
Proof.
  revert x. induction e as [t a tx tl cs IH] using Element_forall_ind. intros x.
  rewrite end_events_unfold, descendants_unfold. simpl subelements.
  rewrite elem_of_app, list_elem_of_singleton, !elem_of_concat_map.
  rewrite Forall_forall in IH. split.
  - intros [(c & Hc & Hx)|Hx]; [right | by left].
    exists c. split; [assumption|]. rewrite elem_of_cons.
    apply IH in Hx; assumption.
  - intros [Hx|(c & Hc & Hx)]; [by right | left].
    exists c. split; [assumption|]. apply IH; [assumption|].
    by apply elem_of_cons in Hx.
Qed.

(** Every descendant is the child of exactly one element among the root
    and its descendants. *)
Lemma concat_cons_Permutation {A} (g : A -> list A) (l : list A) :
  l ++ concat (map g l) ≡ₚ concat (map (fun c => c :: g c) l).
Proof.
  induction l as [|c l IH]; simpl; [reflexivity|].
  constructor. rewrite <- IH.
  rewrite (app_assoc l), (app_assoc (g c)).
  apply Permutation_app_tail, Permutation_app_comm.
Qed.

Lemma children_of_all_Permutation (e : Element) :
  concat (map subelements (e :: descendants e)) ≡ₚ descendants e.
Proof.
  induction e as [t a tx tl cs IH] using Element_forall_ind.
  rewrite (descendants_unfold (mkElement t a tx tl cs)). simpl subelements.
  rewrite <- concat_cons_Permutation. simpl. apply Permutation_app_head.
  induction IH as [|c cs Hc _ IHcs]; simpl; [reflexivity|].
  simpl in Hc. rewrite !map_app, !concat_app in *.
  etransitivity; [|exact (Permutation_app Hc IHcs)].
  rewrite <- !app_assoc. apply Permutation_app_head.
  rewrite !app_assoc. apply Permutation_app_tail, Permutation_app_comm.
Qed.

(** ** The first pass *)

Lemma or_default_Some (t : option string) (s : string) :
  Py.or_default t = Some s <-> t = Some s /\ s <> "".
Proof.
  unfold Py.or_default. destruct t as [s'|]; [|split; [discriminate | intros [? _]; discriminate]].
  destruct (String.eqb_spec s' ""); split.
  - discriminate.
  - intros [[= ->] ?]. contradiction.
  - intros [= ->]. auto.
  - intros [[= ->] _]. reflexivity.
Qed.

Lemma first_pass_step_keys insts e k :
  k ∈ keys (first_pass_step insts e) <-> k ∈ keys insts \/ declares e k.
Proof.
  unfold first_pass_step, declares.
  destruct (String.eqb_spec (tag e) "Item") as [Htag|Htag];
    [|split; [auto | intros [?|[? _]]; [assumption | contradiction]]].
  destruct (Py.or_default (get e "referent")) as [r|];
    [|split; [auto | intros [?|(_ & ? & _)]; [assumption | discriminate]]].
  destruct (Py.or_default (get e "class")) as [c|].
  - rewrite keys_dict_set. destruct (decide (r ∈ keys insts)).
    + split; [auto | intros [?|(_ & [= <-] & _)]; assumption].
    + rewrite elem_of_app, list_elem_of_singleton. split.
      * intros [?| ->]; [by left | right; eauto].
      * intros [?|(_ & [= <-] & _)]; auto.
  - split; [auto | intros [?|(_ & _ & [? ?])]; [assumption | discriminate]].
Qed.

Lemma first_pass_keys root k :
  k ∈ keys (first_pass root) <-> exists e, e ∈ end_events root /\ declares e k.
Proof.
  unfold first_pass.
  assert (forall l acc, k ∈ keys (fold_left first_pass_step l acc)
                        <-> k ∈ keys acc \/ exists e, e ∈ l /\ declares e k) as H.
  { induction l as [|e l IH]; intros acc; simpl.
    - split; [auto | intros [?|(e & He & _)]; [assumption | inversion He]].
    - rewrite IH, first_pass_step_keys. split.
      + intros [[?|?]|(e' & ? & ?)]; [by left | right | right].
        * exists e. split; [left | assumption].
        * exists e'. split; [by right | assumption].
      + intros [?|(e' & He' & ?)]; [by left; left|].
        apply elem_of_cons in He' as [->|?]; [left; by right | right; eauto]. }
  rewrite H. split; [intros [Hk|?]; [inversion Hk | assumption] | auto].
Qed.

Lemma first_pass_fresh root k i : dict_get k (first_pass root) = Some i -> fresh i.
Proof.
  unfold first_pass.
  assert (forall l acc, (forall k i, dict_get k acc = Some i -> fresh i) ->
                        forall k i, dict_get k (fold_left first_pass_step l acc) = Some i ->
                                    fresh i) as H.
  { induction l as [|e l IH]; intros acc Hacc; simpl; [exact Hacc|].
    apply IH. intros k' i'. unfold first_pass_step.
    destruct (tag e =? "Item"); [|apply Hacc].
    destruct (Py.or_default (get e "referent")) as [r|]; [|apply Hacc].
    destruct (Py.or_default (get e "class")) as [c|]; [|apply Hacc].
    rewrite dict_get_set. destruct (decide (k' = r)); [|apply Hacc].
    intros [= <-]. split; reflexivity. }
  apply (H _ []). intros ? ? [=].
Qed.

(** A key of the first pass is not the empty string. *)
Lemma first_pass_key_nonempty root k : k ∈ keys (first_pass root) -> k <> "".
Proof.
  rewrite first_pass_keys. intros (e & _ & _ & Hk & _).
  apply or_default_Some in Hk as [_ ?]. assumption.
Qed.

(** ** The second pass *)

Lemma children_by_snoc links r y k :
  children_by (links ++ [(r, y)]) k
  = children_by links k ++ (if decide (k = r) then [y] else []).
Proof.
  unfold children_by. rewrite filter_app, fmap_app. f_equal.
  rewrite filter_cons. simpl.
  destruct (decide (r = k)) as [->|Hne].
  - rewrite decide_True by reflexivity. reflexivity.
  - rewrite decide_False by congruence. reflexivity.
Qed.

Lemma parent_by_snoc links r y k :
  parent_by (links ++ [(r, y)]) k
  = if decide (k = y) then Some r else parent_by links k.
Proof.
  unfold parent_by. rewrite filter_app, fmap_app, filter_cons. simpl.
  destruct (decide (y = k)) as [->|Hne].
  - rewrite decide_True by reflexivity. simpl. apply last_snoc.
  - rewrite decide_False by congruence. simpl. by rewrite app_nil_r.
Qed.

Lemma linked_init insts0 :
  (forall k i, dict_get k insts0 = Some i -> fresh i) -> linked insts0 [] (insts0, ∅).
Proof.
  intros Hfresh. split; simpl.
  - reflexivity.
  - intros y. split; [intros H; by apply not_elem_of_empty in H | intros H; inversion H].
  - intros k i Hi. apply Hfresh in Hi as [-> ->]. split; reflexivity.
Qed.

Lemma linked_has insts0 links st k :
  linked insts0 links st -> dict_has k st.1 = dict_has k insts0.
Proof.
  intros H. apply eq_true_iff_eq. rewrite !dict_has_keys, (linked_keys _ _ _ H). reflexivity.
Qed.

Lemma link_child_linked insts0 links st ref_id child_item :
  linked insts0 links st ->
  linked insts0 (links ++ option_list (child_link insts0 ref_id child_item))
    (link_child ref_id st child_item).
Proof.
  intros H. unfold link_child, child_link, known.
  destruct (get child_item "referent") as [y|]; simpl; [|by rewrite app_nil_r].
  rewrite (linked_has _ _ _ y H).
  destruct (dict_has y insts0); simpl; [|by rewrite app_nil_r].
  destruct H as [Hkeys Hset Hinst]. split; simpl.
  - by rewrite !keys_dict_update.
  - intros y'. rewrite elem_of_union, elem_of_singleton, fmap_app, elem_of_app.
    simpl. rewrite list_elem_of_singleton, Hset. tauto.
  - intros k i. rewrite !dict_get_update, children_by_snoc, parent_by_snoc.
    destruct (dict_get k st.1) as [i0|] eqn:Hi0;
      [|by destruct (decide (k = y)), (decide (k = ref_id))].
    destruct (Hinst _ _ Hi0) as [Hc Hp].
    destruct (decide (k = y)), (decide (k = ref_id)); simpl; intros [= <-]; simpl;
      rewrite Hc, ?Hp, ?app_nil_r; split; reflexivity.
Qed.

Lemma fold_link_child_linked insts0 ref_id cs : forall links st,
  linked insts0 links st ->
  linked insts0 (links ++ omap (child_link insts0 ref_id) cs)
    (fold_left (link_child ref_id) cs st).
Proof.
  induction cs as [|c cs IH]; intros links st H; simpl.
  - by rewrite app_nil_r.
  - apply (link_child_linked _ _ _ ref_id c) in H. apply IH in H.
    destruct (child_link insts0 ref_id c); simpl in *.
    + by rewrite <- app_assoc in H.
    + by rewrite app_nil_r in H.
Qed.

Lemma extract_properties_linked insts0 links ref_id item_elem insts insts' cs :
  extract_properties ref_id item_elem insts = Ok insts' ->
  linked insts0 links (insts, cs) -> linked insts0 links (insts', cs).
Proof.
  unfold extract_properties. destruct (find item_elem "Properties") as [pe|];
    [|by intros [= <-]].
  generalize (subelements pe). intros l. revert insts.
  induction l as [|p l IH]; intros insts; simpl; [by intros [= <-]|].
  destruct (_extract_property_value p) as [v|]; simpl; [|discriminate].
  intros Hrest H. apply (IH _ Hrest). clear IH Hrest.
  destruct H as [Hkeys Hset Hinst]. split; simpl in *.
  - by rewrite keys_dict_update.
  - exact Hset.
  - intros k i. rewrite dict_get_update. destruct (decide (k = ref_id)); [|apply Hinst].
    destruct (dict_get k insts) as [i0|] eqn:Hi0; simpl; [|discriminate].
    intros [= <-]. simpl. by apply Hinst.
Qed.

Lemma second_pass_step_linked insts0 links st st' item_elem :
  second_pass_step st item_elem = Ok st' ->
  linked insts0 links st ->
  linked insts0 (links ++ item_links insts0 item_elem) st'.
Proof.
  unfold second_pass_step, item_links, known. intros Hstep H.
  destruct (get item_elem "referent") as [r|]; simpl in *;
    [|injection Hstep as <-; by rewrite app_nil_r].
  rewrite (linked_has _ _ _ r H) in Hstep.
  destruct (dict_has r insts0); [|injection Hstep as <-; by rewrite app_nil_r].
  apply bind_Ok in Hstep as (insts' & Hprops & [= <-]).
  apply fold_link_child_linked.
  destruct st as [insts cs]. by apply (extract_properties_linked _ _ _ _ _ _ _ Hprops).
Qed.

Lemma second_pass_linked root insts0 st :
  (forall k i, dict_get k insts0 = Some i -> fresh i) ->
  second_pass root insts0 = Ok st ->
  linked insts0 (all_links insts0 root) st.
Proof.
  intros Hfresh. unfold second_pass, all_links.
  apply linked_init in Hfresh. revert Hfresh.
  change (all_links insts0 root) with (all_links insts0 root).
  generalize (findall root "Item"). intros l.
  assert (forall links st0, linked insts0 links st0 ->
            for_each second_pass_step l st0 = Ok st ->
            linked insts0 (links ++ concat (map (item_links insts0) l)) st) as H.
  { induction l as [|e l IH]; intros links st0 H0; simpl.
    - intros [= <-]. by rewrite app_nil_r.
    - intros Hrun. apply bind_Ok in Hrun as (st1 & Hstep & Hrun).
      apply (second_pass_step_linked _ _ _ _ _ Hstep) in H0.
      apply (IH _ _ H0) in Hrun. by rewrite <- app_assoc in Hrun. }
  intros H0. apply (H [] _ H0).
Qed.

(** ** Documents whose referents are unique *)

Lemma child_pairs_snd root : (child_pairs root).*2 ≡ₚ descendants root.
Proof.
  rewrite <- children_of_all_Permutation. unfold child_pairs.
  generalize (root :: descendants root). intros l.
  induction l as [|p l IH]; simpl; [reflexivity|].
  rewrite fmap_app, IH. apply Permutation_app_tail.
  rewrite <- list_fmap_compose. simpl. by rewrite list_fmap_id.
Qed.

Lemma elem_of_child_pairs root p c :
  (p, c) ∈ child_pairs root <-> (p = root \/ p ∈ descendants root) /\ c ∈ subelements p.
Proof.
  unfold child_pairs. rewrite elem_of_concat_map. setoid_rewrite elem_of_cons. split.
  - intros (p' & Hp' & Hc). apply list_elem_of_fmap in Hc as (c' & [= -> ->] & Hc).
    auto.
  - intros [Hp Hc]. exists p. split; [assumption|].
    apply list_elem_of_fmap. eauto.
Qed.

Lemma omap_NoDup_inj {A B} (h : A -> option B) (l : list A) (x y : A) (v : B) :
  NoDup (omap h l) -> x ∈ l -> y ∈ l -> h x = Some v -> h y = Some v -> x = y.
Proof.
  induction l as [|a l IH]; intros Hnd Hx Hy Hhx Hhy; [inversion Hx|].
  assert (forall z, z ∈ l -> h z = Some v -> v ∈ omap h l) as Hin.
  { intros z Hz Hhz. apply list_elem_of_omap. eauto. }
  simpl in Hnd. apply elem_of_cons in Hx as [->|Hx], Hy as [->|Hy].
  - reflexivity.
  - rewrite Hhx in Hnd. apply NoDup_cons in Hnd as [Hnin _].
    destruct Hnin. by apply (Hin y).
  - rewrite Hhy in Hnd. apply NoDup_cons in Hnd as [Hnin _].
    destruct Hnin. by apply (Hin x).
  - apply IH; try assumption.
    destruct (h a); [by apply NoDup_cons in Hnd as [_ ?] | assumption].
Qed.

Lemma omap_fmap_compose {A B C} (g : A -> B) (h : B -> option C) (l : list A) :
  omap h (g <$> l) = omap (h ∘ g) l.
Proof.
  induction l as [|a l IH]; [reflexivity|].
  csimpl. rewrite IH. reflexivity.
Qed.

(** With unique referents, a referent names one child of one parent. *)
Lemma unique_child_pair root p1 c1 p2 c2 y :
  unique_referents root ->
  (p1, c1) ∈ child_pairs root -> (p2, c2) ∈ child_pairs root ->
  item_referent c1 = Some y -> item_referent c2 = Some y ->
  (p1, c1) = (p2, c2).
Proof.
  unfold unique_referents. intros Hnd H1 H2 Hy1 Hy2.
  assert (NoDup (omap item_referent (descendants root))) as Hnd'.
  { simpl in Hnd. destruct (item_referent root);
      [by apply NoDup_cons in Hnd as [_ ?] | assumption]. }
  rewrite <- child_pairs_snd, omap_fmap_compose in Hnd'.
  by apply (omap_NoDup_inj _ _ _ _ y Hnd').
Qed.

(** Where a link comes from. *)
Lemma elem_of_all_links insts0 root r y :
  (r, y) ∈ all_links insts0 root ->
  exists e c, (e, c) ∈ child_pairs root /\ tag e = "Item" /\ tag c = "Item"
              /\ get e "referent" = Some r /\ dict_has r insts0 = true
              /\ get c "referent" = Some y /\ dict_has y insts0 = true.
Proof.
  unfold all_links, findall. rewrite elem_of_concat_map.
  intros (e & He & Hl). apply list_elem_of_filter in He as [Htag He].
  unfold item_links, known in Hl.
  destruct (get e "referent") as [r'|] eqn:Hr; simpl in Hl; [|inversion Hl].
  destruct (dict_has r' insts0) eqn:Hhas; [|inversion Hl].
  apply list_elem_of_omap in Hl as (c & Hc & Hl).
  unfold findall_children in Hc. apply list_elem_of_filter in Hc as [Htagc Hc].
  unfold child_link, known in Hl.
  destruct (get c "referent") as [y'|] eqn:Hy; simpl in Hl; [|discriminate].
  destruct (dict_has y' insts0) eqn:Hhasy; simpl in Hl; [|discriminate].
  injection Hl as <- <-. exists e, c.
  rewrite elem_of_child_pairs. auto 10.
Qed.

Lemma elem_of_all_links_2 insts0 root e c r y :
  e ∈ findall root "Item" -> c ∈ findall_children e "Item" ->
  get e "referent" = Some r -> dict_has r insts0 = true ->
  get c "referent" = Some y -> dict_has y insts0 = true ->
  (r, y) ∈ all_links insts0 root.
Proof.
  intros He Hc Hr Hhr Hy Hhy. unfold all_links. rewrite elem_of_concat_map.
  exists e. split; [assumption|]. unfold item_links, known. rewrite Hr. simpl.
  rewrite Hhr. apply list_elem_of_omap. exists c. split; [assumption|].
  unfold child_link, known. rewrite Hy. simpl. rewrite Hhy. reflexivity.
Qed.

(** A known referent is the referent of the element as [item_referent]
    reads it. *)
Lemma known_item_referent root c y :
  tag c = "Item" -> get c "referent" = Some y -> dict_has y (first_pass root) = true ->
  item_referent c = Some y.
Proof.
  intros Htag Hy Hhas. unfold item_referent. rewrite Htag. simpl.
  apply or_default_Some. split; [assumption|].
  apply (first_pass_key_nonempty root). by apply dict_has_keys.
Qed.

(** With unique referents, all links to a child come from one parent. *)
Lemma unique_parent_link root r1 r2 y :
  unique_referents root ->
  (r1, y) ∈ all_links (first_pass root) root ->
  (r2, y) ∈ all_links (first_pass root) root ->
  r1 = r2.
Proof.
  intros Hu H1 H2.
  apply elem_of_all_links in H1 as (e1 & c1 & Hp1 & _ & Ht1 & Hr1 & _ & Hy1 & Hh1).
  apply elem_of_all_links in H2 as (e2 & c2 & Hp2 & _ & Ht2 & Hr2 & _ & Hy2 & Hh2).
  assert ((e1, c1) = (e2, c2)) as [= -> ->].
  { apply (unique_child_pair root _ _ _ _ y); eauto using known_item_referent. }
  congruence.
Qed.

(** What the links say about the lists of children and the parents. *)
Lemma elem_of_children_by links k y : y ∈ children_by links k <-> (k, y) ∈ links.
Proof.
  unfold children_by. rewrite list_elem_of_fmap. split.
  - intros ([r y'] & -> & H). apply list_elem_of_filter in H as [<- H]. exact H.
  - intros H. exists (k, y). split; [reflexivity|]. by apply list_elem_of_filter.
Qed.

Lemma parent_by_Some links y r : parent_by links y = Some r -> (r, y) ∈ links.
Proof.
  unfold parent_by. intros H. rewrite fmap_last in H.
  destruct (last (filter _ links)) as [[r' y']|] eqn:Hlast; [|discriminate].
  injection H as <-. apply last_Some_elem_of in Hlast.
  apply list_elem_of_filter in Hlast as [<- H]. exact H.
Qed.

Lemma parent_by_None links y r : parent_by links y = None -> (r, y) ∉ links.
Proof.
  unfold parent_by. intros H Hin. rewrite fmap_last in H.
  assert ((r, y) ∈ filter (fun l => l.2 = y) links) as Hf by by apply list_elem_of_filter.
  destruct (filter _ links) as [|l ls] eqn:Hfl; [inversion Hf|].
  destruct (last_is_Some (l :: ls)) as [_ [? Hsome]]; [done|]. by rewrite Hsome in H.
Qed.

(** ** The parse result *)

Lemma parse_linked stem root gd :
  parse stem root = Ok gd ->
  exists child_instances,
    linked (first_pass root) (all_links (first_pass root) root)
      (instances gd, child_instances)
    /\ root_instances gd = find_roots (instances gd) child_instances.
Proof.
  unfold parse. intros H. apply bind_Ok in H as ([insts cs] & Hpass & [= <-]).
  exists cs. split; [|reflexivity].
  apply second_pass_linked; [apply first_pass_fresh | exact Hpass].
Qed.

Lemma child_is_descendant root p c :
  p ∈ end_events root -> c ∈ subelements p -> c ∈ descendants root.
Proof.
  intros Hp Hc. apply elem_of_end_events in Hp.
  rewrite <- child_pairs_snd. apply list_elem_of_fmap. exists (p, c).
  split; [reflexivity|]. by apply elem_of_child_pairs.
Qed.

Lemma dict_get_elem_of {K V} `{EqDecision K} (k : K) (v : V) (d : pydict K V) :
  dict_get k d = Some v -> (k, v) ∈ d.
Proof.
  induction d as [|[k' v'] d IH]; simpl; [discriminate|].
  destruct (decide (k = k')) as [->|_].
  - intros [= ->]. left.
  - intros H. right. by apply IH.
Qed.

Lemma elem_of_find_roots insts cs k i :
  dict_get k insts = Some i -> k ∉ cs -> parent i = None -> k ∈ find_roots insts cs.
Proof.
  intros Hi Hk Hp. unfold find_roots. apply list_elem_of_fmap. exists (k, i).
  split; [reflexivity|]. apply list_elem_of_In, filter_In.
  split; [by apply list_elem_of_In, dict_get_elem_of|].
  unfold is_root. simpl. rewrite Hp.
  rewrite bool_decide_eq_true_2 by assumption. reflexivity.
Qed.

(** C7, as the code has it.  In the node map of a successful parse every
    child id is a key of the map; when the referents of the document are
    unique, the node it names has the containing node as its parent. *)
Theorem children_resolve_and_point_back stem root gd ref_id instance child_ref :
  parse stem root = Ok gd ->
  dict_get ref_id (instances gd) = Some instance ->
  child_ref ∈ children instance ->
  child_ref ∈ keys (instances gd)
  /\ (unique_referents root ->
      exists child, dict_get child_ref (instances gd) = Some child
                    /\ parent child = Some ref_id).
Proof.
  intros Hparse Hget Hchild.
  apply parse_linked in Hparse as (cs & [Hkeys Hset Hinst] & _). simpl in *.
  destruct (Hinst _ _ Hget) as [Hc _]. rewrite Hc in Hchild.
  apply elem_of_children_by in Hchild.
  assert (child_ref ∈ keys (instances gd)) as Hkey.
  { rewrite Hkeys. apply dict_has_keys.
    apply elem_of_all_links in Hchild as (_ & _ & _ & _ & _ & _ & _ & _ & ?).
    assumption. }
  split; [exact Hkey|]. intros Hunique.
  apply dict_get_keys in Hkey as [child Hchild_get]. exists child.
  split; [exact Hchild_get|].
  destruct (Hinst _ _ Hchild_get) as [_ Hp]. rewrite Hp.
  destruct (parent_by _ child_ref) as [r|] eqn:Hby.
  - apply parent_by_Some in Hby. f_equal.
    exact (unique_parent_link root _ _ _ Hunique Hby Hchild).
  - by apply (parent_by_None _ _ ref_id) in Hby.
Qed.

(** C10, as the code has it.  In a document with unique referents, a
    node-declaring child of an [Item] element that the first pass skipped
    ends the parse without a parent, in no list of children, and among the
    roots. *)
Theorem children_of_skipped_items_become_roots stem root gd skipped child child_ref :
  parse stem root = Ok gd ->
  unique_referents root ->
  skipped ∈ end_events root -> tag skipped = "Item" ->
  Py.or_default (get skipped "referent") = None
    \/ Py.or_default (get skipped "class") = None ->
  child ∈ findall_children skipped "Item" -> declares child child_ref ->
  (exists instance, dict_get child_ref (instances gd) = Some instance
                    /\ parent instance = None)
  /\ (forall ref_id instance, dict_get ref_id (instances gd) = Some instance ->
                              child_ref ∉ children instance)
  /\ child_ref ∈ root_instances gd.
Proof.
  intros Hparse Hunique Hskipped Htag Hlacks Hchild Hdecl.
  apply parse_linked in Hparse as (cs & [Hkeys Hset Hinst] & Hroots). simpl in *.
  apply list_elem_of_filter in Hchild as [_ Hchild].
  pose proof (child_is_descendant _ _ _ Hskipped Hchild) as Hdesc.
  assert (child_ref ∈ keys (first_pass root)) as Hkey.
  { apply first_pass_keys. exists child. split; [|assumption].
    apply elem_of_end_events. by right. }
  assert (forall r, (r, child_ref) ∉ all_links (first_pass root) root) as Hnolink.
  { intros r Hlink.
    apply elem_of_all_links in Hlink as (e & c & Hpair & _ & Htc & Hr & Hhr & Hy & Hhy).
    assert ((e, c) = (skipped, child)) as [= -> ->].
    { apply (unique_child_pair root _ _ _ _ child_ref Hunique Hpair).
      - apply elem_of_child_pairs. split; [by apply elem_of_end_events | assumption].
      - by apply (known_item_referent root).
      - destruct Hdecl as (Ht & Href & _). unfold item_referent. by rewrite Ht. }
    pose proof (known_item_referent root skipped r Htag Hr Hhr) as Hsk.
    apply dict_has_keys, first_pass_keys in Hhr as (e' & He' & Hte' & Hre' & Hce').
    assert (e' = skipped) as ->.
    { apply (omap_NoDup_inj item_referent (root :: descendants root) _ _ r Hunique).
      - apply elem_of_cons. by apply elem_of_end_events.
      - apply elem_of_cons. by apply elem_of_end_events.
      - unfold item_referent. by rewrite Hte'.
      - exact Hsk. }
    destruct Hlacks as [Hl|Hl]; [congruence|].
    rewrite Hl in Hce'. by destruct Hce'. }
  rewrite <- Hkeys in Hkey. apply dict_get_keys in Hkey as [i Hi].
  assert (parent i = None) as Hparent.
  { destruct (Hinst _ _ Hi) as [_ ->].
    destruct (parent_by _ child_ref) as [r|] eqn:Hby; [|reflexivity].
    apply parent_by_Some in Hby. by destruct (Hnolink r). }
  split; [eauto|]. split.
  - intros r i' Hi' Hin. destruct (Hinst _ _ Hi') as [Hc _].
    rewrite Hc in Hin. apply elem_of_children_by in Hin. by destruct (Hnolink r).
  - rewrite Hroots. apply (elem_of_find_roots _ _ _ i); [assumption | | assumption].
    rewrite Hset. intros Hin. apply list_elem_of_fmap in Hin as ([r y] & -> & Hin).
    by destruct (Hnolink r).
Qed.

(** The part of the sample workspace. *)
Lemma children_resolve_and_point_back_witness :
  "RBX2" ∈ keys (instances (parsed place))
  /\ exists child, dict_get "RBX2" (instances (parsed place)) = Some child
                   /\ parent child = Some "RBX1".
Proof.
  destruct (children_resolve_and_point_back "place" place (parsed place) "RBX1"
              (mkInstance "Workspace" "RBX1" [] ["RBX2"] None) "RBX2") as [Hkey Hback].
  - vm_compute. reflexivity.
  - vm_compute. reflexivity.
  - simpl. apply elem_of_cons. left. reflexivity.
  - split; [exact Hkey|]. apply Hback. unfold unique_referents. by_evaluation.
Defined.

(** C7, as the claim has it, fails on a document in which two elements
    declare the same referent [P]: the node [A] lists [P] as a child, and
    the parent of [P] is [B]. *)
Lemma repeated_referent_breaks_back_link :
  parse "place" twins = Ok (parsed twins)
  /\ children <$> dict_get "A" (instances (parsed twins)) = Some ["P"]
  /\ parent <$> dict_get "P" (instances (parsed twins)) = Some (Some "B").
Proof. repeat split; vm_compute; reflexivity. Qed.

(** The part inside the element without attributes. *)
Lemma children_of_skipped_items_become_roots_witness :
  (exists instance, dict_get "P" (instances (parsed orphanage)) = Some instance
                    /\ parent instance = None)
  /\ (forall ref_id instance,
        dict_get ref_id (instances (parsed orphanage)) = Some instance ->
        "P" ∉ children instance)
  /\ "P" ∈ root_instances (parsed orphanage).
Proof.
  apply (children_of_skipped_items_become_roots "place" orphanage (parsed orphanage)
           (mkElement "Item" [] None None [ node "Part" "P" [] ]) (node "Part" "P" []) "P").
  - vm_compute. reflexivity.
  - unfold unique_referents. by_evaluation.
  - simpl. apply elem_of_cons. right. apply elem_of_cons. left. reflexivity.
  - reflexivity.
  - left. reflexivity.
  - apply elem_of_cons. left. reflexivity.
  - repeat split. exists "Part". reflexivity.
Defined.

(** C10, as the claim has it, fails when the skipped element has the
    referent of a node declared elsewhere: the second pass takes it for
    that node and links its children to it. *)
Lemma child_of_skipped_item_gets_parent :
  parse "place" shadowed = Ok (parsed shadowed)
  /\ parent <$> dict_get "P" (instances (parsed shadowed)) = Some (Some "A")
  /\ children <$> dict_get "A" (instances (parsed shadowed)) = Some ["P"]
  /\ root_instances (parsed shadowed) = ["A"].
Proof. repeat split; vm_compute; reflexivity. Qed.

(** ** Exceptions of the decoder abort the parse *)

Lemma for_each_raises_in {A S} (Inv : S -> Prop) (f : S -> A -> result S)
    (l : list A) (x : A) (st : S) :
  (forall st y st', Inv st -> f st y = Ok st' -> Inv st') ->
  Inv st -> x ∈ l -> (forall st', Inv st' -> raises (f st' x)) ->
  raises (for_each f l st).
Proof.
  intros Hpres Hinv Hin Hx. revert st Hinv. induction l as [|y l IH]; intros st Hinv.
  - inversion Hin.
  - simpl. apply elem_of_cons in Hin as [<-|Hin].
    + destruct (Hx st Hinv) as [e ->]. exists e. reflexivity.
    + destruct (f st y) as [st'|e] eqn:Hf; simpl;
        [apply IH; eauto | exists e; reflexivity].
Qed.

Lemma raising_property_aborts_parse stem root prop_elem :
  raises (_extract_property_value prop_elem) ->
  decoded_in root prop_elem -> raises (parse stem root).
Proof.
  intros [e He] (item_elem & ref_id & pe & Hitem & Href & Hkey & Hfind & Hprop).
  unfold parse.
  enough (raises (second_pass root (first_pass root))) as [e' ->] by (by exists e').
  unfold second_pass.
  apply (for_each_raises_in (fun st => exists links, linked (first_pass root) links st)
           _ _ item_elem); [| |assumption|].
  - intros st y st' [links Hl] Hstep. eexists.
    exact (second_pass_step_linked _ _ _ _ _ Hstep Hl).
  - eexists. apply linked_init, first_pass_fresh.
  - intros st [links Hl]. unfold second_pass_step. rewrite Href.
    rewrite (linked_has _ _ _ ref_id Hl).
    apply dict_has_keys in Hkey. rewrite Hkey.
    unfold extract_properties. rewrite Hfind.
    destruct (for_each_raises
                (fun instances prop_elem =>
                   let prop_name := get prop_elem "name" in
                   prop_value ← _extract_property_value prop_elem;
                   Ok (dict_update ref_id (set_property prop_name prop_value) instances))
                (subelements pe) prop_elem st.1 Hprop) as [e' He'].
    + intros st'. exists e. simpl. rewrite He. reflexivity.
    + exists e'. simpl in *. rewrite He'. reflexivity.
Qed.

(** C9.  A [bool] element without text makes the decoder raise, and a
    document in which the parser decodes such an element has no parse
    result: [parse] raises. *)
Theorem bool_without_text_aborts_parse (prop_elem : Element) :
  tag prop_elem = "bool" -> text prop_elem = None ->
  _extract_property_value prop_elem = Raise AttributeError
  /\ forall stem root, decoded_in root prop_elem -> raises (parse stem root).
Proof.
  intros Htag Htext.
  pose proof (bool_without_text_raises _ Htag Htext) as Hraise.
  split; [exact Hraise|]. intros stem root.
  apply raising_property_aborts_parse. by exists AttributeError.
Qed.

(** A part whose [Anchored] property is an empty [bool] element. *)
Lemma bool_without_text_aborts_parse_witness :
  _extract_property_value (property "bool" "Anchored" None []) = Raise AttributeError
  /\ raises (parse "place" place_with_empty_bool).
Proof.
  destruct (bool_without_text_aborts_parse (property "bool" "Anchored" None []))
    as [Hdecoder Hparse]; [reflexivity | reflexivity |].
  split; [exact Hdecoder|]. apply Hparse.
  exists (node "Part" "RBX1" [ properties_with_empty_bool ]), "RBX1",
    properties_with_empty_bool.
  repeat split.
  - apply elem_of_cons. left. reflexivity.
  - apply elem_of_cons. left. reflexivity.
  - apply elem_of_cons. right. apply elem_of_cons. left. reflexivity.
Defined.

Example empty_bool_parse : parse "place" place_with_empty_bool = Raise AttributeError.
Proof. vm_compute. reflexivity. Qed.

(** ** The file system only grows *)

Lemma same_kind_refl n : same_kind n n.
Proof. by destruct n. Qed.

Lemma same_kind_trans n1 n2 n3 : same_kind n1 n2 -> same_kind n2 n3 -> same_kind n1 n3.
Proof. by destruct n1, n2, n3. Qed.

Lemma keeps_extends f f' : keeps f f' -> extends f f'.
Proof. intros H q n Hq. exists n. split; [by apply H | apply same_kind_refl]. Qed.

Lemma extends_refl f : extends f f.
Proof. apply keeps_extends. by intros q n. Qed.

Lemma extends_trans f1 f2 f3 : extends f1 f2 -> extends f2 f3 -> extends f1 f3.
Proof.
  intros H12 H23 q n Hq. destruct (H12 _ _ Hq) as (n2 & Hq2 & Hk2).
  destruct (H23 _ _ Hq2) as (n3 & Hq3 & Hk3). exists n3.
  split; [assumption | by apply (same_kind_trans _ n2)].
Qed.

Lemma keeps_trans f1 f2 f3 : keeps f1 f2 -> keeps f2 f3 -> keeps f1 f3.
Proof. intros H12 H23 q n Hq. by apply H23, H12. Qed.

Lemma lookup_node_extends f f' q :
  extends f f' -> FS.lookup_node f q = Some FS.Dir -> FS.lookup_node f' q = Some FS.Dir.
Proof.
  intros Hext. destruct q as [|part q]; [done|]. simpl. intros Hq.
  destruct (Hext _ _ Hq) as ([|c] & Hq' & Hk); [assumption | destruct Hk].
Qed.

Lemma walk_Ok f cur parts q :
  FS.walk f cur parts = Ok q ->
  match parts with
  | [] => q = cur
  | part :: rest =>
      FS.lookup_node f cur = Some FS.Dir /\ FS.walk f (FS.step cur part) rest = Ok q
  end.
Proof.
  destruct parts as [|part rest]; simpl; [by intros [= ->]|].
  destruct (FS.lookup_node f cur) as [[|c]|]; try discriminate. auto.
Qed.

(** A path that resolves keeps resolving, to the same place, when the
    file system grows. *)
Lemma walk_extends f f' parts : forall cur q,
  extends f f' -> FS.walk f cur parts = Ok q -> FS.walk f' cur parts = Ok q.
Proof.
  induction parts as [|part rest IH]; intros cur q Hext Hwalk; [exact Hwalk|].
  apply walk_Ok in Hwalk as [Hdir Hwalk]. simpl.
  rewrite (lookup_node_extends _ _ _ Hext Hdir). by apply IH.
Qed.

Lemma exists_Ok p f :
  FS.exists_ p f = true <->
  exists q, FS.walk f [] p = Ok q /\ is_Some (FS.lookup_node f q).
Proof.
  unfold FS.exists_, FS.stat. destruct (FS.walk f [] p) as [q|e]; simpl.
  - destruct (FS.lookup_node f q) as [n|] eqn:Hq; split.
    + intros _. exists q. split; [reflexivity | by rewrite Hq].
    + reflexivity.
    + discriminate.
    + intros (q' & [= <-] & [n Hn]). congruence.
  - split; [discriminate | intros (q' & [=] & _)].
Qed.

Lemma exists_extends p f f' :
  extends f f' -> FS.exists_ p f = true -> FS.exists_ p f' = true.
Proof.
  intros Hext. rewrite !exists_Ok. intros (q & Hwalk & [n Hn]).
  exists q. split; [by apply (walk_extends f)|].
  destruct q as [|part q]; [done|]. simpl in *.
  destruct (Hext _ _ Hn) as (n' & Hn' & _). by exists n'.
Qed.

Lemma os_mkdir_Ok p f f' :
  FS.os_mkdir p f = Ok f' -> keeps f f' /\ FS.exists_ p f' = true.
Proof.
  unfold FS.os_mkdir. intros H. apply bind_Ok in H as (q & Hwalk & H).
  destruct (FS.lookup_node f q) as [n|] eqn:Hq; [discriminate|].
  injection H as <-.
  assert (q <> []) as Hne by (intros ->; discriminate).
  assert (f !! q = None) as Hnone by (destruct q; [done | exact Hq]).
  assert (keeps f (<[q:=FS.Dir]> f)) as Hkeeps.
  { intros q' n Hq'. rewrite lookup_insert_ne; [assumption | congruence]. }
  split; [exact Hkeeps|]. apply exists_Ok. exists q. split.
  - apply (walk_extends f); [by apply keeps_extends | assumption].
  - destruct q; [done|]. simpl. rewrite lookup_insert_eq. by eexists.
Qed.

Lemma is_dir_exists p f : FS.is_dir p f = true -> FS.exists_ p f = true.
Proof. unfold FS.is_dir, FS.exists_. by destruct (FS.stat p f). Qed.

Lemma exist_ok_Ok p (exist_ok : bool) e f f' :
  (if exist_ok && FS.is_dir p f then Ok f else Raise e) = Ok f' ->
  keeps f f' /\ FS.exists_ p f' = true.
Proof.
  destruct (exist_ok && FS.is_dir p f) eqn:Hok; [|discriminate].
  intros [= <-]. apply andb_prop in Hok as [_ Hdir].
  split; [by intros q n | by apply is_dir_exists].
Qed.

Lemma mkdir_leaf_Ok p exist_ok f f' :
  FS.mkdir_leaf p exist_ok f = Ok f' -> keeps f f' /\ FS.exists_ p f' = true.
Proof.
  unfold FS.mkdir_leaf. destruct (FS.os_mkdir p f) as [f1|e] eqn:Hos.
  - intros [= <-]. by apply os_mkdir_Ok.
  - destruct e; first [discriminate 1 | apply exist_ok_Ok].
Qed.

Lemma mkdir_rev_Ok rp : forall exist_ok f f',
  FS.mkdir_rev rp exist_ok f = Ok f' -> keeps f f' /\ FS.exists_ (rev rp) f' = true.
Proof.
  induction rp as [|part parent IH]; intros exist_ok f f'.
  - change (FS.mkdir_rev [] exist_ok f) with
      (match FS.os_mkdir (rev []) f with
       | Ok f' => Ok f'
       | Raise FileNotFoundError => Raise FileNotFoundError
       | Raise e => if exist_ok && FS.is_dir (rev []) f then Ok f else Raise e
       end).
    destruct (FS.os_mkdir (rev []) f) as [f1|e] eqn:Hos.
    + intros [= <-]. by apply os_mkdir_Ok.
    + destruct e; first [discriminate 1 | apply exist_ok_Ok].
  - change (FS.mkdir_rev (part :: parent) exist_ok f) with
      (match FS.os_mkdir (rev (part :: parent)) f with
       | Ok f' => Ok f'
       | Raise FileNotFoundError =>
           f1 ← FS.mkdir_rev parent true f;
           FS.mkdir_leaf (rev (part :: parent)) exist_ok f1
       | Raise e =>
           if exist_ok && FS.is_dir (rev (part :: parent)) f then Ok f else Raise e
       end).
    destruct (FS.os_mkdir (rev (part :: parent)) f) as [f1|e] eqn:Hos.
    + intros [= <-]. by apply os_mkdir_Ok.
    + destruct e; try apply exist_ok_Ok.
      intros H. apply bind_Ok in H as (f1 & Hparent & Hleaf).
      apply IH in Hparent as [Hkeeps1 _].
      apply mkdir_leaf_Ok in Hleaf as [Hkeeps2 Hexists].
      split; [by apply (keeps_trans _ f1) | assumption].
Qed.

Lemma mkdir_Ok p exist_ok f f' :
  FS.mkdir p exist_ok f = Ok f' -> keeps f f' /\ FS.exists_ p f' = true.
Proof.
  unfold FS.mkdir. intros H. apply mkdir_rev_Ok in H. by rewrite rev_involutive in H.
Qed.

Lemma write_Ok p c f f' :
  FS.write p c f = Ok f' ->
  exists q, FS.walk f [] p = Ok q /\ q <> []
            /\ (forall n, f !! q = Some n -> same_kind n (FS.File c))
            /\ f' = <[q := FS.File c]> f.
Proof.
  unfold FS.write. intros H. apply bind_Ok in H as (q & Hwalk & H).
  exists q. split; [assumption|].
  destruct q as [|part q]; [discriminate|]. simpl in H.
  split; [discriminate|].
  destruct (f !! (part :: q)) as [[|c']|] eqn:Hq; try discriminate;
    injection H as <-; (split; [|reflexivity]); intros n [= <-]; exact I.
Qed.

Lemma write_extends p c f f' : FS.write p c f = Ok f' -> extends f f'.
Proof.
  intros H. apply write_Ok in H as (q & _ & _ & Hkind & ->). intros q' n Hq'.
  destruct (decide (q = q')) as [<-|Hne].
  - rewrite lookup_insert_eq. eauto.
  - rewrite lookup_insert_ne by assumption. exists n. split; [assumption|apply same_kind_refl].
Qed.

Lemma exec_extends st c st' : exec st c = Ok st' -> extends (files st) (files st').
Proof.
  destruct c as [p exist_ok record|p v|p j record|e]; simpl.
  - destruct (FS.exists_ p (files st)); [intros [= <-]; apply extends_refl|].
    intros H. apply bind_Ok in H as (f & Hmk & [= <-]). simpl.
    apply mkdir_Ok in Hmk as [? _]. by apply keeps_extends.
  - destruct v as [[s| | |]|d];
      try (destruct (FS.write p (FS.Text "") (files st)); discriminate).
    intros H. apply bind_Ok in H as (f & Hw & [= <-]). simpl. by apply write_extends in Hw.
  - intros H. apply bind_Ok in H as (f & Hw & [= <-]). simpl. by apply write_extends in Hw.
  - discriminate.
Qed.

Lemma run_extends cmds : forall st st',
  run cmds st = Ok st' -> extends (files st) (files st').
Proof.
  unfold run. induction cmds as [|c cmds IH]; intros st st'; simpl.
  - intros [= <-]. apply extends_refl.
  - intros H. apply bind_Ok in H as (st1 & Hc & Hrest).
    apply exec_extends in Hc. apply IH in Hrest. by apply (extends_trans _ (files st1)).
Qed.

(** ** Running the generator again *)

Lemma replayed_extends final s t :
  extends s final -> replayed final s t -> extends s t.
Proof.
  intros Hext Hrep q n Hq. destruct (Hrep q) as [Ht|(c & Hs & Ht)].
  - rewrite Ht. by apply Hext.
  - rewrite Ht. exists (FS.File c). split; [reflexivity|].
    rewrite Hs in Hq. injection Hq as <-. exact I.
Qed.

Lemma replayed_done final t : replayed final final t -> t = final.
Proof.
  intros Hrep. apply map_eq. intros q.
  destruct (Hrep q) as [Ht|(c & Hs & Ht)]; congruence.
Qed.

Lemma replay_write final s t p c s' :
  FS.write p c s = Ok s' -> extends s' final -> replayed final s t ->
  exists t', FS.write p c t = Ok t' /\ replayed final s' t'.
Proof.
  intros Hw Hfinal Hrep.
  pose proof (write_extends _ _ _ _ Hw) as Hext.
  apply write_Ok in Hw as (q & Hwalk & Hne & _ & ->).
  assert (extends s t) as Hst.
  { apply (replayed_extends final); [|assumption]. by apply (extends_trans _ _ _ Hext). }
  exists (<[q := FS.File c]> t). split.
  - unfold FS.write. rewrite (walk_extends _ _ _ _ _ Hst Hwalk). simpl.
    destruct q as [|part q]; [done|]. simpl.
    assert (exists c', t !! (part :: q) = Some (FS.File c')) as [c' ->]; [|reflexivity].
    destruct (Hrep (part :: q)) as [Ht|(c' & _ & Ht)]; [|eauto].
    destruct (Hfinal (part :: q) (FS.File c)) as ([|c'] & Hf & Hk);
      [apply lookup_insert_eq | destruct Hk |].
    exists c'. congruence.
  - intros q'. destruct (decide (q = q')) as [<-|Hq'].
    + right. exists c. by rewrite !lookup_insert_eq.
    + rewrite !lookup_insert_ne by assumption. apply Hrep.
Qed.

Lemma replay_exec final st c st' t :
  exec st c = Ok st' -> extends (files st') final ->
  replayed final (files st) (files t) ->
  exists t', exec t c = Ok t' /\ replayed final (files st') (files t').
Proof.
  intros Hexec Hfinal Hrep.
  pose proof (exec_extends _ _ _ Hexec) as Hext.
  assert (extends (files st) (files t)) as Hst.
  { apply (replayed_extends final); [|assumption]. by apply (extends_trans _ _ _ Hext). }
  destruct c as [p exist_ok record|p v|p j record|e]; simpl in *.
  - destruct (FS.exists_ p (files st)) eqn:Hex.
    + injection Hexec as <-. rewrite (exists_extends _ _ _ Hst Hex). eauto.
    + apply bind_Ok in Hexec as (f & Hmk & [= <-]). simpl in *.
      apply mkdir_Ok in Hmk as [Hkeeps Hexists].
      assert (replayed final f (files t)) as Hrep'.
      { intros q. destruct (Hrep q) as [Ht|(c & Hs & Ht)]; [by left|].
        right. exists c. split; [by apply Hkeeps | assumption]. }
      rewrite (exists_extends p f (files t)); [eauto | | assumption].
      by apply (replayed_extends final).
  - destruct v as [[s| | |]|d];
      try (destruct (FS.write p (FS.Text "") (files st)); discriminate).
    apply bind_Ok in Hexec as (f & Hw & [= <-]). simpl in *.
    destruct (replay_write _ _ _ _ _ _ Hw Hfinal Hrep) as (t' & -> & Hrep').
    simpl. eauto.
  - apply bind_Ok in Hexec as (f & Hw & [= <-]). simpl in *.
    destruct (replay_write _ _ _ _ _ _ Hw Hfinal Hrep) as (t' & -> & Hrep').
    simpl. eauto.
  - discriminate.
Qed.

Lemma replay_run cmds : forall st final t,
  run cmds st = Ok final -> replayed (files final) (files st) (files t) ->
  exists t', run cmds t = Ok t' /\ files t' = files final.
Proof.
  unfold run. induction cmds as [|c cmds IH]; intros st final t; simpl.
  - intros [= <-] Hrep. exists t. split; [reflexivity | by apply replayed_done].
  - intros H Hrep. apply bind_Ok in H as (st1 & Hc & Hrest).
    destruct (replay_exec (files final) _ _ _ t Hc) as (t1 & -> & Hrep1);
      [by apply (run_extends cmds) | assumption |].
    simpl. by apply (IH st1).
Qed.

(** Any list of commands that ran to its end runs to its end again, and
    leaves the files as the first run left them. *)
Lemma run_twice cmds st st1 :
  run cmds st = Ok st1 -> exists st2, run cmds st1 = Ok st2 /\ files st2 = files st1.
Proof.
  intros H. apply (replay_run cmds st); [assumption|]. intros q. by left.
Qed.

(** C8.  When the generator has run to its end, running it again on the
    file system it left changes no file and no directory. *)
Theorem generate_project_twice game_data fuel output_dir st st1 :
  run (generate_project game_data fuel output_dir) st = Ok st1 ->
  exists st2, run (generate_project game_data fuel output_dir) st1 = Ok st2
              /\ files st2 = files st1.
Proof. apply run_twice. Qed.

Lemma run_after cmds st : succeeds (run cmds st) = true -> run cmds st = Ok (after cmds st).
Proof. unfold after. by destruct (run cmds st). Qed.

(** The same for the converter as a whole, which parses and then emits. *)
Corollary convert_twice stem root fuel output_dir st st1 :
  convert stem root fuel output_dir st = Ok st1 ->
  exists st2, convert stem root fuel output_dir st1 = Ok st2 /\ files st2 = files st1.
Proof.
  unfold convert. destruct (parse stem root) as [game_data|e]; simpl; [|discriminate].
  apply run_twice.
Qed.

(** The first run on the sample place ends without an exception. *)
Lemma sample_first_run :
  run (generate_project (parsed sample_place) 8 ["out"]) empty_disk
  = Ok (after (generate_project (parsed sample_place) 8 ["out"]) empty_disk).
Proof. apply run_after. vm_compute. reflexivity. Qed.

(** The sample place, emitted twice into [out]. *)
Lemma generate_project_twice_witness :
  exists st2,
    run (generate_project (parsed sample_place) 8 ["out"])
      (after (generate_project (parsed sample_place) 8 ["out"]) empty_disk) = Ok st2
    /\ files st2
       = files (after (generate_project (parsed sample_place) 8 ["out"]) empty_disk).
Proof.
  exact (generate_project_twice _ _ _ _ _ sample_first_run).
Defined.

Example sample_script_file :
  files (after (generate_project (parsed sample_place) 8 ["out"]) empty_disk)
    !! ["out"; "src"; "ServerScriptService"; "Main.server.lua"]
  = Some (FS.File (FS.Text "print('hi')")).
Proof. vm_compute. reflexivity. Qed.

(** ** Scripts with children *)

Lemma script_class_is_not_folder c :
  c ∈ ["Script"; "LocalScript"; "ModuleScript"] -> (c =? "Folder") = false.
Proof.
  intros H. apply String.eqb_neq. intros ->.
  repeat (apply elem_of_cons in H as [H|H]; [discriminate|]). inversion H.
Qed.

(** The extension of a script's file has no slash. *)
Lemma script_extension_is_a_suffix c :
  ("/"%char ∉ Py.bytes (default ".lua" (dict_get c script_extensions)))
  /\ (1 < String.length (default ".lua" (dict_get c script_extensions)))%nat.
Proof.
  unfold script_extensions. simpl.
  repeat (destruct (decide _); [split; [by_evaluation | simpl; lia]|]).
  split; [by_evaluation | simpl; lia].
Qed.

(** C3, as the code has it.  For a script-like node that has children,
    [_process_instance] issues, in this order: the script file
    [normalize(name) + extension] in the parent directory; the node's
    sidecar [normalize(name).meta.json], in the parent directory as well,
    next to the script file; and for every child that the node map holds,
    the creation of the directory [parent / normalize(name)] (skipped when
    it exists) followed by the commands of the child, processed in that
    directory as a non-root call. *)
Theorem script_with_children_emission game_data fuel instance parent_path root_call n props :
  class instance ∈ ["Script"; "LocalScript"; "ModuleScript"] ->
  children instance <> [] ->
  normalize_name_of (instance_name instance) = Ok n ->
  meta_properties (properties instance) = Ok props ->
  _process_instance game_data (S fuel) instance parent_path root_call
  = WriteText
      (parent_path ++ [n +:+ default ".lua" (dict_get (class instance) script_extensions)])
      (default (Scalar (SStr "")) (dict_get (Some "Source") (properties instance)))
    :: WriteJson (parent_path ++ [n +:+ ".meta.json"])
         (meta_json (class instance) props) true
    :: concat (map (fun child =>
                      Mkdir (path_join parent_path n) true true
                      :: _process_instance game_data fuel child
                           (path_join parent_path n) false)
                 (resolve game_data (children instance))).
Proof.
  intros Hclass Hchildren Hn Hprops.
  destruct (script_extension_is_a_suffix (class instance)) as [Hslash Hlen].
  rewrite <- (path_join_file parent_path _ n _ Hn Hslash Hlen).
  rewrite <- (path_join_file parent_path _ n ".meta.json" Hn);
    [|by_evaluation | simpl; lia].
  simpl. unfold is_script_class. rewrite bool_decide_eq_true_2 by assumption.
  unfold _create_script_file_with. rewrite Hn. f_equal.
  destruct (children instance) as [|c cs] eqn:Hcs; [contradiction|].
  unfold _create_meta_file. rewrite Hprops. simpl.
  rewrite (script_class_is_not_folder _ Hclass). simpl. rewrite Hn. reflexivity.
Qed.

(** The script [Main] of the sample place and its child [Assets]. *)
Lemma script_with_children_emission_witness :
  _process_instance (parsed sample_place) 3 main_script ["src"; "ServerScriptService"] false
  = WriteText ["src"; "ServerScriptService"; "Main.server.lua"] (Scalar (SStr "print('hi')"))
    :: WriteJson ["src"; "ServerScriptService"; "Main.meta.json"]
         (meta_json "Script" []) true
    :: concat (map (fun child =>
                      Mkdir ["src"; "ServerScriptService"; "Main"] true true
                      :: _process_instance (parsed sample_place) 2 child
                           ["src"; "ServerScriptService"; "Main"] false)
                 (resolve (parsed sample_place) ["RBX3"])).
Proof.
  apply (script_with_children_emission (parsed sample_place) 2 main_script
           ["src"; "ServerScriptService"] false "Main" []).
  - apply elem_of_cons. left. reflexivity.
  - discriminate.
  - vm_compute. reflexivity.
  - reflexivity.
Defined.

(** C3, as the claim has it, fails: after the sample place is emitted, the
    sidecar of the script [Main] is beside the script file, and the
    directory [Main] of its children holds no sidecar of the script. *)
Lemma script_sidecar_is_beside_the_script :
  sample_disk !! ["out"; "src"; "ServerScriptService"; "Main.meta.json"]
    = Some (FS.File (FS.Json (meta_json "Script" [])))
  /\ sample_disk !! ["out"; "src"; "ServerScriptService"; "Main"] = Some FS.Dir
  /\ sample_disk !! ["out"; "src"; "ServerScriptService"; "Main"; "Main.meta.json"] = None
  /\ sample_disk !! ["out"; "src"; "ServerScriptService"; "Main"; "Assets"; "Assets.meta.json"]
     = Some (FS.File (FS.Json
         (meta_json "Folder" [("Enabled", JScalar (SBool true))]))).
Proof. repeat split; vm_compute; reflexivity. Qed.

(** * More of the converter *)

(** ** utils.py: the normaliser *)

Lemma append_cons c (s1 s2 : string) : String c s1 +:+ s2 = String c (s1 +:+ s2).
Proof. reflexivity. Qed.

Lemma str_bytes s : Py.str (Py.bytes s) = s.
Proof. apply string_of_list_ascii_of_string. Qed.

Lemma lstrip_bytes_suffix p l : exists d, l = d ++ Py.lstrip_bytes p l.
Proof.
  induction l as [|c l [d IH]]; [by exists []|]. simpl.
  destruct (p c); [exists (c :: d); simpl; by f_equal | by exists []].
Qed.

Lemma lstrip_bytes_head p l c : head (Py.lstrip_bytes p l) = Some c -> p c = false.
Proof.
  induction l as [|a l IH]; simpl; [discriminate|].
  destruct (p a) eqn:Ha; [exact IH | simpl; by intros [= <-]].
Qed.

Lemma lstrip_bytes_id p l :
  (forall c, head l = Some c -> p c = false) -> Py.lstrip_bytes p l = l.
Proof. destruct l as [|a l]; [reflexivity|]. simpl. intros H. by rewrite (H a). Qed.

Lemma head_rev {A} (l : list A) : head (rev l) = last l.
Proof.
  induction l as [|a l IH] using rev_ind; [reflexivity|].
  rewrite rev_app_distr, last_snoc. reflexivity.
Qed.

Lemma last_rev {A} (l : list A) : last (rev l) = head l.
Proof. rewrite <- head_rev, rev_involutive. reflexivity. Qed.

Lemma rstrip_bytes_id p l :
  (forall c, last l = Some c -> p c = false) -> Py.rstrip_bytes p l = l.
Proof.
  intros H. unfold Py.rstrip_bytes. rewrite lstrip_bytes_id; [apply rev_involutive|].
  intros c. rewrite head_rev. apply H.
Qed.

Lemma strip_bytes_id p l :
  (forall c, head l = Some c -> p c = false) ->
  (forall c, last l = Some c -> p c = false) -> Py.strip_bytes p l = l.
Proof.
  intros Hh Hl. unfold Py.strip_bytes. rewrite lstrip_bytes_id by exact Hh.
  apply rstrip_bytes_id, Hl.
Qed.

(** What [strip] leaves neither starts nor ends with a stripped
    character. *)
Lemma strip_bytes_edges p l c :
  head (Py.strip_bytes p l) = Some c \/ last (Py.strip_bytes p l) = Some c -> p c = false.
Proof.
  unfold Py.strip_bytes, Py.rstrip_bytes.
  set (l' := Py.lstrip_bytes p l).
  destruct (lstrip_bytes_suffix p (rev l')) as [d Hd].
  set (k := Py.lstrip_bytes p (rev l')) in *.
  intros [H|H].
  - apply (lstrip_bytes_head p l). fold l'.
    rewrite <- (rev_involutive l'), Hd, rev_app_distr.
    destruct (rev k); [discriminate | exact H].
  - rewrite last_rev in H. exact (lstrip_bytes_head _ _ _ H).
Qed.

Lemma normalize_items_edges items c :
  head (Py.bytes (normalize_items items)) = Some c
  \/ last (Py.bytes (normalize_items items)) = Some c ->
  Py.is_space c = false.
Proof.
  unfold normalize_items.
  destruct (String.eqb_spec (Py.strip (Py.strip_of "_" (Py.join
    (map (fun c => if Py.contains valid_chars c then c else "_") items)))) "") as [_|_].
  - intros [[= <-]|[= <-]]; reflexivity.
  - unfold Py.strip. rewrite bytes_str. apply strip_bytes_edges.
Qed.

(** The characters of an ASCII text. *)
Lemma iter_ascii l :
  Forall (fun b => Py.is_continuation b = false) l ->
  Py.iter (Py.str l) = map (fun b => String b "") l.
Proof.
  intros H. unfold Py.iter. rewrite bytes_str.
  assert (foldr Py.iter_step ([], []) l = ([], map (fun b => String b "") l)) as ->;
    [|reflexivity].
  induction H as [|b l Hb _ IH]; [reflexivity|].
  cbn [foldr map]. rewrite IH. unfold Py.iter_step. rewrite Hb. reflexivity.
Qed.

Lemma contains_single hay c :
  c ∈ Py.bytes hay -> Py.contains hay (String c "") = true.
Proof.
  unfold Py.bytes. induction hay as [|a hay IH]; simpl; [inversion 1|].
  intros H. apply elem_of_cons in H as [->|H].
  - destruct (ascii_dec a a); [|done]. by destruct hay.
  - rewrite IH by exact H. apply orb_true_r.
Qed.

Lemma join_singletons l : Py.join (map (fun b => String b "") l) = Py.str l.
Proof.
  induction l as [|b l IH]; [reflexivity|].
  cbn [map Py.join foldr]. fold (Py.join (map (fun b => String b "") l)).
  rewrite IH. reflexivity.
Qed.

Lemma valid_chars_ascii :
  Forall (fun b => Py.is_continuation b = false) (Py.bytes valid_chars).
Proof. by_evaluation. Qed.

Lemma valid_chars_space :
  Forall (fun b => Py.is_space b = true -> b = " "%char) (Py.bytes valid_chars).
Proof. repeat constructor; (discriminate || reflexivity). Qed.

(** A name made of valid characters that neither starts nor ends with an
    underscore or a space is its own normal form. *)
Lemma normalize_name_clean s :
  s <> "" ->
  (forall c, c ∈ Py.bytes s -> c ∈ Py.bytes valid_chars) ->
  (forall c, head (Py.bytes s) = Some c \/ last (Py.bytes s) = Some c ->
             c <> "_"%char /\ c <> " "%char) ->
  normalize_name s = s.
Proof.
  intros Hne Hvalid Hedge. unfold normalize_name.
  rewrite <- (str_bytes s) at 1. rewrite iter_ascii.
  2: { apply Forall_forall. intros b Hb.
       exact (proj1 (Forall_forall _ _) valid_chars_ascii b (Hvalid b Hb)). }
  unfold normalize_items. rewrite map_map.
  rewrite (map_ext_in _ (fun b => String b "")).
  2: { intros b Hb. apply list_elem_of_In in Hb. by rewrite contains_single by auto. }
  rewrite join_singletons, str_bytes.
  unfold Py.strip_of. rewrite strip_bytes_id.
  2,3: intros c Hc; apply bool_decide_eq_false; intros Hin;
       apply list_elem_of_singleton in Hin as ->; by edestruct Hedge as [? _]; eauto.
  rewrite str_bytes. unfold Py.strip. rewrite strip_bytes_id.
  2,3: intros c Hc; destruct (Py.is_space c) eqn:Hsp; [exfalso|reflexivity];
       assert (c ∈ Py.bytes s) as Hin
         by (first [apply head_Some_elem_of; exact Hc | apply last_Some_elem_of; exact Hc]);
       apply (proj1 (Forall_forall _ _) valid_chars_space c (Hvalid c Hin)) in Hsp;
       by edestruct Hedge as [_ ?]; eauto.
  rewrite str_bytes. destruct (String.eqb_spec s ""); [contradiction | reflexivity].
Qed.

Lemma startswith_single s c :
  Py.startswith s (String c "") = bool_decide (head (Py.bytes s) = Some c).
Proof.
  unfold Py.startswith, Py.bytes. destruct s as [|a s]; simpl; [reflexivity|].
  destruct (ascii_dec c a) as [->|Hne].
  - rewrite bool_decide_eq_true_2 by reflexivity. by destruct s.
  - rewrite bool_decide_eq_false_2; [reflexivity | congruence].
Qed.

Lemma endswith_single s c :
  Py.endswith s (String c "") = bool_decide (last (Py.bytes s) = Some c).
Proof.
  unfold Py.endswith. change (Py.str (rev (Py.bytes (String c "")))) with (String c "").
  change (String.prefix (String c "") ?x) with (Py.startswith x (String c "")).
  rewrite startswith_single, bytes_str, head_rev. reflexivity.
Qed.

(** X1.  Whatever the name, [normalize_name] returns a text that can be one part
    of a path: it is not empty, it is made of the characters of
    [valid_chars] only, it holds no slash, and it neither starts nor ends
    with white space. *)
Theorem normalize_name_is_a_file_name (name : string) :
  normalize_name name <> ""
  /\ (forall c, c ∈ Py.bytes (normalize_name name) -> c ∈ Py.bytes valid_chars)
  /\ ("/"%char ∉ Py.bytes (normalize_name name))
  /\ (forall c, head (Py.bytes (normalize_name name)) = Some c
                \/ last (Py.bytes (normalize_name name)) = Some c ->
                Py.is_space c = false).
Proof.
  split; [apply normalize_items_nonempty|].
  split; [intros c; apply normalize_items_valid|].
  split; [|intros c; apply normalize_items_edges].
  intros H. apply normalize_items_valid in H. revert H. by_evaluation.
Qed.

(** X2.  A name that is not empty, is made of valid characters only and
    neither starts nor ends with an underscore or a space is its own
    normal form. *)
Theorem normalize_name_keeps_clean_names (s : string) :
  s <> "" ->
  (forall c, c ∈ Py.bytes s -> c ∈ Py.bytes valid_chars) ->
  Py.startswith s "_" = false -> Py.startswith s " " = false ->
  Py.endswith s "_" = false -> Py.endswith s " " = false ->
  normalize_name s = s.
Proof.
  rewrite !startswith_single, !endswith_single, !bool_decide_eq_false.
  intros Hne Hvalid H1 H2 H3 H4. apply normalize_name_clean; [assumption..|].
  intros c [H|H]; split; intros ->; contradiction.
Qed.

Lemma normalize_name_keeps_clean_names_witness : normalize_name "My Part (2)" = "My Part (2)".
Proof.
  apply normalize_name_keeps_clean_names; [discriminate | | reflexivity..].
  apply Forall_forall. by_evaluation.
Defined.

(** X3.  Normalising a normalised name changes nothing when the normalised
    name neither starts nor ends with an underscore; an underscore left at
    an end is the only way idempotence fails (C4). *)
Theorem normalize_name_idempotent_without_edge_underscores (name : string) :
  Py.startswith (normalize_name name) "_" = false ->
  Py.endswith (normalize_name name) "_" = false ->
  normalize_name (normalize_name name) = normalize_name name.
Proof.
  rewrite startswith_single, endswith_single, !bool_decide_eq_false.
  intros H1 H2. apply normalize_name_clean.
  - apply normalize_items_nonempty.
  - intros c. apply normalize_items_valid.
  - intros c Hc. split; intros ->; [destruct Hc; contradiction|].
    apply normalize_items_edges in Hc. discriminate Hc.
Qed.

Lemma normalize_name_idempotent_without_edge_underscores_witness :
  normalize_name (normalize_name "My Part!") = normalize_name "My Part!".
Proof. apply normalize_name_idempotent_without_edge_underscores; reflexivity. Defined.

(** ** utils.py: [escape_lua_string] *)

Lemma append_assoc (s1 s2 s3 : string) : (s1 +:+ s2) +:+ s3 = s1 +:+ (s2 +:+ s3).
Proof. induction s1 as [|c s1 IH]; [reflexivity|]. rewrite !append_cons, IH. reflexivity. Qed.

Lemma append_nil_r (s : string) : s +:+ "" = s.
Proof. induction s as [|c s IH]; [reflexivity|]. rewrite append_cons, IH. reflexivity. Qed.

Lemma replace_single old new c :
  Py.replace old new (String c "") = if Ascii.eqb c old then new else String c "".
Proof. unfold Py.replace. cbn. apply append_nil_r. Qed.

Lemma join_app l1 l2 : Py.join (l1 ++ l2) = Py.join l1 +:+ Py.join l2.
Proof.
  induction l1 as [|x l1 IH]; [reflexivity|].
  cbn [app Py.join foldr]. fold (Py.join (l1 ++ l2)). fold (Py.join l1).
  rewrite IH. symmetry. apply append_assoc.
Qed.

Lemma replace_append old new s1 s2 :
  Py.replace old new (s1 +:+ s2) = Py.replace old new s1 +:+ Py.replace old new s2.
Proof.
  unfold Py.replace. rewrite bytes_append, map_app. apply join_app.
Qed.

Lemma replace_join old new l :
  Py.replace old new (Py.join l) = Py.join (map (Py.replace old new) l).
Proof.
  induction l as [|x l IH]; [reflexivity|].
  cbn [map Py.join foldr]. fold (Py.join l). fold (Py.join (map (Py.replace old new) l)).
  rewrite replace_append, IH. reflexivity.
Qed.

Lemma replace_map old new (f : ascii -> string) l :
  Py.replace old new (Py.join (map f l)) = Py.join (map (fun c => Py.replace old new (f c)) l).
Proof. rewrite replace_join, map_map. reflexivity. Qed.

Lemma join_ext {A} (f g : A -> string) l :
  (forall x, f x = g x) -> Py.join (map f l) = Py.join (map g l).
Proof. intros H. f_equal. apply map_ext. exact H. Qed.

Lemma escape_lua_string_chars s :
  escape_lua_string s = Py.join (map escape_char (Py.bytes s)).
Proof.
  unfold escape_lua_string.
  destruct (String.eqb_spec s "") as [->|_]; [reflexivity|].
  unfold Py.replace at 5. rewrite !replace_map.
  apply join_ext. intros c. unfold escape_char, escape_letter.
  destruct (Ascii.eqb_spec c backslash) as [->|H1]; [reflexivity|].
  destruct (Ascii.eqb_spec c double_quote) as [->|H2]; [reflexivity|].
  destruct (Ascii.eqb_spec c line_feed) as [->|H3]; [reflexivity|].
  destruct (Ascii.eqb_spec c carriage_return) as [->|H4]; [reflexivity|].
  destruct (Ascii.eqb_spec c tab) as [->|H5]; [reflexivity|].
  apply Ascii.eqb_neq in H2, H3, H4, H5.
  rewrite replace_single, H2, replace_single, H3, replace_single, H4, replace_single, H5.
  reflexivity.
Qed.

Lemma escape_letter_inj c1 c2 x :
  escape_letter c1 = Some x -> escape_letter c2 = Some x -> c1 = c2.
Proof.
  unfold escape_letter.
  destruct (Ascii.eqb_spec c1 backslash) as [->|_];
    [|destruct (Ascii.eqb_spec c1 double_quote) as [->|_];
      [|destruct (Ascii.eqb_spec c1 line_feed) as [->|_];
        [|destruct (Ascii.eqb_spec c1 carriage_return) as [->|_];
          [|destruct (Ascii.eqb_spec c1 tab) as [->|_]; [|discriminate]]]]];
  intros [= <-];
  (destruct (Ascii.eqb_spec c2 backslash) as [->|_];
    [|destruct (Ascii.eqb_spec c2 double_quote) as [->|_];
      [|destruct (Ascii.eqb_spec c2 line_feed) as [->|_];
        [|destruct (Ascii.eqb_spec c2 carriage_return) as [->|_];
          [|destruct (Ascii.eqb_spec c2 tab) as [->|_]; [|discriminate]]]]]);
  first [reflexivity | discriminate].
Qed.

Lemma escape_letter_None c : escape_letter c = None -> c <> backslash.
Proof. intros H ->. discriminate H. Qed.

Lemma escape_chars_inj l1 : forall l2,
  Py.join (map escape_char l1) = Py.join (map escape_char l2) -> l1 = l2.
Proof.
  induction l1 as [|c1 l1 IH]; intros [|c2 l2]; cbn [map Py.join foldr].
  - reflexivity.
  - unfold escape_char. destruct (escape_letter c2); discriminate.
  - unfold escape_char. destruct (escape_letter c1); discriminate.
  - fold (Py.join (map escape_char l1)). fold (Py.join (map escape_char l2)).
    unfold escape_char.
    destruct (escape_letter c1) as [x1|] eqn:E1, (escape_letter c2) as [x2|] eqn:E2;
      rewrite !append_cons; change ("" +:+ ?s) with s.
    + intros [= -> H2]. rewrite (escape_letter_inj _ _ _ E1 E2). f_equal. apply IH, H2.
    + intros [= <- _]. exfalso. exact (escape_letter_None _ E2 eq_refl).
    + intros [= -> _]. exfalso. exact (escape_letter_None _ E1 eq_refl).
    + intros [= -> H2]. f_equal. apply IH, H2.
Qed.

Lemma bytes_inj s1 s2 : Py.bytes s1 = Py.bytes s2 -> s1 = s2.
Proof.
  intros H. rewrite <- (string_of_list_ascii_of_string s1), <- (string_of_list_ascii_of_string s2).
  unfold Py.bytes in H. rewrite H. reflexivity.
Qed.

(** X4.  [escape_lua_string] loses nothing: two strings with the same escaped
    text are the same string. *)
Theorem escape_lua_string_injective s1 s2 :
  escape_lua_string s1 = escape_lua_string s2 -> s1 = s2.
Proof.
  rewrite !escape_lua_string_chars. intros H. apply bytes_inj, escape_chars_inj, H.
Qed.

Lemma escape_lua_string_injective_witness : two_lines = two_lines.
Proof. apply escape_lua_string_injective. reflexivity. Defined.

Lemma bytes_join l c : c ∈ Py.bytes (Py.join l) <-> exists s, s ∈ l /\ c ∈ Py.bytes s.
Proof.
  induction l as [|x l IH]; cbn [Py.join foldr].
  - split; [intros H; inversion H | intros (s & H & _); inversion H].
  - fold (Py.join l). rewrite bytes_append, elem_of_app, IH. split.
    + intros [H|(s & Hs & Hc)]; [exists x | exists s]; split; auto; [left | right]; auto.
    + intros (s & Hs & Hc). apply elem_of_cons in Hs as [->|Hs]; [left | right; exists s]; auto.
Qed.

(** X5.  The text [escape_lua_string] returns holds no line feed, no carriage
    return and no tab. *)
Theorem escape_lua_string_has_no_control_character s c :
  c ∈ Py.bytes (escape_lua_string s) ->
  c <> line_feed /\ c <> carriage_return /\ c <> tab.
Proof.
  rewrite escape_lua_string_chars, bytes_join. intros (e & He & Hc).
  apply list_elem_of_fmap in He. destruct He as (b & He & _). subst e.
  revert Hc. unfold escape_char, escape_letter.
  destruct (Ascii.eqb_spec b backslash) as [Hb|_];
    [|destruct (Ascii.eqb_spec b double_quote) as [Hb|_];
      [|destruct (Ascii.eqb_spec b line_feed) as [Hb|H3];
        [|destruct (Ascii.eqb_spec b carriage_return) as [Hb|H4];
          [|destruct (Ascii.eqb_spec b tab) as [Hb|H5]]]]]; intros Hc.
  6: { apply list_elem_of_singleton in Hc as ->. auto. }
  all: apply elem_of_cons in Hc as [->|Hc];
    [|apply list_elem_of_singleton in Hc as ->]; repeat split; discriminate.
Qed.

Lemma escape_lua_string_has_no_control_character_witness :
  "n"%char <> line_feed /\ "n"%char <> carriage_return /\ "n"%char <> tab.
Proof.
  apply (escape_lua_string_has_no_control_character two_lines). by_evaluation.
Defined.

(** ** utils.py and the decoder: base64 texts *)

Lemma list_ind3 {A} (P : list A -> Prop) :
  P [] -> (forall a, P [a]) -> (forall a b, P [a; b]) ->
  (forall a b c l, P l -> P (a :: b :: c :: l)) -> forall l, P l.
Proof.
  intros H0 H1 H2 H3 l.
  assert (P l /\ (forall a, P (a :: l)) /\ (forall a b, P (a :: b :: l))) as [H _].
  { induction l as [|x l (IH0 & IH1 & IH2)]; [by auto|].
    split; [apply IH1|]. split; [intros a; apply IH2|]. intros a b. apply H3, IH0. }
  exact H.
Qed.

Lemma b64char_table n :
  (n < 64)%nat ->
  Base64.table (b64char n) = Some n /\ Ascii.eqb (b64char n) "=" = false
  /\ Base64.is_ascii (b64char n) = true.
Proof.
  intros H.
  assert (Forall (fun n => Base64.table (b64char n) = Some n
                           /\ Ascii.eqb (b64char n) "=" = false
                           /\ Base64.is_ascii (b64char n) = true) (seq 0 64)) as Hall.
  { repeat (constructor; [repeat split; reflexivity|]). constructor. }
  apply (proj1 (Forall_forall _ _) Hall). apply elem_of_seq. lia.
Qed.

Lemma code_lt c : (Py.code c < 256)%nat.
Proof. apply nat_ascii_bounded. Qed.

Lemma ascii_of_code c : ascii_of_nat (Py.code c) = c.
Proof. apply ascii_nat_embedding. Qed.


(** One character of the alphabet, read by the decoder. *)
Lemma a2b_base64_char n l quad_pos leftchar pads out :
  (n < 64)%nat ->
  Base64.a2b_base64 (b64char n :: l) quad_pos leftchar pads out
  = match quad_pos with
    | 0 => Base64.a2b_base64 l 1 n 0 out
    | 1 => Base64.a2b_base64 l 2 (n mod 16) 0 (ascii_of_nat (leftchar * 4 + n / 16) :: out)
    | 2 => Base64.a2b_base64 l 3 (n mod 4) 0 (ascii_of_nat (leftchar * 16 + n / 4) :: out)
    | _ => Base64.a2b_base64 l 0 0 0 (ascii_of_nat (leftchar * 64 + n) :: out)
    end%nat.
Proof.
  intros Hn. destruct (b64char_table n Hn) as (Ht & He & _).
  cbn [Base64.a2b_base64]. rewrite He, Ht. reflexivity.
Qed.

Lemma byte_1 a b : (b < 256 -> (a / 4) * 4 + (a mod 4 * 16 + b / 16) / 16 = a)%nat.
Proof. divmod. Qed.
Lemma byte_2 a b c :
  (b < 256 -> c < 256 ->
   (a mod 4 * 16 + b / 16) mod 16 * 16 + (b mod 16 * 4 + c / 64) / 4 = b)%nat.
Proof. divmod. Qed.
Lemma byte_3 b c : (c < 256 -> (b mod 16 * 4 + c / 64) mod 4 * 64 + c mod 64 = c)%nat.
Proof. divmod. Qed.
Lemma sextet_1 a : (a < 256 -> a / 4 < 64)%nat.
Proof. divmod. Qed.
Lemma sextet_2 a b : (b < 256 -> a mod 4 * 16 + b / 16 < 64)%nat.
Proof. divmod. Qed.
Lemma sextet_3 b c : (c < 256 -> b mod 16 * 4 + c / 64 < 64)%nat.
Proof. divmod. Qed.
Lemma sextet_4 c : (c mod 64 < 64)%nat.
Proof. divmod. Qed.

(** Decoding what the encoder wrote gives the bytes back. *)
Lemma a2b_base64_encode l : forall out,
  Base64.a2b_base64 (b64encode_bytes l) 0 0 0 out = Some (rev out ++ l).
Proof.
  induction l as [|a|a b|a b c l IH] using list_ind3; intros out.
  - simpl. by rewrite app_nil_r.
  - pose proof (code_lt a) as Ha.
    cbn [b64encode_bytes].
    rewrite a2b_base64_char by (apply sextet_1, Ha).
    replace (Py.code a mod 4 * 16)%nat with (Py.code a mod 4 * 16 + 0 / 16)%nat
      by (rewrite Nat.Div0.div_0_l; lia).
    rewrite a2b_base64_char by (apply sextet_2; lia).
    rewrite byte_1 by lia. rewrite ascii_of_code.
    simpl. rewrite <- ?app_assoc. reflexivity.
  - pose proof (code_lt a) as Ha. pose proof (code_lt b) as Hb.
    cbn [b64encode_bytes].
    rewrite a2b_base64_char by (apply sextet_1, Ha).
    rewrite a2b_base64_char by (apply sextet_2, Hb).
    rewrite byte_1, ascii_of_code by exact Hb.
    replace (Py.code b mod 16 * 4)%nat with (Py.code b mod 16 * 4 + 0 / 64)%nat
      by (rewrite Nat.Div0.div_0_l; lia).
    rewrite a2b_base64_char by (apply sextet_3; lia).
    rewrite byte_2, ascii_of_code by lia.
    simpl. rewrite <- ?app_assoc. reflexivity.
  - pose proof (code_lt a) as Ha. pose proof (code_lt b) as Hb. pose proof (code_lt c) as Hc.
    cbn [b64encode_bytes].
    rewrite a2b_base64_char by (apply sextet_1, Ha).
    rewrite a2b_base64_char by (apply sextet_2, Hb).
    rewrite byte_1, ascii_of_code by exact Hb.
    rewrite a2b_base64_char by (apply sextet_3, Hc).
    rewrite byte_2, ascii_of_code by assumption.
    rewrite a2b_base64_char by apply sextet_4.
    rewrite byte_3, ascii_of_code by assumption.
    rewrite IH. simpl. rewrite <- ?app_assoc. reflexivity.
Qed.

Lemma b64encode_bytes_ascii l : forallb Base64.is_ascii (b64encode_bytes l) = true.
Proof.
  induction l as [|a|a b|a b c l IH] using list_ind3.
  - reflexivity.
  - pose proof (code_lt a). cbn [b64encode_bytes forallb].
    rewrite (proj2 (proj2 (b64char_table _ (sextet_1 _ H)))).
    replace (Py.code a mod 4 * 16)%nat with (Py.code a mod 4 * 16 + 0 / 16)%nat
      by (rewrite Nat.Div0.div_0_l; lia).
    rewrite (proj2 (proj2 (b64char_table _ (sextet_2 (Py.code a) 0 ltac:(lia))))).
    reflexivity.
  - pose proof (code_lt a) as Ha. pose proof (code_lt b) as Hb.
    cbn [b64encode_bytes forallb].
    rewrite (proj2 (proj2 (b64char_table _ (sextet_1 _ Ha)))).
    rewrite (proj2 (proj2 (b64char_table _ (sextet_2 (Py.code a) _ Hb)))).
    replace (Py.code b mod 16 * 4)%nat with (Py.code b mod 16 * 4 + 0 / 64)%nat
      by (rewrite Nat.Div0.div_0_l; lia).
    rewrite (proj2 (proj2 (b64char_table _ (sextet_3 (Py.code b) 0 ltac:(lia))))).
    reflexivity.
  - pose proof (code_lt a) as Ha. pose proof (code_lt b) as Hb. pose proof (code_lt c) as Hc.
    cbn [b64encode_bytes forallb].
    rewrite (proj2 (proj2 (b64char_table _ (sextet_1 _ Ha)))).
    rewrite (proj2 (proj2 (b64char_table _ (sextet_2 (Py.code a) _ Hb)))).
    rewrite (proj2 (proj2 (b64char_table _ (sextet_3 (Py.code b) _ Hc)))).
    rewrite (proj2 (proj2 (b64char_table _ (sextet_4 (Py.code c))))).
    exact IH.
Qed.

Lemma b64decode_encode s :
  Base64.utf8_valid [] (Py.bytes s) = true ->
  Base64.b64decode_utf8 (b64encode s) = Some s.
Proof.
  intros Hs. unfold Base64.b64decode_utf8, b64encode.
  rewrite bytes_str, b64encode_bytes_ascii, a2b_base64_encode. simpl.
  rewrite Hs. f_equal. apply string_of_list_ascii_of_string.
Qed.

Lemma b64encode_empty s : b64encode s = "" -> s = "".
Proof.
  unfold b64encode. intros H. apply (f_equal Py.bytes) in H. rewrite bytes_str in H.
  destruct s as [|a [|b [|c s]]]; [reflexivity|discriminate..].
Qed.

(** X6.  [convert_base64_to_string] gives every UTF-8 text back from its
    standard base64 encoding. *)
Theorem convert_base64_to_string_decodes (s : string) :
  Base64.utf8_valid [] (Py.bytes s) = true ->
  convert_base64_to_string (b64encode s) = s.
Proof.
  intros Hs. unfold convert_base64_to_string.
  destruct (String.eqb_spec (b64encode s) "") as [H|_].
  - symmetry. apply b64encode_empty, H.
  - by rewrite b64decode_encode.
Qed.

Lemma convert_base64_to_string_decodes_witness :
  convert_base64_to_string (b64encode "print('hi')") = "print('hi')".
Proof. apply convert_base64_to_string_decodes. reflexivity. Defined.

(** X7.  A [BinaryString] or [ProtectedString] element whose text is the
    standard base64 encoding of a UTF-8 text decodes to that text. *)
Theorem source_text_decodes (e : Element) (s : string) :
  tag e = "BinaryString" \/ tag e = "ProtectedString" ->
  Base64.utf8_valid [] (Py.bytes s) = true ->
  text e = Some (b64encode s) ->
  _extract_property_value e = Ok (Scalar (SStr s)).
Proof.
  intros Htag Hs Ht. rewrite (base64_text_never_raises e Htag), Ht.
  unfold decode_base64_text, Py.or_default.
  destruct (String.eqb_spec (b64encode s) "") as [H|_].
  - by rewrite (b64encode_empty s H).
  - by rewrite b64decode_encode.
Qed.

Lemma source_text_decodes_witness :
  _extract_property_value
    (property "ProtectedString" "Source" (Some (b64encode "print('hi')")) [])
  = Ok (Scalar (SStr "print('hi')")).
Proof. apply source_text_decodes; [right|..]; reflexivity. Defined.

(** ** The decoder, case by case *)

(** X8.  Outside the thirteen tags whose case converts a number, reads a
    boolean or reads a child, the decoder never raises and returns a
    string: the cases [string], [Content], [BinaryString],
    [ProtectedString], [UniqueId], [SecurityCapabilities] and [Ref], and
    the serialisation of an element with any other tag. *)
Theorem other_tags_decode_to_a_string (e : Element) :
  tag e ∉ converting_tags ->
  exists s, _extract_property_value e = Ok (Scalar (SStr s)).
Proof.
  intros Htag. unfold _extract_property_value.
  repeat match goal with
         | |- context [String.eqb (tag e) ?t] =>
             destruct (String.eqb_spec (tag e) t) as [Heq|_];
             [try (exfalso; apply Htag; rewrite Heq; by_evaluation)|]
         end;
  simpl; eauto.
Qed.

Lemma other_tags_decode_to_a_string_witness :
  exists s, _extract_property_value (property "Ref" "PrimaryPart" None []) = Ok (Scalar (SStr s)).
Proof. apply other_tags_decode_to_a_string. by_evaluation. Defined.

(** X9.  What a vector decodes to and how the sidecar writes it.  A [Vector2]
    gives the two components [X] and [Y], whatever children it has; a
    [Vector3] gives a third component [Z] exactly when it has a [Z] child.
    The sidecar writes the two components as an array of two values and
    the three as an array of three. *)
Theorem vector_is_written_as_an_array (e : Element) (v : pyval) :
  tag e = "Vector2" \/ tag e = "Vector3" ->
  _extract_property_value e = Ok v ->
  exists x y,
    if (tag e =? "Vector3") && bool_decide (is_Some (find e "Z")) then
      exists z, v = Dict [("X", x); ("Y", y); ("Z", SFloat z)]
                /\ meta_value v = JList [JScalar x; JScalar y; JScalar (SFloat z)]
    else
      v = Dict [("X", x); ("Y", y)] /\ meta_value v = JList [JScalar x; JScalar y].
Proof.
  intros Htag H. unfold _extract_property_value in H.
  destruct Htag as [Htag|Htag]; rewrite Htag in *; simpl in H.
  - destruct (component_or_0 (find e "X")) as [x|]; [|discriminate]. simpl in H.
    destruct (component_or_0 (find e "Y")) as [y|]; [|discriminate]. simpl in H.
    injection H as <-. exists x, y. split; reflexivity.
  - destruct (component_or_0 (find e "X")) as [x|]; [|discriminate]. simpl in H.
    destruct (component_or_0 (find e "Y")) as [y|]; [|discriminate]. simpl in H.
    change ("Vector3" =? "Vector3") with true. cbn [andb].
    destruct (find e "Z") as [z|]; simpl in H.
    + destruct (float_or_0 (text z)) as [fz|]; [|discriminate]. simpl in H.
      injection H as <-. exists x, y. rewrite bool_decide_eq_true_2 by eauto.
      exists fz. split; reflexivity.
    + injection H as <-. exists x, y.
      rewrite bool_decide_eq_false_2 by (intros [? ?]; discriminate).
      split; reflexivity.
Qed.

Lemma vector_is_written_as_an_array_witness :
  exists x y z,
    Dict [ ("X", SFloat (float_of_text "4")); ("Y", SInt 0); ("Z", SFloat (float_of_text "2")) ]
    = Dict [("X", x); ("Y", y); ("Z", SFloat z)]
    /\ meta_value
         (Dict [ ("X", SFloat (float_of_text "4")); ("Y", SInt 0);
                 ("Z", SFloat (float_of_text "2")) ])
       = JList [JScalar x; JScalar y; JScalar (SFloat z)].
Proof.
  destruct (vector_is_written_as_an_array
              (property "Vector3" "Size" None [leaf "X" (Some "4"); leaf "Z" (Some "2")])
              (Dict [ ("X", SFloat (float_of_text "4")); ("Y", SInt 0);
                      ("Z", SFloat (float_of_text "2")) ]))
    as (x & y & z & H); [right; reflexivity | reflexivity |].
  exists x, y, z. exact H.
Defined.

(** X10.  Every colour that decodes is a record of the three channels [R], [G]
    and [B], and the sidecar writes it as the array of the three. *)
Theorem color_is_written_as_an_array (e : Element) (v : pyval) :
  tag e = "Color3" \/ tag e = "Color3uint8" ->
  _extract_property_value e = Ok v ->
  exists r g b,
    v = Dict [("R", r); ("G", g); ("B", b)]
    /\ meta_value v = JList [JScalar r; JScalar g; JScalar b].
Proof.
  intros Htag. unfold _extract_property_value.
  destruct Htag as [Htag|Htag]; rewrite Htag; simpl;
    (destruct (find e "R") as [r|], (find e "G") as [g|], (find e "B") as [b|];
     [|intros [= <-]; by eexists _, _, _..]);
    (destruct (float_or_0 (text r)) as [fr|]; [|discriminate]); simpl;
    (destruct (float_or_0 (text g)) as [fg|]; [|discriminate]); simpl;
    (destruct (float_or_0 (text b)) as [fb|]; [|discriminate]); simpl;
    intros [= <-]; by eexists _, _, _.
Qed.

Lemma color_is_written_as_an_array_witness :
  exists r g b,
    black = Dict [("R", r); ("G", g); ("B", b)]
    /\ meta_value black = JList [JScalar r; JScalar g; JScalar b].
Proof.
  apply (color_is_written_as_an_array color_rg); [left|]; reflexivity.
Defined.

(** The loop of the [CFrame] case. *)
Lemma cframe_loop (cs : list Element) : forall (d0 d : pydict string scalar),
  for_each
    (fun components component =>
       f ← float_or_0 (text component);
       Ok (dict_set (tag component) (SFloat f) components)) cs d0 = Ok d ->
  (forall k, k ∈ keys d <-> k ∈ keys d0 \/ exists c, c ∈ cs /\ tag c = k)
  /\ (forall k x, dict_get k d = Some x ->
        dict_get k d0 = Some x
        \/ exists c f, c ∈ cs /\ tag c = k /\ float_or_0 (text c) = Ok f /\ x = SFloat f).
Proof.
  induction cs as [|c cs IH]; intros d0 d; simpl.
  - intros [= <-]. split; [|by auto].
    intros k. split; [by auto|]. intros [H|(c & H & _)]; [exact H | inversion H].
  - destruct (float_or_0 (text c)) as [f|] eqn:Hf; [|discriminate]. simpl.
    intros H. apply IH in H as [Hk Hv]. split.
    + intros k. rewrite Hk, keys_dict_set.
      destruct (decide (tag c ∈ keys d0)) as [Hin|Hin].
      * split; [intros [?|(c' & ? & ?)]; [by left | right; exists c'; split; [by right|done]]|].
        intros [?|(c' & Hc' & <-)]; [by left|].
        apply elem_of_cons in Hc' as [->|Hc']; [by left | right; by exists c'].
      * rewrite elem_of_app, list_elem_of_singleton.
        split.
        -- intros [[?| ->]|(c' & ? & ?)]; [by left | right; exists c; split; [by left|done]
                                         | right; exists c'; split; [by right|done]].
        -- intros [?|(c' & Hc' & <-)]; [by left; left|].
           apply elem_of_cons in Hc' as [->|Hc']; [left; by right | right; by exists c'].
    + intros k x Hx. apply Hv in Hx as [Hx|(c' & f' & ? & ? & ? & ?)].
      * rewrite dict_get_set in Hx. destruct (decide (k = tag c)) as [->|_]; [|by left].
        injection Hx as <-. right. exists c, f. split; [by left|done].
      * right. exists c', f'. split; [by right|done].
Qed.

(** X11.  A [CFrame] or [CoordinateFrame] that decodes is a record with one
    entry for each tag among its children, and every entry is the float
    read from the text of a child with that tag. *)
Theorem cframe_keeps_one_entry_per_component_tag (e : Element) (v : pyval) :
  tag e = "CFrame" \/ tag e = "CoordinateFrame" ->
  _extract_property_value e = Ok v ->
  exists d, v = Dict d
    /\ (forall k, k ∈ keys d <-> exists c, c ∈ subelements e /\ tag c = k)
    /\ (forall k x, dict_get k d = Some x ->
          exists c f, c ∈ subelements e /\ tag c = k
                      /\ float_or_0 (text c) = Ok f /\ x = SFloat f).
Proof.
  intros Htag H.
  assert (exists d, for_each
            (fun components component =>
               f ← float_or_0 (text component);
               Ok (dict_set (tag component) (SFloat f) components))
            (subelements e) [] = Ok d /\ v = Dict d) as (d & Hloop & ->).
  { unfold _extract_property_value in H.
    destruct Htag as [Htag|Htag]; rewrite Htag in H; simpl in H;
      apply bind_Ok in H as (d & Hd & [= <-]); by exists d. }
  exists d. split; [reflexivity|].
  apply cframe_loop in Hloop as [Hk Hv]. split.
  - intros k. rewrite Hk. split; [intros [H'|H']; [inversion H' | exact H'] | by right].
  - intros k x Hx. by apply Hv in Hx as [Hx|Hx]; [discriminate|].
Qed.

Lemma cframe_keeps_one_entry_per_component_tag_witness :
  exists d,
    Dict [("X", SFloat (float_of_text "2")); ("Y", SFloat (float_of_int 0))] = Dict d
    /\ (forall k, k ∈ keys d
                  <-> exists c, c ∈ [leaf "X" (Some "1"); leaf "Y" None; leaf "X" (Some "2")]
                                /\ tag c = k)
    /\ (forall k x, dict_get k d = Some x ->
          exists c f, c ∈ [leaf "X" (Some "1"); leaf "Y" None; leaf "X" (Some "2")]
                      /\ tag c = k /\ float_or_0 (text c) = Ok f /\ x = SFloat f).
Proof.
  apply (cframe_keeps_one_entry_per_component_tag
           (property "CFrame" "CFrame" None
              [leaf "X" (Some "1"); leaf "Y" None; leaf "X" (Some "2")]));
    [left|]; reflexivity.
Defined.

(** ** The node map *)

Section DictNoDup.
Context {K V : Type} `{EqDecision K}.

Lemma dict_set_NoDup (k : K) (v : V) d : NoDup (keys d) -> NoDup (keys (dict_set k v d)).
Proof.
  intros H. rewrite keys_dict_set. destruct (decide (k ∈ keys d)); [exact H|].
  apply NoDup_app. split; [exact H|]. split; [|apply NoDup_singleton].
  intros x Hx Hk. apply list_elem_of_singleton in Hk as ->. contradiction.
Qed.

Lemma elem_of_dict_get (k : K) (v : V) d :
  NoDup (keys d) -> (k, v) ∈ d -> dict_get k d = Some v.
Proof.
  induction d as [|[k' v'] d IH]; simpl; [intros _ H; inversion H|].
  intros Hnd Hin. apply NoDup_cons in Hnd as [Hk' Hnd].
  apply elem_of_cons in Hin as [[= <- <-]|Hin].
  - by rewrite decide_True.
  - destruct (decide (k = k')) as [->|_]; [|by apply IH].
    exfalso. apply Hk'. apply list_elem_of_fmap. by exists (k', v).
Qed.
End DictNoDup.

Lemma first_pass_NoDup root : NoDup (keys (first_pass root)).
Proof.
  unfold first_pass.
  assert (forall l acc, NoDup (keys acc) -> NoDup (keys (fold_left first_pass_step l acc))) as H.
  { induction l as [|e l IH]; intros acc Hacc; simpl; [exact Hacc|].
    apply IH. unfold first_pass_step.
    destruct (tag e =? "Item"); [|exact Hacc].
    destruct (Py.or_default (get e "referent")); [|exact Hacc].
    destruct (Py.or_default (get e "class")); [|exact Hacc].
    by apply dict_set_NoDup. }
  apply H. constructor.
Qed.

(** Every entry of the first pass has its key as [referent], and the
    class of an element that declares it. *)
Lemma first_pass_header root k i :
  dict_get k (first_pass root) = Some i ->
  referent i = k
  /\ exists e, e ∈ end_events root /\ declares e k
               /\ Py.or_default (get e "class") = Some (class i).
Proof.
  unfold first_pass.
  assert (forall l acc,
            (forall k i, dict_get k acc = Some i ->
               referent i = k
               /\ exists e, e ∈ end_events root /\ declares e k
                            /\ Py.or_default (get e "class") = Some (class i)) ->
            (forall e, e ∈ l -> e ∈ end_events root) ->
            forall k i, dict_get k (fold_left first_pass_step l acc) = Some i ->
               referent i = k
               /\ exists e, e ∈ end_events root /\ declares e k
                            /\ Py.or_default (get e "class") = Some (class i)) as H.
  { induction l as [|e l IH]; intros acc Hacc Hl; simpl; [exact Hacc|].
    apply IH; [|intros e' He'; apply Hl; by right].
    intros k' i'. unfold first_pass_step.
    destruct (String.eqb_spec (tag e) "Item") as [Htag|_]; [|apply Hacc].
    destruct (Py.or_default (get e "referent")) as [r|] eqn:Hr; [|apply Hacc].
    destruct (Py.or_default (get e "class")) as [c|] eqn:Hc; [|apply Hacc].
    rewrite dict_get_set. destruct (decide (k' = r)) as [->|_]; [|apply Hacc].
    intros [= <-]. split; [reflexivity|]. exists e.
    split; [apply Hl; by left|]. split; [|exact Hc].
    split; [exact Htag|]. split; [exact Hr|]. rewrite Hc. eauto. }
  apply (H _ []); [intros ? ? [=] | auto].
Qed.

(** An invariant of the node map that the three updates of the second
    pass keep is kept by the second pass. *)
Lemma second_pass_invariant (Inv : pydict string Instance -> Prop) root insts0 st :
  (forall d item_elem ref_id properties_elem prop_elem v,
     item_elem ∈ findall root "Item" -> get item_elem "referent" = Some ref_id ->
     find item_elem "Properties" = Some properties_elem ->
     prop_elem ∈ subelements properties_elem ->
     _extract_property_value prop_elem = Ok v ->
     Inv d -> Inv (dict_update ref_id (set_property (get prop_elem "name") v) d)) ->
  (forall d k c, Inv d -> Inv (dict_update k (append_child c) d)) ->
  (forall d k p, Inv d -> Inv (dict_update k (set_parent p) d)) ->
  Inv insts0 -> second_pass root insts0 = Ok st -> Inv st.1.
Proof.
  intros Hprop Hchild Hparent. unfold second_pass.
  assert (forall l st0,
            (forall e, e ∈ l -> e ∈ findall root "Item") ->
            Inv st0.1 -> for_each second_pass_step l st0 = Ok st -> Inv st.1) as H.
  { induction l as [|item l IH]; intros st0 Hl H0; simpl; [by intros [= <-]|].
    intros Hrun. apply bind_Ok in Hrun as (st1 & Hstep & Hrun).
    apply (IH st1); [intros e He; apply Hl; by right| |exact Hrun].
    clear IH Hrun. unfold second_pass_step in Hstep.
    destruct (get item "referent") as [r|] eqn:Hr; [|by injection Hstep as <-].
    destruct (dict_has r st0.1); [|by injection Hstep as <-].
    apply bind_Ok in Hstep as (insts' & Hprops & [= <-]).
    assert (Inv insts') as Hinsts'.
    { unfold extract_properties in Hprops.
      destruct (find item "Properties") as [pe|] eqn:Hfind; [|by injection Hprops as <-].
      assert (forall ps d, (forall p, p ∈ ps -> p ∈ subelements pe) -> Inv d ->
                for_each
                  (fun instances prop_elem =>
                     let prop_name := get prop_elem "name" in
                     prop_value ← _extract_property_value prop_elem;
                     Ok (dict_update r (set_property prop_name prop_value) instances))
                  ps d = Ok insts' -> Inv insts') as Hloop.
      { induction ps as [|p ps IHps]; intros d Hps Hd; simpl; [by intros [= <-]|].
        destruct (_extract_property_value p) as [v|] eqn:Hv; [|discriminate]. simpl.
        apply IHps; [intros p' Hp'; apply Hps; by right|].
        apply (Hprop d item r pe p v); auto; [apply Hl; by left | apply Hps; by left]. }
      apply (Hloop (subelements pe) st0.1); auto. }
    generalize (findall_children item "Item"). intros cs.
    generalize (st0.2). revert Hinsts'. generalize insts'. clear -Hchild Hparent.
    induction cs as [|c cs IH]; intros d Hd s; simpl; [exact Hd|].
    unfold link_child at 2. simpl.
    destruct (get c "referent") as [y|]; [|by apply IH].
    destruct (dict_has y d); [|by apply IH].
    apply IH. by apply Hparent, Hchild. }
  intros H0 Hrun. exact (H _ (insts0, ∅) (fun e He => He) H0 Hrun).
Qed.

Lemma dict_get_update_Some {V} k k' (f : V -> V) (d : pydict string V) x :
  dict_get k' (dict_update k f d) = Some x ->
  exists x0, dict_get k' d = Some x0 /\ (x = x0 \/ (k' = k /\ x = f x0)).
Proof.
  rewrite dict_get_update. destruct (decide (k' = k)) as [->|_].
  - destruct (dict_get k d) as [x0|]; [|discriminate]. intros [= <-]. eauto.
  - intros H. eauto.
Qed.

(** The second pass keeps the class and the referent of every entry. *)
Lemma second_pass_header root insts0 st k i :
  second_pass root insts0 = Ok st -> dict_get k st.1 = Some i ->
  exists i0, dict_get k insts0 = Some i0 /\ class i = class i0 /\ referent i = referent i0.
Proof.
  intros Hrun. revert k i.
  apply (second_pass_invariant
           (fun d => forall k i, dict_get k d = Some i ->
              exists i0, dict_get k insts0 = Some i0
                         /\ class i = class i0 /\ referent i = referent i0)
           root insts0 st); [| | | |exact Hrun].
  - intros d _ r _ p v _ _ _ _ _ Hd k i Hi.
    apply dict_get_update_Some in Hi as (x0 & Hx0 & [->|[_ ->]]);
      destruct (Hd _ _ Hx0) as (i0 & ? & ? & ?); exists i0; simpl; auto.
  - intros d r c Hd k i Hi.
    apply dict_get_update_Some in Hi as (x0 & Hx0 & [->|[_ ->]]);
      destruct (Hd _ _ Hx0) as (i0 & ? & ? & ?); exists i0; simpl; auto.
  - intros d r p Hd k i Hi.
    apply dict_get_update_Some in Hi as (x0 & Hx0 & [->|[_ ->]]);
      destruct (Hd _ _ Hx0) as (i0 & ? & ? & ?); exists i0; simpl; auto.
  - intros k i Hi. eauto.
Qed.

Lemma parse_second_pass stem root gd :
  parse stem root = Ok gd ->
  exists cs, second_pass root (first_pass root) = Ok (instances gd, cs)
             /\ root_instances gd = find_roots (instances gd) cs
             /\ name gd = _get_game_name (instances gd) (root_instances gd) stem.
Proof.
  unfold parse. intros H. apply bind_Ok in H as ([insts cs] & Hpass & [= <-]).
  exists cs. auto.
Qed.

Lemma parse_keys stem root gd :
  parse stem root = Ok gd -> keys (instances gd) = keys (first_pass root).
Proof.
  intros H. apply parse_linked in H as (cs & Hl & _). exact (linked_keys _ _ _ Hl).
Qed.

Lemma parse_records_the_declared_nodes_aux stem root gd :
  parse stem root = Ok gd -> NoDup (keys (instances gd)).
Proof. intros H. rewrite (parse_keys _ _ _ H). apply first_pass_NoDup. Qed.

(** X12.  The node map of a parse that succeeds has no key twice, and its keys
    are the referents declared in the document: those of the [Item]
    elements, the root included, that have a referent and a class, neither
    of them empty. *)
Theorem parse_records_the_declared_nodes stem root gd :
  parse stem root = Ok gd ->
  NoDup (keys (instances gd))
  /\ forall k, k ∈ keys (instances gd)
               <-> exists e, (e = root \/ e ∈ descendants root) /\ declares e k.
Proof.
  intros H. rewrite (parse_keys _ _ _ H). split; [apply first_pass_NoDup|].
  intros k. rewrite first_pass_keys. split; intros (e & He & Hd); exists e; split;
    try assumption; by apply elem_of_end_events.
Qed.

Lemma parse_records_the_declared_nodes_witness :
  NoDup (keys (instances (parsed twins)))
  /\ forall k, k ∈ keys (instances (parsed twins))
               <-> exists e, (e = twins \/ e ∈ descendants twins) /\ declares e k.
Proof. apply (parse_records_the_declared_nodes "place"). vm_compute. reflexivity. Defined.

(** X13.  Every entry of the node map holds its own key in the field
    [referent], and in the field [class] the class attribute of an element
    that declares the key. *)
Theorem parsed_node_keeps_referent_and_class stem root gd k i :
  parse stem root = Ok gd -> dict_get k (instances gd) = Some i ->
  referent i = k
  /\ exists e, (e = root \/ e ∈ descendants root) /\ declares e k
               /\ get e "class" = Some (class i).
Proof.
  intros H Hi. apply parse_second_pass in H as (cs & Hpass & _).
  destruct (second_pass_header _ _ _ _ _ Hpass Hi) as (i0 & Hi0 & -> & ->).
  apply first_pass_header in Hi0 as (Href & e & He & Hd & Hc).
  split; [exact Href|]. exists e. split; [by apply elem_of_end_events|].
  split; [exact Hd|]. by apply or_default_Some in Hc as [-> _].
Qed.

Lemma parsed_node_keeps_referent_and_class_witness :
  referent (mkInstance "Workspace" "RBX1" [] ["RBX2"] None) = "RBX1"
  /\ exists e, (e = place \/ e ∈ descendants place) /\ declares e "RBX1"
               /\ get e "class" = Some (class (mkInstance "Workspace" "RBX1" [] ["RBX2"] None)).
Proof.
  apply (parsed_node_keeps_referent_and_class "place" place (parsed place));
    vm_compute; reflexivity.
Defined.

(** ** The roots *)

Lemma parent_by_None_iff links y : parent_by links y = None <-> y ∉ links.*2.
Proof.
  split.
  - intros H Hin. apply list_elem_of_fmap in Hin as ([r y'] & -> & Hin).
    exact (parent_by_None _ _ r H Hin).
  - intros H. destruct (parent_by links y) as [r|] eqn:Hp; [|reflexivity].
    exfalso. apply H. apply parent_by_Some in Hp.
    apply list_elem_of_fmap. by exists (r, y).
Qed.

(** X14.  The list of roots of a parse that succeeds has no referent twice, and
    it holds the nodes whose parent is unset, which are the nodes that no
    list of children mentions: the two tests of the loop over the node
    map agree. *)
Theorem roots_are_the_nodes_without_parent stem root gd :
  parse stem root = Ok gd ->
  NoDup (root_instances gd)
  /\ (forall k, k ∈ root_instances gd
                <-> exists i, dict_get k (instances gd) = Some i /\ parent i = None)
  /\ (forall k, k ∈ root_instances gd
                <-> k ∈ keys (instances gd)
                    /\ forall r i, dict_get r (instances gd) = Some i -> k ∉ children i).
Proof.
  intros H. pose proof (parse_records_the_declared_nodes_aux stem root gd H) as Hnd.
  apply parse_linked in H as (cs & Hl & ->).
  assert (forall k, k ∈ find_roots (instances gd) cs
                    <-> exists i, dict_get k (instances gd) = Some i /\ parent i = None) as Hroot.
  { intros k. unfold find_roots. rewrite list_elem_of_fmap. split.
    - intros ([k' i] & -> & Hin). apply list_elem_of_In, filter_In in Hin as [Hin Hr].
      apply list_elem_of_In in Hin. exists i. split; [by apply elem_of_dict_get|].
      unfold is_root in Hr. apply andb_true_iff in Hr as [_ Hr].
      by apply bool_decide_eq_true in Hr.
    - intros (i & Hi & Hp). exists (k, i). split; [reflexivity|].
      apply list_elem_of_In, filter_In. split; [by apply list_elem_of_In, dict_get_elem_of|].
      unfold is_root. simpl. rewrite Hp, andb_true_r. apply bool_decide_eq_true.
      rewrite (linked_set _ _ _ Hl). apply parent_by_None_iff.
      by rewrite <- (proj2 (linked_instance _ _ _ Hl k i Hi)). }
  split; [|split; [exact Hroot|]].
  - unfold find_roots. apply (sublist_NoDup _ (keys (instances gd))); [exact Hnd|].
    apply fmap_sublist. generalize (instances gd). intros d.
    induction d as [|x d IH]; simpl; [constructor|].
    destruct (is_root cs x); [by apply sublist_skip | by apply sublist_cons].
  - intros k. rewrite Hroot. split.
    + intros (i & Hi & Hp). split; [apply dict_get_keys; eauto|].
      intros r i' Hi'. rewrite (proj1 (linked_instance _ _ _ Hl r i' Hi')), elem_of_children_by.
      apply parent_by_None. by rewrite <- (proj2 (linked_instance _ _ _ Hl k i Hi)).
    + intros [Hk Hno]. apply dict_get_keys in Hk as [i Hi]. exists i. split; [exact Hi|].
      rewrite (proj2 (linked_instance _ _ _ Hl k i Hi)).
      destruct (parent_by _ k) as [r|] eqn:Hp; [|reflexivity]. exfalso.
      apply parent_by_Some in Hp. pose proof Hp as Hlink.
      apply elem_of_all_links in Hp as (e & c & _ & _ & _ & _ & Hr & _).
      rewrite <- (linked_has _ _ _ r Hl) in Hr. simpl in Hr.
      apply dict_has_keys, dict_get_keys in Hr as [i' Hi'].
      apply (Hno r i' Hi').
      by rewrite (proj1 (linked_instance _ _ _ Hl r i' Hi')), elem_of_children_by.
Qed.

Lemma roots_are_the_nodes_without_parent_witness :
  NoDup (root_instances (parsed shadowed))
  /\ (forall k, k ∈ root_instances (parsed shadowed)
                <-> exists i, dict_get k (instances (parsed shadowed)) = Some i
                              /\ parent i = None)
  /\ (forall k, k ∈ root_instances (parsed shadowed)
                <-> k ∈ keys (instances (parsed shadowed))
                    /\ forall r i, dict_get r (instances (parsed shadowed)) = Some i ->
                                   k ∉ children i).
Proof.
  apply (roots_are_the_nodes_without_parent "place" shadowed). vm_compute. reflexivity.
Defined.

(** ** The lists of children *)

Lemma children_by_app links1 links2 k :
  children_by (links1 ++ links2) k = children_by links1 k ++ children_by links2 k.
Proof. unfold children_by. by rewrite filter_app, fmap_app. Qed.

Lemma children_by_item insts0 e r :
  dict_has r insts0 = true ->
  children_by (item_links insts0 e) r
  = if decide (get e "referent" = Some r) then child_referents insts0 e else [].
Proof.
  intros Hr. unfold child_referents.
  destruct (decide (get e "referent" = Some r)) as [He|He].
  - unfold item_links. rewrite He.
    change (known insts0 (Some r)) with (if dict_has r insts0 then Some r else None).
    rewrite Hr.
    generalize (findall_children e "Item"). intros cs.
    induction cs as [|c cs IH]; [reflexivity|]. simpl. unfold child_link at 1.
    destruct (known insts0 (get c "referent")) as [y|]; simpl; [|exact IH].
    unfold children_by in *. rewrite filter_cons_True by reflexivity. simpl.
    f_equal. exact IH.
  - unfold item_links.
    destruct (known insts0 (get e "referent")) as [r'|] eqn:Hk; [|reflexivity].
    assert (r' <> r) as Hne.
    { intros ->. apply He. unfold known in Hk.
      destruct (get e "referent") as [k|]; [simpl in Hk|discriminate].
      destruct (dict_has k insts0); [by injection Hk as -> | discriminate]. }
    generalize (findall_children e "Item"). intros cs.
    induction cs as [|c cs IH]; [reflexivity|]. simpl. unfold child_link at 1.
    destruct (known insts0 (get c "referent")) as [y|]; simpl; [|exact IH].
    unfold children_by in *. rewrite filter_cons_False; [exact IH|]. simpl. congruence.
Qed.

Lemma children_by_all_links insts0 root r :
  dict_has r insts0 = true ->
  children_by (all_links insts0 root) r
  = concat (map (child_referents insts0) (items_of root r)).
Proof.
  intros Hr. unfold all_links, items_of. generalize (findall root "Item"). intros l.
  induction l as [|e l IH]; [reflexivity|].
  cbn [map concat]. rewrite children_by_app, children_by_item, IH by exact Hr.
  destruct (decide (get e "referent" = Some r)) as [He|He].
  - by rewrite filter_cons_True by exact He.
  - by rewrite filter_cons_False by exact He.
Qed.

Lemma known_keys (d1 d2 : pydict string Instance) r :
  keys d1 = keys d2 -> known d1 r = known d2 r.
Proof.
  intros H. unfold known. destruct r as [k|]; [simpl|reflexivity].
  replace (dict_has k d1) with (dict_has k d2); [reflexivity|].
  apply eq_true_iff_eq. by rewrite !dict_has_keys, H.
Qed.

Lemma child_referents_keys d1 d2 e :
  keys d1 = keys d2 -> child_referents d1 e = child_referents d2 e.
Proof.
  intros H. unfold child_referents. generalize (findall_children e "Item"). intros cs.
  induction cs as [|c cs IH]; [reflexivity|]. simpl.
  rewrite (known_keys d1 d2 _ H).
  destruct (known d2 (get c "referent")); [f_equal|]; exact IH.
Qed.

(** X15.  The list of children of a node is read off the document: over the
    [Item] elements that carry the node's referent, in document order, the
    referents of the direct [Item] children that are nodes, in document
    order. *)
Theorem children_follow_the_document_order stem root gd ref_id instance :
  parse stem root = Ok gd ->
  dict_get ref_id (instances gd) = Some instance ->
  children instance
  = concat (map (child_referents (instances gd)) (items_of root ref_id)).
Proof.
  intros H Hi. apply parse_linked in H as (cs & Hl & _).
  rewrite (proj1 (linked_instance _ _ _ Hl ref_id instance Hi)).
  rewrite children_by_all_links.
  - f_equal. apply map_ext. intros e. apply child_referents_keys.
    symmetry. exact (linked_keys _ _ _ Hl).
  - rewrite <- (linked_has _ _ _ ref_id Hl). simpl.
    apply dict_has_keys, dict_get_keys. eauto.
Qed.

Lemma children_follow_the_document_order_witness :
  children (mkInstance "Model" "A" [] ["P"] None)
  = concat (map (child_referents (instances (parsed twins))) (items_of twins "A")).
Proof.
  apply (children_follow_the_document_order "place" twins (parsed twins) "A");
    vm_compute; reflexivity.
Defined.

(** ** When the parse succeeds *)

Lemma for_each_Ok_in {A S} (Inv : S -> Prop) (f : S -> A -> result S) (l : list A) (st : S) :
  (forall st y st', Inv st -> f st y = Ok st' -> Inv st') ->
  (forall st y, y ∈ l -> Inv st -> exists st', f st y = Ok st') ->
  Inv st -> exists st', for_each f l st = Ok st'.
Proof.
  intros Hpres. revert st. induction l as [|y l IH]; intros st Hok Hinv; simpl; [eauto|].
  destruct (Hok st y) as [st1 Hst1]; [by left | exact Hinv|].
  rewrite Hst1. simpl. apply IH; [|by eapply Hpres].
  intros st2 y' Hy'. apply Hok. by right.
Qed.

(** X16.  A parse of a document returns a result exactly when the decoder
    returns on every property element the second pass hands to it: the
    decoder is the only part of [parse] that raises on a document that is
    well-formed XML. *)
Theorem parse_succeeds_iff_every_property_decodes stem root :
  (exists gd, parse stem root = Ok gd)
  <-> forall prop_elem, decoded_in root prop_elem ->
                        exists v, _extract_property_value prop_elem = Ok v.
Proof.
  split.
  - intros [gd Hgd] p Hp. destruct (_extract_property_value p) as [v|e] eqn:Hv; [eauto|].
    destruct (raising_property_aborts_parse stem root p) as [e' He'];
      [by exists e | exact Hp | congruence].
  - intros Hall. unfold parse.
    enough (exists st, second_pass root (first_pass root) = Ok st) as [st ->] by (simpl; eauto).
    unfold second_pass.
    apply (for_each_Ok_in (fun st => exists links, linked (first_pass root) links st)).
    + intros st y st' [links Hl] Hstep. eexists.
      exact (second_pass_step_linked _ _ _ _ _ Hstep Hl).
    + intros st item Hitem [links Hl]. unfold second_pass_step.
      destruct (get item "referent") as [r|] eqn:Hr; [|eauto].
      rewrite (linked_has _ _ _ r Hl).
      destruct (dict_has r (first_pass root)) eqn:Hhas; [|eauto].
      enough (exists insts', extract_properties r item st.1 = Ok insts') as [insts' ->]
        by (simpl; eauto).
      unfold extract_properties.
      destruct (find item "Properties") as [pe|] eqn:Hfind; [|eauto].
      apply (for_each_Ok_in (fun _ => True)); [done| |done].
      intros d p Hp _. destruct (Hall p) as [v ->]; [|simpl; eauto].
      exists item, r, pe. repeat split; try assumption. by apply dict_has_keys.
    + eexists. apply linked_init, first_pass_fresh.
Qed.

Lemma parse_succeeds_iff_every_property_decodes_sample :
  exists gd, parse "place" sample_place = Ok gd.
Proof. eexists. vm_compute. reflexivity. Qed.

(** ** The properties of a node *)

Lemma first_pass_no_properties root k i :
  dict_get k (first_pass root) = Some i -> properties i = [].
Proof.
  unfold first_pass.
  assert (forall l acc, (forall k i, dict_get k acc = Some i -> properties i = []) ->
                        forall k i, dict_get k (fold_left first_pass_step l acc) = Some i ->
                                    properties i = []) as H.
  { induction l as [|e l IH]; intros acc Hacc; simpl; [exact Hacc|].
    apply IH. intros k' i'. unfold first_pass_step.
    destruct (tag e =? "Item"); [|apply Hacc].
    destruct (Py.or_default (get e "referent")) as [r|]; [|apply Hacc].
    destruct (Py.or_default (get e "class")) as [c|]; [|apply Hacc].
    rewrite dict_get_set. destruct (decide (k' = r)); [|apply Hacc].
    by intros [= <-]. }
  apply (H _ []). intros ? ? [=].
Qed.

(** X17.  Every property of a node of the map is what the decoder returned for
    a property element of an [Item] element that carries the node's
    referent, stored under the [name] attribute of that element. *)
Theorem parsed_property_is_a_decoded_element stem root gd ref_id instance prop_name v :
  parse stem root = Ok gd ->
  dict_get ref_id (instances gd) = Some instance ->
  dict_get prop_name (properties instance) = Some v ->
  exists prop_elem,
    prop_elem ∈ property_elements root ref_id
    /\ get prop_elem "name" = prop_name
    /\ _extract_property_value prop_elem = Ok v.
Proof.
  intros H. apply parse_second_pass in H as (cs & Hpass & _).
  revert ref_id instance prop_name v.
  apply (second_pass_invariant
           (fun d => forall k i n v,
              dict_get k d = Some i -> dict_get n (properties i) = Some v ->
              exists p, p ∈ property_elements root k /\ get p "name" = n
                        /\ _extract_property_value p = Ok v)
           root (first_pass root) (instances gd, cs)); [| | | |exact Hpass].
  - intros d item r pe p v Hitem Hr Hfind Hp Hv Hd k i n v' Hi Hn.
    apply dict_get_update_Some in Hi as (x0 & Hx0 & [->|[-> ->]]); [by eapply Hd|].
    simpl in Hn. rewrite dict_get_set in Hn.
    destruct (decide (n = get p "name")) as [->|_]; [|by eapply Hd].
    injection Hn as <-. exists p. split; [|by split].
    unfold property_elements. apply elem_of_concat_map. exists item. split.
    + unfold items_of. by apply list_elem_of_filter.
    + by rewrite Hfind.
  - intros d r c Hd k i n v Hi Hn.
    apply dict_get_update_Some in Hi as (x0 & Hx0 & [->|[-> ->]]); by eapply Hd.
  - intros d r p Hd k i n v Hi Hn.
    apply dict_get_update_Some in Hi as (x0 & Hx0 & [->|[-> ->]]); by eapply Hd.
  - intros k i n v Hi Hn. by rewrite (first_pass_no_properties _ _ _ Hi) in Hn.
Qed.

Lemma parsed_property_is_a_decoded_element_witness :
  exists prop_elem,
    prop_elem ∈ property_elements sample_place "RBX2"
    /\ get prop_elem "name" = Some "Source"
    /\ _extract_property_value prop_elem = Ok (Scalar (SStr "print('hi')")).
Proof.
  apply (parsed_property_is_a_decoded_element "place" sample_place (parsed sample_place)
           "RBX2" main_script (Some "Source")); vm_compute; reflexivity.
Defined.

(** ** The name of the game *)

(** X18.  The name of the game is the file stem, or the [Name] property of a
    node of the map that is a root of class [DataModel] or a node of class
    [Workspace]. *)
Theorem game_name_is_a_node_name_or_the_stem stem root gd :
  parse stem root = Ok gd ->
  name gd = Scalar (SStr stem)
  \/ exists k i, dict_get k (instances gd) = Some i
                 /\ (class i = "DataModel" /\ k ∈ root_instances gd \/ class i = "Workspace")
                 /\ dict_get (Some "Name") (properties i) = Some (name gd).
Proof.
  intros H. pose proof (parse_records_the_declared_nodes_aux _ _ _ H) as Hnd.
  apply parse_second_pass in H as (cs & _ & _ & ->).
  unfold _get_game_name.
  destruct (head _) as [x|] eqn:Hhead; [right|by left]. simpl.
  apply head_Some_elem_of, elem_of_app in Hhead as [Hx|Hx];
    apply list_elem_of_omap in Hx.
  - destruct Hx as (k & Hk & Hx). destruct (dict_get k (instances gd)) as [i|] eqn:Hi;
      [simpl in Hx|discriminate]. unfold named_of_class in Hx.
    destruct (String.eqb_spec (class i) "DataModel") as [Hc|_]; [|discriminate].
    exists k, i. auto.
  - destruct Hx as ([k i] & Hin & Hx). simpl in Hx. unfold named_of_class in Hx.
    destruct (String.eqb_spec (class i) "Workspace") as [Hc|_]; [|discriminate].
    exists k, i. split; [by apply elem_of_dict_get|]. auto.
Qed.

Lemma game_name_is_a_node_name_or_the_stem_witness :
  name (parsed sample_place) = Scalar (SStr "place")
  \/ exists k i, dict_get k (instances (parsed sample_place)) = Some i
                 /\ (class i = "DataModel" /\ k ∈ root_instances (parsed sample_place)
                     \/ class i = "Workspace")
                 /\ dict_get (Some "Name") (properties i) = Some (name (parsed sample_place)).
Proof.
  apply (game_name_is_a_node_name_or_the_stem "place" sample_place). vm_compute. reflexivity.
Defined.

(** ** The sidecar's table of properties *)

Lemma meta_properties_loop props : forall meta0 meta,
  for_each
    (fun (meta : pydict string json) (kv : option string * pyval) =>
       match kv.1 with
       | None => Raise AttributeError
       | Some prop_name =>
           Ok (if is_included prop_name
               then dict_set prop_name (meta_value kv.2) meta
               else meta)
       end) props meta0 = Ok meta ->
  (NoDup (keys meta0) -> NoDup (keys meta))
  /\ (forall k, k ∈ keys meta
                <-> k ∈ keys meta0 \/ (Some k ∈ keys props /\ is_included k = true))
  /\ (forall k j, dict_get k meta = Some j ->
        dict_get k meta0 = Some j \/ exists v, (Some k, v) ∈ props /\ j = meta_value v).
Proof.
  induction props as [|[[n|] v] props IH]; intros meta0 meta; simpl; [| |discriminate].
  - intros [= <-]. split; [done|]. split; [|by auto].
    intros k. split; [by auto|]. intros [H|[H _]]; [exact H | inversion H].
  - intros H. apply IH in H as (Hnd & Hk & Hv). split; [|split].
    + intros H0. apply Hnd. destruct (is_included n); [by apply dict_set_NoDup | exact H0].
    + intros k. rewrite Hk. destruct (is_included n) eqn:Hn.
      * rewrite keys_dict_set. destruct (decide (n ∈ keys meta0)) as [Hin|Hin].
        -- split; [intros [?|[? ?]]; [by left | right; split; [by right|done]]|].
           intros [?|[Hin' ?]]; [by left|].
           apply elem_of_cons in Hin' as [[= ->]|?]; [by left | by right].
        -- rewrite elem_of_app, list_elem_of_singleton. split.
           ++ intros [[?| ->]|[? ?]]; [by left | right; split; [by left|done]
                                      | right; split; [by right|done]].
           ++ intros [?|[Hin' ?]]; [by left; left|].
              apply elem_of_cons in Hin' as [[= ->]|?]; [left; by right | by right].
      * split; [intros [?|[? ?]]; [by left | right; split; [by right|done]]|].
        intros [?|[Hin' Hk']]; [by left|].
        apply elem_of_cons in Hin' as [[= ->]|?]; [congruence | by right].
    + intros k j Hj. apply Hv in Hj as [Hj|(v' & Hv' & ->)].
      * destruct (is_included n); [|by left].
        rewrite dict_get_set in Hj. destruct (decide (k = n)) as [->|_]; [|by left].
        injection Hj as <-. right. exists v. split; [by left|done].
      * right. exists v'. split; [by right|done].
Qed.

Lemma meta_properties_raises props :
  None ∈ keys props -> meta_properties props = Raise AttributeError.
Proof.
  unfold meta_properties. generalize (@nil (string * json)).
  induction props as [|[[n|] v] props IH]; intros meta0 Hin; simpl.
  - inversion Hin.
  - apply IH. by apply elem_of_cons in Hin as [[=]|?].
  - reflexivity.
Qed.

Lemma meta_properties_returns props :
  None ∉ keys props -> exists meta, meta_properties props = Ok meta.
Proof.
  unfold meta_properties. generalize (@nil (string * json)).
  induction props as [|[[n|] v] props IH]; intros meta0 Hin; simpl.
  - eauto.
  - apply IH. intros H. apply Hin. by right.
  - exfalso. apply Hin. by left.
Qed.

(** X19.  The table of properties of a sidecar.  A property without a name makes
    [_create_meta_file] raise [AttributeError].  Otherwise the table has no
    key twice, its keys are the names of the properties that pass the
    test on the name, never [Name] and never a name that starts with an
    underscore, and each value is the flattened value of a property with
    that name. *)
Theorem sidecar_lists_the_included_properties (props : pydict (option string) pyval) :
  (None ∈ keys props -> meta_properties props = Raise AttributeError)
  /\ (None ∉ keys props ->
      exists meta, meta_properties props = Ok meta
        /\ NoDup (keys meta)
        /\ (forall k, k ∈ keys meta <-> Some k ∈ keys props /\ is_included k = true)
        /\ (forall k, k ∈ keys meta -> k <> "Name" /\ Py.startswith k "_" = false)
        /\ (forall k j, dict_get k meta = Some j ->
              exists v, (Some k, v) ∈ props /\ j = meta_value v)).
Proof.
  split; [apply meta_properties_raises|]. intros Hnone.
  destruct (meta_properties_returns props Hnone) as [meta Hmeta].
  exists meta. split; [exact Hmeta|].
  apply meta_properties_loop in Hmeta as (Hnd & Hk & Hv).
  assert (forall k, k ∈ keys meta <-> Some k ∈ keys props /\ is_included k = true) as Hk'.
  { intros k. rewrite Hk. split; [intros [H|H]; [inversion H | exact H] | by right]. }
  split; [apply Hnd; constructor|]. split; [exact Hk'|]. split.
  - intros k Hin. apply Hk' in Hin as [_ Hin]. unfold is_included in Hin.
    apply andb_prop in Hin as [Hin _]. apply andb_prop in Hin as [Hname Hus].
    apply negb_true_iff in Hname, Hus. split; [|exact Hus].
    by apply String.eqb_neq.
  - intros k j Hj. by apply Hv in Hj as [Hj|Hj]; [discriminate|].
Qed.

(** ** Scripts without children *)



(** ** What a run leaves on the disk *)

Lemma write_stat p c f f' : FS.write p c f = Ok f' -> FS.stat p f' = Ok (FS.File c).
Proof.
  intros H. pose proof (write_extends _ _ _ _ H) as Hext.
  apply write_Ok in H as (q & Hwalk & Hne & _ & ->).
  unfold FS.stat. rewrite (walk_extends _ _ _ _ _ Hext Hwalk). simpl.
  destruct q; [done|]. simpl. by rewrite lookup_insert_eq.
Qed.

Lemma stat_exists p f n : FS.stat p f = Ok n -> FS.exists_ p f = true.
Proof. unfold FS.exists_. by intros ->. Qed.

Lemma exec_target st c st' p :
  exec st c = Ok st' -> target c = Some p -> FS.exists_ p (files st') = true.
Proof.
  destruct c as [p' exist_ok record|p' v|p' j record|e]; simpl; try discriminate.
  - intros H [= <-]. destruct (FS.exists_ p' (files st)) eqn:Hex; [by injection H as <-|].
    apply bind_Ok in H as (f & Hmk & [= <-]). simpl. by apply mkdir_Ok in Hmk as [_ ?].
  - intros H [= <-]. destruct v as [[s| | |]|d];
      try (destruct (FS.write p' (FS.Text "") (files st)); discriminate).
    apply bind_Ok in H as (f & Hw & [= <-]). simpl. by eapply stat_exists, write_stat.
  - intros H [= <-]. apply bind_Ok in H as (f & Hw & [= <-]). simpl.
    by eapply stat_exists, write_stat.
Qed.

Lemma run_target_exists cmds : forall st st' c p,
  run cmds st = Ok st' -> c ∈ cmds -> target c = Some p ->
  FS.exists_ p (files st') = true.
Proof.
  unfold run. induction cmds as [|c0 cmds IH]; intros st st' c p; simpl.
  - intros _ H. inversion H.
  - intros H Hin Ht. apply bind_Ok in H as (st1 & Hc & Hrest).
    apply elem_of_cons in Hin as [->|Hin]; [|by eapply IH].
    apply (exists_extends _ (files st1)); [by apply (run_extends cmds)|].
    by eapply exec_target.
Qed.

Lemma exec_created st c st' p :
  exec st c = Ok st' -> p ∈ created_paths st' ->
  p ∈ created_paths st \/ target c = Some p.
Proof.
  assert (forall record p' cr, p ∈ record_path record p' cr -> p ∈ cr \/ p' = p) as Hrec.
  { intros [|] p' cr; simpl; [|by left].
    rewrite elem_of_union, elem_of_singleton. intros [->|?]; auto. }
  destruct c as [p' exist_ok record|p' v|p' j record|e]; simpl; try discriminate.
  - destruct (FS.exists_ p' (files st)); [intros [= <-]; by left|].
    intros H. apply bind_Ok in H as (f & _ & [= <-]). simpl.
    intros Hp. apply Hrec in Hp as [?| ->]; auto.
  - destruct v as [[s| | |]|d];
      try (destruct (FS.write p' (FS.Text "") (files st)); discriminate).
    intros H. apply bind_Ok in H as (f & _ & [= <-]). simpl.
    intros Hp. apply (Hrec true) in Hp as [?| ->]; auto.
  - intros H. apply bind_Ok in H as (f & _ & [= <-]). simpl.
    intros Hp. apply Hrec in Hp as [?| ->]; auto.
Qed.

Lemma run_created cmds : forall st st' p,
  run cmds st = Ok st' -> p ∈ created_paths st' ->
  p ∈ created_paths st \/ exists c, c ∈ cmds /\ target c = Some p.
Proof.
  unfold run. induction cmds as [|c0 cmds IH]; intros st st' p; simpl.
  - intros [= <-]. by left.
  - intros H Hp. apply bind_Ok in H as (st1 & Hc & Hrest).
    destruct (IH _ _ _ Hrest Hp) as [Hp1|(c & Hin & Ht)].
    + destruct (exec_created _ _ _ _ Hc Hp1) as [?|?]; [by left|].
      right. exists c0. split; [by left|done].
    + right. exists c. split; [by right|done].
Qed.

(** X21.  The generator removes nothing: a file or directory that was on the
    disk before a run that succeeds is there after it, a directory as a
    directory and a file as a file. *)
Theorem generation_keeps_what_was_on_the_disk game_data fuel output_dir st st' q n :
  run (generate_project game_data fuel output_dir) st = Ok st' ->
  files st !! q = Some n ->
  exists n', files st' !! q = Some n' /\ same_kind n n'.
Proof. intros H. by apply (run_extends _ _ _ H). Qed.

(** X22.  When a run succeeds, every path it created or wrote exists at the end
    of the run. *)
Theorem generated_paths_exist game_data fuel output_dir st st' c p :
  run (generate_project game_data fuel output_dir) st = Ok st' ->
  c ∈ generate_project game_data fuel output_dir -> target c = Some p ->
  FS.exists_ p (files st') = true.
Proof. apply run_target_exists. Qed.

(** X23.  The log [created_paths] of a run that succeeds lists, beyond what it
    listed before the run, only paths that exist when the run ends. *)
Theorem created_paths_exist game_data fuel output_dir st st' p :
  run (generate_project game_data fuel output_dir) st = Ok st' ->
  p ∈ created_paths st' ->
  p ∈ created_paths st \/ FS.exists_ p (files st') = true.
Proof.
  intros H Hp. destruct (run_created _ _ _ _ H Hp) as [?|(c & Hc & Ht)]; [by left|].
  right. by eapply run_target_exists.
Qed.

Lemma created_paths_exist_witness :
  ["out"; "src"; "Lighting"] ∈ created_paths empty_disk
  \/ FS.exists_ ["out"; "src"; "Lighting"]
       (files (after (generate_project (parsed sample_place) 8 ["out"]) empty_disk)) = true.
Proof.
  apply (created_paths_exist (parsed sample_place) 8 ["out"]).
  - apply sample_first_run.
  - by_evaluation.
Defined.

Lemma generated_paths_exist_witness :
  FS.exists_ ["out"; "src"]
    (files (after (generate_project (parsed sample_place) 8 ["out"]) empty_disk)) = true.
Proof.
  apply (generated_paths_exist (parsed sample_place) 8 ["out"] empty_disk _
           (Mkdir ["out"; "src"] false false)).
  - apply sample_first_run.
  - left.
  - reflexivity.
Defined.

Lemma sample_run_on_used_disk :
  run (generate_project (parsed sample_place) 8 ["out"]) used_disk
  = Ok (after (generate_project (parsed sample_place) 8 ["out"]) used_disk).
Proof. apply run_after. vm_compute. reflexivity. Qed.

Lemma generation_keeps_what_was_on_the_disk_witness :
  exists n',
    files (after (generate_project (parsed sample_place) 8 ["out"]) used_disk)
      !! ["out"; "notes.txt"] = Some n'
    /\ same_kind (FS.File (FS.Text "keep")) n'.
Proof.
  apply (generation_keeps_what_was_on_the_disk (parsed sample_place) 8 ["out"] used_disk).
  - apply sample_run_on_used_disk.
  - vm_compute. reflexivity.
Defined.

Lemma standard_directories_commands output_dir :
  _create_standard_directories output_dir (JObj project_tree)
  = map (fun d => Mkdir (output_dir ++ d) true true) standard_directories.
Proof. reflexivity. Qed.



(** ** Paths stay below the output directory *)

Lemma below_refl p : below p p.
Proof. exists []. split; [by rewrite app_nil_r | constructor]. Qed.

Lemma below_trans p1 p2 p3 : below p1 p2 -> below p2 p3 -> below p1 p3.
Proof.
  intros (a & -> & Ha) (b & -> & Hb). exists (a ++ b).
  split; [by rewrite app_assoc | by apply Forall_app].
Qed.

Lemma below_part p s : plain s -> below p (p ++ [s]).
Proof. intros H. exists [s]. split; [reflexivity | constructor; [exact H | constructor]]. Qed.

Lemma path_join_dot p : path_join p "." = p.
Proof. unfold path_join. simpl. apply app_nil_r. Qed.

Lemma normalize_name_of_nonempty v n : normalize_name_of v = Ok n -> n <> "".
Proof.
  destruct v as [[s| | |]|d]; try discriminate; intros [= <-]; apply normalize_items_nonempty.
Qed.

Lemma append_length_ne n ext s :
  n <> "" -> (String.length s <= String.length ext)%nat -> n +:+ ext <> s.
Proof.
  intros Hn Hlen H. apply (f_equal String.length) in H. rewrite length_append in H.
  destruct n; [done|]. simpl in H. lia.
Qed.

Lemma file_name_plain v n ext :
  normalize_name_of v = Ok n -> (1 < String.length ext)%nat -> plain (n +:+ ext).
Proof.
  intros Hn Hlen. apply normalize_name_of_nonempty in Hn.
  split; apply append_length_ne; simpl; auto; lia.
Qed.

Lemma below_directory p v n :
  normalize_name_of v = Ok n -> n <> ".." -> below p (path_join p n).
Proof.
  intros Hn Hdd. destruct (decide (n = ".")) as [->|Hd].
  - rewrite path_join_dot. apply below_refl.
  - rewrite (path_join_directory _ _ _ Hn Hd). by apply below_part.
Qed.

Lemma below_file p v n ext :
  normalize_name_of v = Ok n -> "/"%char ∉ Py.bytes ext -> (1 < String.length ext)%nat ->
  below p (path_join p (n +:+ ext)).
Proof.
  intros Hn Hs Hl. rewrite (path_join_file _ _ _ _ Hn Hs Hl).
  by apply below_part, (file_name_plain v).
Qed.

Lemma create_meta_file_below instance p c t :
  c ∈ _create_meta_file instance p -> target c = Some t -> below p t.
Proof.
  unfold _create_meta_file.
  destruct (meta_properties (properties instance)) as [props|e]; simpl;
    [|intros H; apply list_elem_of_singleton in H as ->; discriminate].
  destruct (negb (class instance =? "Folder") || (0 <? length props)%nat);
    [|intros H; inversion H].
  destruct (normalize_name_of (instance_name instance)) as [n|e] eqn:Hn; simpl;
    intros H; apply list_elem_of_singleton in H as ->; [|discriminate].
  intros [= <-]. apply (below_file _ _ _ _ Hn); [|simpl; lia].
  by_evaluation.
Qed.

Lemma process_instance_below game_data :
  no_parent_names game_data ->
  forall fuel instance parent_path is_root c t,
    normalize_name_of (instance_name instance) <> Ok ".." ->
    c ∈ _process_instance game_data fuel instance parent_path is_root ->
    target c = Some t -> below parent_path t.
Proof.
  intros Hnames.
  assert (forall refs child, child ∈ resolve game_data refs ->
            normalize_name_of (instance_name child) <> Ok "..") as Hres.
  { intros refs child Hin. apply list_elem_of_omap in Hin as (k & _ & Hk). by eapply Hnames. }
  induction fuel as [|fuel IH]; intros instance pp r c t Hname; simpl.
  { intros H. apply list_elem_of_singleton in H as ->. discriminate. }
  destruct (is_script_class (class instance)).
  - unfold _create_script_file_with.
    destruct (normalize_name_of (instance_name instance)) as [n|e] eqn:Hn;
      [|intros H; apply list_elem_of_singleton in H as ->; discriminate].
    intros Hc Ht. apply elem_of_cons in Hc as [->|Hc].
    + injection Ht as <-.
      destruct (script_extension_is_a_suffix (class instance)) as [Hs Hl].
      by apply (below_file _ _ _ _ Hn).
    + destruct (children instance) as [|c0 cs]; [inversion Hc|].
      apply elem_of_app in Hc as [Hc|Hc]; [by eapply create_meta_file_below|].
      apply elem_of_concat_map in Hc as (child & Hchild & Hc).
      assert (below pp (path_join pp n)) as Hdir
        by (apply (below_directory _ _ _ Hn); congruence).
      apply elem_of_cons in Hc as [->|Hc]; [by injection Ht as <-|].
      apply (below_trans _ _ _ Hdir). eapply IH; eauto.
  - destruct (normalize_name_of (instance_name instance)) as [n|e] eqn:Hn;
      [|intros H; apply list_elem_of_singleton in H as ->; discriminate].
    destruct (nonempty (children instance) || r || nonempty (properties instance));
      [|intros H; inversion H].
    assert (below pp (path_join pp n)) as Hdir
      by (apply (below_directory _ _ _ Hn); congruence).
    destruct (r && bool_decide (class instance ∈ pp)); simpl.
    + intros Hc Ht. apply elem_of_app in Hc as [Hc|Hc]; [by eapply create_meta_file_below|].
      apply elem_of_concat_map in Hc as (child & Hchild & Hc). eapply IH; eauto.
    + intros Hc Ht. apply elem_of_cons in Hc as [->|Hc]; [by injection Ht as <-|].
      apply (below_trans _ _ _ Hdir).
      apply elem_of_app in Hc as [Hc|Hc]; [by eapply create_meta_file_below|].
      apply elem_of_concat_map in Hc as (child & Hchild & Hc). eapply IH; eauto.
Qed.

Lemma below_src output_dir : below output_dir (path_join output_dir "src").
Proof. apply below_part. split; discriminate. Qed.

Lemma below_workspace src_dir : below src_dir (path_join src_dir "Workspace").
Proof. apply below_part. split; discriminate. Qed.

Lemma generate_project_below game_data fuel output_dir c t :
  no_parent_names game_data ->
  c ∈ generate_project game_data fuel output_dir -> target c = Some t ->
  below output_dir t.
Proof.
  intros Hnames Hc Ht. unfold generate_project in Hc.
  assert (forall refs child, child ∈ resolve game_data refs ->
            normalize_name_of (instance_name child) <> Ok "..") as Hres.
  { intros refs child Hin. apply list_elem_of_omap in Hin as (k & _ & Hk). by eapply Hnames. }
  apply elem_of_cons in Hc as [->|Hc]; [injection Ht as <-; apply below_src|].
  apply elem_of_app in Hc as [Hc|Hc].
  { unfold _generate_project_json in Hc. apply elem_of_cons in Hc as [->|Hc].
    - injection Ht as <-. apply below_part. split; discriminate.
    - rewrite standard_directories_commands in Hc.
      apply list_elem_of_fmap in Hc as (d & -> & Hd). injection Ht as <-.
      exists d. split; [reflexivity|]. revert d Hd. apply Forall_forall.
      repeat (constructor; [repeat constructor; discriminate|]). constructor. }
  apply (below_trans _ _ _ (below_src output_dir)).
  apply elem_of_app in Hc as [Hc|Hc].
  - apply elem_of_concat_map in Hc as (instance & Hin & Hc). unfold process_root in Hc.
    destruct (class instance =? "Workspace").
    + apply elem_of_cons in Hc as [->|Hc]; [injection Ht as <-; apply below_workspace|].
      apply (below_trans _ _ _ (below_workspace _)). by eapply create_meta_file_below.
    + eapply process_instance_below; eauto.
  - destruct (workspace_instance game_data) as [ws|]; [|inversion Hc].
    apply elem_of_concat_map in Hc as (child & Hin & Hc).
    apply (below_trans _ _ _ (below_workspace _)).
    eapply process_instance_below; eauto.
Qed.

Lemma walk_app f p1 : forall p2 cur q,
  FS.walk f cur (p1 ++ p2) = Ok q ->
  exists q1, FS.walk f cur p1 = Ok q1 /\ FS.walk f q1 p2 = Ok q.
Proof.
  induction p1 as [|part p1 IH]; intros p2 cur q; simpl; [eauto|].
  destruct (FS.lookup_node f cur) as [[|c]|]; try discriminate. apply IH.
Qed.

Lemma walk_plain f parts : forall cur q,
  Forall plain parts -> FS.walk f cur parts = Ok q -> q = cur ++ parts.
Proof.
  induction parts as [|part parts IH]; intros cur q Hplain; simpl.
  - intros [= <-]. by rewrite app_nil_r.
  - apply Forall_cons in Hplain as [[Hdd Hd] Hplain].
    destruct (FS.lookup_node f cur) as [[|c]|]; try discriminate.
    unfold FS.step. apply String.eqb_neq in Hdd, Hd. rewrite Hdd, Hd.
    intros H. apply (IH _ _ Hplain) in H as ->. by rewrite <- app_assoc.
Qed.

(** X25.  When no node of the map has [..] as its normalised display name,
    every path the generator creates or writes leads into the output
    directory: in a file system in which the path resolves, the output
    directory resolves and the path leads to a place below it. *)
Theorem generated_paths_stay_in_the_output_directory game_data fuel output_dir c t f q :
  no_parent_names game_data ->
  c ∈ generate_project game_data fuel output_dir -> target c = Some t ->
  FS.walk f [] t = Ok q ->
  exists q0, FS.walk f [] output_dir = Ok q0 /\ q0 `prefix_of` q.
Proof.
  intros Hnames Hc Ht Hwalk.
  destruct (generate_project_below _ _ _ _ _ Hnames Hc Ht) as (parts & -> & Hplain).
  apply walk_app in Hwalk as (q0 & Hq0 & Hq). exists q0. split; [exact Hq0|].
  apply (walk_plain _ _ _ _ Hplain) in Hq as ->. by exists parts.
Qed.

Lemma sample_has_no_parent_names : no_parent_names (parsed sample_place).
Proof.
  intros k i H. apply dict_get_elem_of in H.
  set (l := instances (parsed sample_place)) in H. vm_compute in l. subst l.
  repeat (apply elem_of_cons in H as [[= -> ->]|H]; [vm_compute; discriminate|]).
  inversion H.
Qed.

Lemma generated_paths_stay_in_the_output_directory_witness :
  exists q0, FS.walk {[ ["out"] := FS.Dir ]} [] ["out"] = Ok q0
             /\ q0 `prefix_of` ["out"; "src"].
Proof.
  apply (generated_paths_stay_in_the_output_directory (parsed sample_place) 8 ["out"]
           (Mkdir ["out"; "src"] false false) ["out"; "src"]).
  - apply sample_has_no_parent_names.
  - left.
  - reflexivity.
  - reflexivity.
Defined.

(** ** The manifest *)

Lemma suffix_is_not_the_manifest n ext :
  ext ∈ node_file_suffixes -> n +:+ ext <> "default.project.json".
Proof.
  intros Hext H. apply (f_equal (fun s => rev (Py.bytes s))) in H.
  rewrite bytes_append, rev_app_distr in H.
  repeat (apply elem_of_cons in Hext as [->|Hext]; [simpl in H; discriminate H|]).
  inversion Hext.
Qed.

Lemma suffix_is_plain n ext : ext ∈ node_file_suffixes -> plain (n +:+ ext).
Proof.
  intros Hext.
  assert (2 < String.length (n +:+ ext))%nat as Hlen.
  { rewrite length_append.
    repeat (apply elem_of_cons in Hext as [->|Hext]; [simpl; lia|]). inversion Hext. }
  split; intros H; rewrite H in Hlen; simpl in Hlen; lia.
Qed.

Lemma walk_snoc f dir x cur q :
  plain x -> FS.walk f cur (dir ++ [x]) = Ok q -> last q = Some x.
Proof.
  intros Hx H. apply walk_app in H as (q1 & _ & H).
  apply (walk_plain _ [x]) in H as ->; [|by constructor].
  apply last_snoc.
Qed.

Lemma write_keeps_other p c f f' q n :
  FS.write p c f = Ok f' ->
  (exists dir n ext, p = dir ++ [n +:+ ext] /\ ext ∈ node_file_suffixes) ->
  last q = Some "default.project.json" -> f !! q = Some n -> f' !! q = Some n.
Proof.
  intros Hw (dir & n0 & ext & -> & Hext) Hlast Hq.
  apply write_Ok in Hw as (q' & Hwalk & _ & _ & ->).
  apply walk_snoc in Hwalk; [|by apply suffix_is_plain].
  rewrite lookup_insert_ne; [exact Hq|]. intros ->.
  rewrite Hlast in Hwalk. injection Hwalk as Heq. symmetry in Heq.
  by apply suffix_is_not_the_manifest in Heq.
Qed.

Lemma exec_keeps_manifest st c st' q n :
  exec st c = Ok st' -> writes_node_file c ->
  last q = Some "default.project.json" ->
  files st !! q = Some n -> files st' !! q = Some n.
Proof.
  destruct c as [p exist_ok record|p v|p j record|e]; simpl; try discriminate.
  - destruct (FS.exists_ p (files st)); [by intros [= <-]|].
    intros H _ _ Hq. apply bind_Ok in H as (f & Hmk & [= <-]). simpl.
    apply mkdir_Ok in Hmk as [Hkeeps _]. by apply Hkeeps.
  - destruct v as [[s| | |]|d];
      try (destruct (FS.write p (FS.Text "") (files st)); discriminate).
    intros H Hc Hlast Hq. apply bind_Ok in H as (f & Hw & [= <-]). simpl.
    by eapply write_keeps_other.
  - intros H Hc Hlast Hq. apply bind_Ok in H as (f & Hw & [= <-]). simpl.
    by eapply write_keeps_other.
Qed.

Lemma run_keeps_manifest cmds : forall st st' q n,
  run cmds st = Ok st' -> Forall writes_node_file cmds ->
  last q = Some "default.project.json" ->
  files st !! q = Some n -> files st' !! q = Some n.
Proof.
  unfold run. induction cmds as [|c cmds IH]; intros st st' q n; simpl.
  - by intros [= <-].
  - intros H Hall Hlast Hq. apply bind_Ok in H as (st1 & Hc & Hrest).
    apply Forall_cons in Hall as [Hc' Hall].
    eapply IH; eauto. by eapply exec_keeps_manifest.
Qed.

Lemma create_meta_file_writes instance p : Forall writes_node_file (_create_meta_file instance p).
Proof.
  unfold _create_meta_file.
  destruct (meta_properties (properties instance)) as [props|e]; simpl;
    [|by repeat constructor].
  destruct (negb (class instance =? "Folder") || (0 <? length props)%nat); [|constructor].
  destruct (normalize_name_of (instance_name instance)) as [n|e] eqn:Hn; simpl;
    [|by repeat constructor].
  constructor; [|constructor]. simpl.
  exists p, n, ".meta.json". split; [|by_evaluation].
  apply (path_join_file _ _ _ _ Hn); [by_evaluation | simpl; lia].
Qed.

Lemma script_extension_is_a_node_suffix c :
  default ".lua" (dict_get c script_extensions) ∈ node_file_suffixes.
Proof.
  unfold script_extensions. simpl.
  repeat (destruct (decide _); [by_evaluation|]). by_evaluation.
Qed.

Lemma process_instance_writes game_data fuel : forall instance parent_path is_root,
  Forall writes_node_file (_process_instance game_data fuel instance parent_path is_root).
Proof.
  induction fuel as [|fuel IH]; intros instance pp r; simpl; [by repeat constructor|].
  assert (forall (g : Instance -> list command) l,
            (forall x, Forall writes_node_file (g x)) ->
            Forall writes_node_file (concat (map g l))) as Hconcat.
  { intros g l Hg. apply Forall_concat, Forall_forall. intros cmds Hin.
    apply list_elem_of_fmap in Hin as (x & -> & _). apply Hg. }
  destruct (is_script_class (class instance)).
  - unfold _create_script_file_with.
    destruct (normalize_name_of (instance_name instance)) as [n|e] eqn:Hn;
      [|by repeat constructor].
    constructor.
    + simpl. destruct (script_extension_is_a_suffix (class instance)) as [Hs Hl].
      exists pp, n, (default ".lua" (dict_get (class instance) script_extensions)).
      split; [by apply (path_join_file _ _ _ _ Hn) | apply script_extension_is_a_node_suffix].
    + destruct (children instance); [constructor|].
      apply Forall_app. split; [apply create_meta_file_writes|].
      apply Hconcat. intros child. constructor; [exact I | apply IH].
  - destruct (normalize_name_of (instance_name instance)) as [n|e]; [|by repeat constructor].
    destruct (nonempty (children instance) || r || nonempty (properties instance));
      [|constructor].
    apply Forall_app. split; [destruct (r && _); by repeat constructor|].
    apply Forall_app. split; [apply create_meta_file_writes|].
    apply Hconcat. intros child. apply IH.
Qed.

(** X26.  Whatever the game data, after a run that succeeds the file
    [default.project.json] of the output directory holds the project
    description with the name of the game: no file of a node is written
    over it. *)
Theorem manifest_holds_the_project_description game_data fuel output_dir st st' :
  run (generate_project game_data fuel output_dir) st = Ok st' ->
  FS.stat (path_join output_dir "default.project.json") (files st')
  = Ok (FS.File (FS.Json (project_json (name game_data)))).
Proof.
  intros H. unfold generate_project, _generate_project_json in H.
  rewrite <- app_comm_cons in H.
  remember (_create_standard_directories output_dir (JObj project_tree) ++ _) as rest
    eqn:Hrest_def in H.
  unfold run in H. cbn [for_each] in H.
  apply bind_Ok in H as (st1 & _ & H). apply bind_Ok in H as (st2 & Hw & Hrest).
  fold (run rest st2) in Hrest.
  cbn [exec] in Hw. apply bind_Ok in Hw as (f2 & Hw & [= <-]).
  pose proof (write_extends _ _ _ _ Hw) as Hext2.
  apply write_Ok in Hw as (q & Hwalk & Hne & _ & ->).
  pose proof (run_extends _ _ _ Hrest) as Hext. simpl in Hext.
  unfold FS.stat.
  rewrite (walk_extends _ _ _ _ _ Hext (walk_extends _ _ _ _ _ Hext2 Hwalk)). simpl.
  assert (last q = Some "default.project.json") as Hlast.
  { change (path_join output_dir "default.project.json")
      with (output_dir ++ ["default.project.json"]) in Hwalk.
    apply walk_snoc in Hwalk; [exact Hwalk | split; discriminate]. }
  destruct q as [|part q]; [done|]. simpl.
  erewrite (run_keeps_manifest _ _ _ _ _ Hrest); [reflexivity| |exact Hlast|].
  - rewrite Hrest_def. apply Forall_app. split.
    { rewrite standard_directories_commands. apply Forall_forall. intros c Hc.
      by apply list_elem_of_fmap in Hc as (d & -> & _). }
    apply Forall_app. split.
    + apply Forall_concat, Forall_forall. intros cmds Hin.
      apply list_elem_of_fmap in Hin as (instance & -> & _). unfold process_root.
      destruct (class instance =? "Workspace"); [|apply process_instance_writes].
      constructor; [exact I | apply create_meta_file_writes].
    + destruct (workspace_instance game_data); [|constructor].
      apply Forall_concat, Forall_forall. intros cmds Hin.
      apply list_elem_of_fmap in Hin as (child & -> & _). apply process_instance_writes.
  - simpl. by rewrite lookup_insert_eq.
Qed.

Lemma manifest_holds_the_project_description_witness :
  FS.stat (path_join ["out"] "default.project.json")
    (files (after (generate_project (parsed sample_place) 8 ["out"]) empty_disk))
  = Ok (FS.File (FS.Json (project_json (name (parsed sample_place))))).
Proof.
  apply (manifest_holds_the_project_description (parsed sample_place) 8 ["out"] empty_disk).
  apply sample_first_run.
Defined.

(** ** rbxlx_to_rojo.py: the check after the generation *)

Lemma run_has_no_throw cmds : forall st st' e, run cmds st = Ok st' -> Throw e ∉ cmds.
Proof.
  unfold run. induction cmds as [|c cmds IH]; intros st st' e; simpl.
  - intros _ H. inversion H.
  - intros H Hin. apply bind_Ok in H as (st1 & Hc & Hrest).
    apply elem_of_cons in Hin as [<-|Hin]; [discriminate Hc | by eapply IH].
Qed.

Lemma found_workspace_root game_data workspace_ref instance :
  found_workspace game_data = Some (workspace_ref, instance) ->
  instance ∈ resolve game_data (root_instances game_data)
  /\ class instance = "Workspace".
Proof.
  unfold found_workspace, resolve. intros H. apply head_Some_elem_of in H.
  apply list_elem_of_omap in H as (r & Hr & H).
  destruct (dict_get r (instances game_data)) as [i|] eqn:Hi; [|discriminate].
  destruct (String.eqb_spec (class i) "Workspace") as [Hc|_]; [|discriminate].
  injection H as <- <-. split; [|exact Hc].
  apply list_elem_of_omap. by exists r.
Qed.

(** After a run that succeeds, the directory of a workspace root holds its
    sidecar. *)
Lemma workspace_directory_is_not_empty game_data fuel output_dir st st' instance :
  run (generate_project game_data fuel output_dir) st = Ok st' ->
  instance ∈ resolve game_data (root_instances game_data) ->
  class instance = "Workspace" ->
  exists q x, FS.walk (files st') [] (path_join (path_join output_dir "src") "Workspace") = Ok q
              /\ FS.lookup_node (files st') q = Some FS.Dir
              /\ is_Some (files st' !! (q ++ [x])).
Proof.
  intros Hrun Hin Hclass.
  set (wp := path_join (path_join output_dir "src") "Workspace").
  assert (forall c, c ∈ _create_meta_file instance wp ->
                    c ∈ generate_project game_data fuel output_dir) as Hsub.
  { intros c Hc. unfold generate_project. right. apply elem_of_app. right.
    apply elem_of_app. left. apply elem_of_concat_map. exists instance.
    split; [exact Hin|]. unfold process_root. rewrite Hclass. simpl. by right. }
  unfold _create_meta_file in Hsub.
  destruct (meta_properties (properties instance)) as [props|e]; simpl in Hsub;
    [|exfalso; apply (run_has_no_throw _ _ _ e Hrun), Hsub; by left].
  rewrite Hclass in Hsub. simpl in Hsub.
  destruct (normalize_name_of (instance_name instance)) as [n|e] eqn:Hn; simpl in Hsub;
    [|exfalso; apply (run_has_no_throw _ _ _ e Hrun), Hsub; by left].
  rewrite (path_join_file _ _ _ _ Hn) in Hsub; [|by_evaluation|simpl; lia].
  pose proof (run_target_exists _ _ _ _ _ Hrun (Hsub _ ltac:(by left)) eq_refl) as Hex.
  apply exists_Ok in Hex as (q & Hwalk & Hq).
  apply walk_app in Hwalk as (q1 & Hq1 & Hwalk).
  pose proof (walk_Ok _ _ _ _ Hwalk) as [Hdir _].
  apply (walk_plain _ [_]) in Hwalk as ->;
    [|constructor; [by apply (file_name_plain _ _ _ Hn); simpl; lia | constructor]].
  exists q1, (n +:+ ".meta.json"). split; [exact Hq1|]. split; [exact Hdir|].
  destruct q1; exact Hq.
Qed.

Lemma verify_output_after_generation game_data fuel output_dir st st' :
  run (generate_project game_data fuel output_dir) st = Ok st' ->
  verify_output game_data fuel output_dir st' = Ok st'
  \/ (found_workspace game_data = None
      /\ verify_output game_data fuel output_dir st' = Raise NotADirectoryError).
Proof.
  intros Hrun. unfold verify_output.
  destruct (found_workspace game_data) as [[workspace_ref instance]|] eqn:Hfound.
  - left. apply found_workspace_root in Hfound as [Hin Hclass].
    destruct (workspace_directory_is_not_empty _ _ _ _ _ _ Hrun Hin Hclass)
      as (q & x & Hwalk & Hdir & Hentry).
    destruct (FS.exists_ _ (files st')); [|reflexivity].
    unfold FS.iterdir. rewrite Hwalk. simpl. rewrite Hdir.
    destruct (filter _ _) as [|entry entries] eqn:Hfilter; [|reflexivity].
    exfalso. destruct Hentry as [n Hn].
    assert (q ++ [x] ∈ filter (fun entry => entry <> [] /\ removelast entry = q)
                         (map_to_list (files st')).*1) as Habs.
    { apply list_elem_of_filter. split; [split|].
      - by destruct q.
      - apply removelast_last.
      - apply list_elem_of_fmap. exists (q ++ [x], n). split; [reflexivity|].
        by apply elem_of_map_to_list. }
    rewrite Hfilter in Habs. inversion Habs.
  - destruct (FS.exists_ _ (files st')) eqn:Hex; [|by left].
    unfold FS.exists_, FS.stat in Hex. unfold FS.iterdir.
    destruct (FS.walk (files st') [] _) as [q|e]; [simpl in *|discriminate].
    destruct (FS.lookup_node (files st') q) as [[|c]|]; [|by right|discriminate].
    left. simpl. by destruct (negb _).
Qed.

(** X27.  The check of [main] after the generation never processes a node
    again.  After a run of the generator that succeeds, the directory of a
    workspace root holds at least the sidecar of the workspace, so the
    check returns the state unchanged; without a workspace root it returns
    the state unchanged or raises [NotADirectoryError], when
    [src/Workspace] is a file. *)
Theorem workspace_fallback_never_runs game_data fuel output_dir st st' :
  run (generate_project game_data fuel output_dir) st = Ok st' ->
  verify_output game_data fuel output_dir st' = Ok st'
  \/ (found_workspace game_data = None
      /\ verify_output game_data fuel output_dir st' = Raise NotADirectoryError).
Proof. apply verify_output_after_generation. Qed.

(** The body of [main] ends as parse-then-emit does, or with the
    exception of the check. *)
Corollary main_conversion_adds_nothing stem root fuel output_dir st st' :
  convert stem root fuel output_dir st = Ok st' ->
  main_conversion stem root fuel output_dir st = Ok st'
  \/ main_conversion stem root fuel output_dir st = Raise NotADirectoryError.
Proof.
  unfold convert, main_conversion. intros H. apply bind_Ok in H as (gd & -> & Hrun).
  simpl. rewrite Hrun. simpl.
  destruct (verify_output_after_generation _ _ _ _ _ Hrun) as [->|[_ ->]]; auto.
Qed.

Lemma workspace_fallback_never_runs_witness :
  verify_output (parsed sample_place) 8 ["out"]
    (after (generate_project (parsed sample_place) 8 ["out"]) empty_disk)
  = Ok (after (generate_project (parsed sample_place) 8 ["out"]) empty_disk)
  \/ (found_workspace (parsed sample_place) = None
      /\ verify_output (parsed sample_place) 8 ["out"]
           (after (generate_project (parsed sample_place) 8 ["out"]) empty_disk)
         = Raise NotADirectoryError).
Proof.
  apply (workspace_fallback_never_runs (parsed sample_place) 8 ["out"] empty_disk).
  apply sample_first_run.
Defined.
